(** * linkpad: the content codec and the markup sanitizer

    A shallow embedding of [src/js/utils/compression.js] and
    [src/js/utils/sanitizer.js].

    JavaScript strings are sequences of 16-bit code units, bytes of a
    [Uint8Array] are [Byte.byte], and the host primitives the two files call
    ([String.prototype.replace] with a regular expression, [btoa]/[atob],
    [TextEncoder], [Response.text], [innerHTML]) are transcribed from the
    standards that define them.  The two primitives whose result is not fixed
    by a short standard algorithm, the gzip (de)compression streams and the
    markup parser, are interfaces ([CompressionStreams], [DOMParser]); the
    second holds the objects of the parsed document together with what the
    platform answers when [cleanNode] reads [childNodes], [nodeType],
    [tagName] and [textContent] of them. *)

From Stdlib Require Import NArith ZArith List Bool Lia String Ascii.
From Stdlib Require Import Strings.Byte.
Import ListNotations.
Local Open Scope N_scope.

(* ================================================================== *)
(** * JavaScript strings and values *)

Module JS.

(** A string value: its UTF-16 code units. *)
Definition jsstring := list N.

(** Code units of an ASCII literal of the source text. *)
Definition js (s : string) : jsstring :=
  map N_of_ascii (list_ascii_of_string s).

(** The code unit of a one-character literal. *)
Definition ch (a : ascii) : N := N_of_ascii a.

Definition is_code_unit (c : N) : bool := c <? 65536.

(** The values a JavaScript caller can hand to a function that expects a
    string. *)
Inductive value :=
| VUndefined
| VNull
| VBoolean (b : bool)
| VNumber (n : N)
| VString (s : jsstring)
| VObject.

(** [!v] *)
Definition falsy (v : value) : bool :=
  match v with
  | VUndefined | VNull => true
  | VBoolean b => negb b
  | VNumber n => n =? 0
  | VString s => match s with [] => true | _ => false end
  | VObject => false
  end.

(** [typeof v === 'string'] *)
Definition is_string (v : value) : bool :=
  match v with VString _ => true | _ => false end.

(** A call either returns or throws an [Error] with a message. *)
Inductive completion (A : Type) :=
| Return (a : A)
| Throw (message : jsstring).
Arguments Return {A} a.
Arguments Throw {A} message.

(** [try { body } catch (error) { throw new Error(message) }] *)
Definition try_catch {A} (body : option A) (message : jsstring) : completion A :=
  match body with
  | Some a => Return a
  | None => Throw message
  end.

Definition in_range (lo hi c : N) : bool := (lo <=? c) && (c <=? hi).

Definition is_upper (c : N) : bool := in_range 65 90 c.
Definition is_lower (c : N) : bool := in_range 97 122 c.
Definition is_digit (c : N) : bool := in_range 48 57 c.

(** [String.prototype.toLowerCase], one code unit at a time.  Basic Latin
    capitals and the Kelvin sign (U+212A) are the only code units whose
    lower case is a Basic Latin letter; every other code unit is mapped by
    the host to a string that is not Basic Latin, and is left as it is. *)
Definition lower_unit (c : N) : N :=
  if is_upper c then c + 32
  else if c =? 8490 then 107
  else c.

Definition toLowerCase (s : jsstring) : jsstring := map lower_unit s.

(** ASCII upper-casing, as the DOM applies it to [tagName]. *)
Definition ascii_upper_unit (c : N) : N :=
  if is_lower c then c - 32 else c.

Definition ascii_uppercase (s : jsstring) : jsstring := map ascii_upper_unit s.

Fixpoint eqb (s t : jsstring) : bool :=
  match s, t with
  | [], [] => true
  | a :: s', b :: t' => (a =? b) && eqb s' t'
  | _, _ => false
  end.

End JS.
Import JS.

(* ================================================================== *)
(** * Regular expressions

    The backtracking matcher of ECMAScript (ECMA-262, 22.2.2): a pattern
    denotes a function from a match state and a continuation to a match
    result.  Only the syntax the two source files use is covered. *)

Module RegExp.

Inductive pattern :=
| Empty
| Lit (c : N)                     (* a pattern character *)
| Class (p : N -> bool)           (* a class or class escape: [[^<]], [\w], [\s] *)
| Seq (r1 r2 : pattern)
| Star (r : pattern)              (* greedy [r*] *)
| NegLookahead (r : pattern)      (* [(?!r)] *)
| WordBoundary                    (* [\b] *)
| EndOfInput.                     (* [$] without the [m] flag *)

(** [r+] *)
Definition Plus (r : pattern) : pattern := Seq r (Star r).

(** The characters of a literal, in sequence. *)
Fixpoint Str (s : jsstring) : pattern :=
  match s with
  | [] => Empty
  | [c] => Lit c
  | c :: s' => Seq (Lit c) (Str s')
  end.

(** [\w] *)
Definition word_char (c : N) : bool :=
  is_upper c || is_lower c || is_digit c || (c =? 95).

(** [\s]: WhiteSpace and LineTerminator. *)
Definition white_space (c : N) : bool :=
  in_range 9 13 c || (c =? 32) || (c =? 160) || (c =? 5760)
  || in_range 8192 8202 c || (c =? 8232) || (c =? 8233) || (c =? 8239)
  || (c =? 8287) || (c =? 12288) || (c =? 65279).

(** [[^c]] *)
Definition other_than (c : N) : N -> bool := fun a => negb (a =? c).

(** Canonicalize (22.2.2.7.3) without the [u] flag: a code unit is compared
    by its upper case, and a code unit outside Basic Latin never becomes a
    Basic Latin one.  All pattern characters here are Basic Latin, for which
    this is exact. *)
Definition canonicalize (ignoreCase : bool) (c : N) : N :=
  if ignoreCase then ascii_upper_unit c else c.

(** A match state: the input before the current position, reversed, and the
    input from the current position on. *)
Definition state := (list N * list N)%type.
Definition continuation := state -> option state.

Definition consumed (x y : state) : bool :=
  Nat.ltb (List.length (snd y)) (List.length (snd x)).

(** RepeatMatcher for [r*]: an iteration that consumes nothing is rejected,
    so the number of iterations is bounded by the length of the remaining
    input, which [fuel] starts from. *)
Fixpoint repeatMatcher (m : state -> continuation -> option state)
    (fuel : nat) (x : state) (c : continuation) : option state :=
  match fuel with
  | O => c x
  | S fuel' =>
      match m x (fun y => if consumed x y then repeatMatcher m fuel' y c else None) with
      | Some z => Some z
      | None => c x
      end
  end.

Definition is_word_at (o : option N) : bool :=
  match o with Some a => word_char a | None => false end.

Fixpoint matcher (ignoreCase : bool) (r : pattern) (x : state) (c : continuation)
    {struct r} : option state :=
  match r with
  | Empty => c x
  | Lit p =>
      match snd x with
      | a :: rest =>
          if canonicalize ignoreCase a =? canonicalize ignoreCase p
          then c (a :: fst x, rest) else None
      | [] => None
      end
  | Class p =>
      match snd x with
      | a :: rest => if p a then c (a :: fst x, rest) else None
      | [] => None
      end
  | Seq r1 r2 => matcher ignoreCase r1 x (fun y => matcher ignoreCase r2 y c)
  | Star r' => repeatMatcher (matcher ignoreCase r') (List.length (snd x)) x c
  | NegLookahead r' =>
      match matcher ignoreCase r' x (fun y => Some y) with
      | Some _ => None
      | None => c x
      end
  | WordBoundary =>
      if xorb (is_word_at (hd_error (fst x))) (is_word_at (hd_error (snd x)))
      then c x else None
  | EndOfInput => match snd x with [] => c x | _ => None end
  end.

(** The length of the match that starts at the current position, if any. *)
Definition matchAt (ignoreCase : bool) (r : pattern) (seen s : list N) : option nat :=
  match matcher ignoreCase r (seen, s) (fun y => Some y) with
  | Some y => Some (List.length s - List.length (snd y))%nat
  | None => None
  end.

(** [s.replace(/r/g, by)] with a literal replacement: matches are found left
    to right, each search starting where the previous match ended (one
    further after an empty match).  [skip] counts the code units of the
    current match still to be dropped. *)
Fixpoint replaceGlobal (ignoreCase : bool) (r : pattern) (by_ : jsstring)
    (skip : nat) (seen s : list N) {struct s} : jsstring :=
  match skip with
  | S k =>
      match s with
      | [] => []
      | a :: s' => replaceGlobal ignoreCase r by_ k (a :: seen) s'
      end
  | O =>
      match matchAt ignoreCase r seen s with
      | None =>
          match s with
          | [] => []
          | a :: s' => a :: replaceGlobal ignoreCase r by_ O (a :: seen) s'
          end
      | Some O =>
          by_ ++ match s with
                 | [] => []
                 | a :: s' => a :: replaceGlobal ignoreCase r by_ O (a :: seen) s'
                 end
      | Some (S k) =>
          by_ ++ match s with
                 | [] => []
                 | a :: s' => replaceGlobal ignoreCase r by_ k (a :: seen) s'
                 end
      end
  end.

(** [s.replace(/r/, by)]: only the leftmost match is replaced. *)
Fixpoint replaceFirst (ignoreCase : bool) (r : pattern) (by_ : jsstring)
    (seen s : list N) {struct s} : jsstring :=
  match matchAt ignoreCase r seen s with
  | Some n => by_ ++ skipn n s
  | None =>
      match s with
      | [] => []
      | a :: s' => a :: replaceFirst ignoreCase r by_ (a :: seen) s'
      end
  end.

(** A regular expression literal with its flags. *)
Record regexp := { source : pattern; global : bool; ignoreCase : bool }.

(** [String.prototype.replace(regexp, replacement)] *)
Definition replace (s : jsstring) (re : regexp) (by_ : jsstring) : jsstring :=
  if global re
  then replaceGlobal (ignoreCase re) (source re) by_ O [] s
  else replaceFirst (ignoreCase re) (source re) by_ [] s.

End RegExp.

(* ================================================================== *)
(** * Typed arrays *)

Module Uint8.

(** Storing a number into a [Uint8Array] element keeps it modulo 256. *)
Definition of_N (n : N) : byte :=
  match Byte.of_N (n mod 256) with
  | Some b => b
  | None => x00
  end.

Definition to_N (b : byte) : N := Byte.to_N b.

End Uint8.

(* ================================================================== *)
(** * [btoa] and [atob]

    Forgiving-base64 encode and decode of the Infra standard, on binary
    strings (strings whose code units are at most 255). *)

Module Base64.

Definition alphabet : jsstring :=
  js "ABCDEFGHIJKLMNOPQRSTUVWXYZabcdefghijklmnopqrstuvwxyz0123456789+/".

Definition pad : N := ch "="%char.

(** The character of a 6-bit value. *)
Definition char_of (v : N) : N := nth (N.to_nat v) alphabet 0.

(** The 6-bit value of a character of the alphabet. *)
Definition index_of (c : N) : option N :=
  if is_upper c then Some (c - 65)
  else if is_lower c then Some (c - 97 + 26)
  else if is_digit c then Some (c - 48 + 52)
  else if c =? 43 then Some 62
  else if c =? 47 then Some 63
  else None.

Definition in_alphabet (c : N) : bool :=
  match index_of c with Some _ => true | None => false end.

Fixpoint encode (bs : list N) : jsstring :=
  match bs with
  | [] => []
  | [a] =>
      [char_of (N.shiftr a 2); char_of (N.shiftl (N.land a 3) 4); pad; pad]
  | [a; b] =>
      [char_of (N.shiftr a 2);
       char_of (N.lor (N.shiftl (N.land a 3) 4) (N.shiftr b 4));
       char_of (N.shiftl (N.land b 15) 2); pad]
  | a :: b :: c :: rest =>
      char_of (N.shiftr a 2)
      :: char_of (N.lor (N.shiftl (N.land a 3) 4) (N.shiftr b 4))
      :: char_of (N.lor (N.shiftl (N.land b 15) 2) (N.shiftr c 6))
      :: char_of (N.land c 63)
      :: encode rest
  end.

(** [btoa(data)]: throws (here [None]) when a code unit exceeds 255. *)
Definition btoa (data : jsstring) : option jsstring :=
  if forallb (fun c => c <=? 255) data then Some (encode data) else None.

Definition ascii_whitespace (c : N) : bool :=
  (c =? 9) || (c =? 10) || (c =? 12) || (c =? 13) || (c =? 32).

(** Remove one or two trailing [=]. *)
Definition strip_padding (data : jsstring) : jsstring :=
  match rev data with
  | p1 :: p2 :: r =>
      if p1 =? pad then if p2 =? pad then rev r else rev (p2 :: r) else data
  | [p1] => if p1 =? pad then [] else data
  | [] => data
  end.

(** The bit buffer of the decoder: [n] characters have been appended to
    [buf] since it was last emptied.  At 24 bits three bytes are output; at
    the end 12 bits give one byte and 18 bits give two. *)
Fixpoint decode_go (buf : N) (n : nat) (data : jsstring) : list N :=
  match data with
  | [] =>
      match n with
      | 2%nat => [N.shiftr buf 4]
      | 3%nat => [N.shiftr buf 10; N.land (N.shiftr buf 2) 255]
      | _ => []
      end
  | c :: data' =>
      let v := match index_of c with Some v => v | None => 0 end in
      let buf' := N.lor (N.shiftl buf 6) v in
      match n with
      | 3%nat =>
          N.shiftr buf' 16 :: N.land (N.shiftr buf' 8) 255 :: N.land buf' 255
          :: decode_go 0 0 data'
      | _ => decode_go buf' (S n) data'
      end
  end.

(** [atob(data)]: throws (here [None]) when [data] is not forgiving-base64. *)
Definition atob (data : jsstring) : option jsstring :=
  let data := filter (fun c => negb (ascii_whitespace c)) data in
  let data :=
    if (N.of_nat (List.length data) mod 4 =? 0) then strip_padding data else data in
  if N.of_nat (List.length data) mod 4 =? 1 then None
  else if negb (forallb in_alphabet data) then None
  else Some (decode_go 0 0 data).

End Base64.

(* ================================================================== *)
(** * Text encoding

    [TextEncoder.prototype.encode] and the UTF-8 decode that
    [Response.prototype.text] applies, from the Encoding standard. *)

Module Encoding.

Definition is_lead_surrogate (c : N) : bool := in_range 0xD800 0xDBFF c.
Definition is_trail_surrogate (c : N) : bool := in_range 0xDC00 0xDFFF c.
Definition replacement : N := 0xFFFD.

(** Conversion of a string to scalar values (Web IDL [USVString]): a
    surrogate pair is one scalar value, an unpaired surrogate becomes
    U+FFFD. *)
Fixpoint scalar_values (s : jsstring) : list N :=
  match s with
  | [] => []
  | c :: s' =>
      if is_lead_surrogate c then
        match s' with
        | d :: s'' =>
            if is_trail_surrogate d
            then (0x10000 + N.shiftl (N.land c 0x3FF) 10 + N.land d 0x3FF)
                 :: scalar_values s''
            else replacement :: scalar_values s'
        | [] => [replacement]
        end
      else if is_trail_surrogate c then replacement :: scalar_values s'
      else c :: scalar_values s'
  end.

(** The continuation bytes of the UTF-8 encoder. *)
Fixpoint utf8_trail (cp : N) (count : nat) : list N :=
  match count with
  | O => []
  | S k =>
      N.lor 0x80 (N.land (N.shiftr cp (6 * N.of_nat k)) 0x3F) :: utf8_trail cp k
  end.

Definition utf8_encode_scalar (cp : N) : list N :=
  if in_range 0x00 0x7F cp then [cp]
  else
    let '(count, offset) :=
      if in_range 0x80 0x7FF cp then (1%nat, 0xC0)
      else if in_range 0x800 0xFFFF cp then (2%nat, 0xE0)
      else (3%nat, 0xF0) in
    (N.shiftr cp (6 * N.of_nat count) + offset) :: utf8_trail cp count.

(** [new TextEncoder().encode(text)] *)
Definition TextEncoder_encode (text : jsstring) : list byte :=
  map Uint8.of_N (flat_map utf8_encode_scalar (scalar_values text)).

(** The state of the UTF-8 decoder. *)
Record decoder := {
  code_point : N;
  bytes_seen : nat;
  bytes_needed : nat;
  lower_boundary : N;
  upper_boundary : N
}.

Definition initial : decoder :=
  {| code_point := 0; bytes_seen := 0; bytes_needed := 0;
     lower_boundary := 0x80; upper_boundary := 0xBF |}.

Inductive handled :=
| Emit (cp : N)
| Continue (d : decoder)
| Error.

(** A byte read while no bytes are needed. *)
Definition lead_byte (b : N) : handled :=
  if in_range 0x00 0x7F b then Emit b
  else if in_range 0xC2 0xDF b then
    Continue {| code_point := N.land b 0x1F; bytes_seen := 0; bytes_needed := 1;
                lower_boundary := 0x80; upper_boundary := 0xBF |}
  else if in_range 0xE0 0xEF b then
    Continue {| code_point := N.land b 0xF; bytes_seen := 0; bytes_needed := 2;
                lower_boundary := if b =? 0xE0 then 0xA0 else 0x80;
                upper_boundary := if b =? 0xED then 0x9F else 0xBF |}
  else if in_range 0xF0 0xF4 b then
    Continue {| code_point := N.land b 0x7; bytes_seen := 0; bytes_needed := 3;
                lower_boundary := if b =? 0xF0 then 0x90 else 0x80;
                upper_boundary := if b =? 0xF4 then 0x8F else 0xBF |}
  else Error.

(** The decoder run over a byte queue with error mode "replacement".  A byte
    outside the boundaries is an error and is read again with the state
    reset. *)
Fixpoint utf8_decoder (d : decoder) (bytes : list N) : list N :=
  let fresh b rest :=
    match lead_byte b with
    | Emit cp => cp :: utf8_decoder initial rest
    | Continue d' => utf8_decoder d' rest
    | Error => replacement :: utf8_decoder initial rest
    end in
  match bytes with
  | [] => match bytes_needed d with O => [] | _ => [replacement] end
  | b :: rest =>
      match bytes_needed d with
      | O => fresh b rest
      | _ =>
          if in_range (lower_boundary d) (upper_boundary d) b then
            let cp := N.lor (N.shiftl (code_point d) 6) (N.land b 0x3F) in
            if Nat.eqb (S (bytes_seen d)) (bytes_needed d)
            then cp :: utf8_decoder initial rest
            else utf8_decoder {| code_point := cp; bytes_seen := S (bytes_seen d);
                                 bytes_needed := bytes_needed d;
                                 lower_boundary := 0x80; upper_boundary := 0xBF |} rest
          else replacement :: fresh b rest
      end
  end.

(** The code units of a scalar value. *)
Definition code_units (cp : N) : jsstring :=
  if cp <? 0x10000 then [cp]
  else [0xD800 + N.shiftr (cp - 0x10000) 10; 0xDC00 + N.land (cp - 0x10000) 0x3FF].

(** Do the three bytes at the head of the queue form the byte order mark? *)
Definition peek_bom (queue : list N) : bool :=
  match queue with
  | b1 :: b2 :: b3 :: _ => (b1 =? 0xEF) && (b2 =? 0xBB) && (b3 =? 0xBF)
  | _ => false
  end.

(** UTF-8 decode: a leading byte order mark EF BB BF is read and dropped,
    the rest is run through the decoder. *)
Definition utf8_decode (bytes : list byte) : jsstring :=
  let queue := map Uint8.to_N bytes in
  let queue := if peek_bom queue then skipn 3 queue else queue in
  flat_map code_units (utf8_decoder initial queue).

(** [String.prototype.isWellFormed]: no code unit is an unpaired surrogate
    (and every element is a 16-bit code unit). *)
Fixpoint isWellFormed (s : jsstring) : bool :=
  match s with
  | [] => true
  | c :: s' =>
      if is_lead_surrogate c then
        match s' with
        | d :: s'' => is_trail_surrogate d && isWellFormed s''
        | [] => false
        end
      else negb (is_trail_surrogate c) && is_code_unit c && isWellFormed s'
  end.

End Encoding.

(* ================================================================== *)
(** * [src/js/utils/compression.js] *)

(** [CompressionStream('gzip')] and [DecompressionStream('gzip')], each
    piped over a whole byte sequence; [None] is a thrown or rejected
    stream. *)
Class CompressionStreams := {
  gzip : list byte -> option (list byte);
  gunzip : list byte -> option (list byte)
}.

Module Compression.
Import RegExp.

Notation "x <- e ;; k" :=
  (match e with Some x => k | None => None end)
  (at level 61, e at next level, right associativity, only parsing).

(** The regular expression literals of the file. *)
Definition re_plus : regexp :=       (* /\+/g *)
  {| source := Lit (ch "+"%char); global := true; ignoreCase := false |}.
Definition re_slash : regexp :=      (* /\//g *)
  {| source := Lit (ch "/"%char); global := true; ignoreCase := false |}.
Definition re_padding : regexp :=    (* /=+$/ *)
  {| source := Seq (Plus (Lit (ch "="%char))) EndOfInput;
     global := false; ignoreCase := false |}.
Definition re_minus : regexp :=      (* /-/g *)
  {| source := Lit (ch "-"%char); global := true; ignoreCase := false |}.
Definition re_underscore : regexp := (* /_/g *)
  {| source := Lit (ch "_"%char); global := true; ignoreCase := false |}.

(** [arrayBufferToBase64(bytes)] *)
Definition arrayBufferToBase64 (bytes : list byte) : option jsstring :=
  let binary := fold_left (fun binary b => binary ++ [Uint8.to_N b]) bytes [] in
  Base64.btoa binary.

(** [base64ToArrayBuffer(base64)] *)
Definition base64ToArrayBuffer (base64 : jsstring) : option (list byte) :=
  binary <- Base64.atob base64 ;;
  Some (map Uint8.of_N binary).

(** [compress(text)] *)
Definition compress `{CompressionStreams} (text : jsstring) : completion jsstring :=
  if falsy (VString text) then Return []
  else
    try_catch
      (let data := Encoding.TextEncoder_encode text in
       compressedBytes <- gzip data ;;
       base64 <- arrayBufferToBase64 compressedBytes ;;
       Some (replace (replace (replace base64 re_plus (js "-")) re_slash (js "_"))
                     re_padding (js "")))
      (js "Failed to compress content").

(** [while (standardBase64.length % 4) standardBase64 += '='].  The loop
    body runs at most three times. *)
Fixpoint add_padding (fuel : nat) (standardBase64 : jsstring) : jsstring :=
  match fuel with
  | O => standardBase64
  | S fuel' =>
      if N.of_nat (List.length standardBase64) mod 4 =? 0 then standardBase64
      else add_padding fuel' (standardBase64 ++ js "=")
  end.

(** Lines 50 to 58 of [decompress]: from the token to the compressed bytes. *)
Definition token_bytes (base64 : jsstring) : option (list byte) :=
  let standardBase64 :=
    replace (replace base64 re_minus (js "+")) re_underscore (js "/") in
  let standardBase64 := add_padding 3 standardBase64 in
  base64ToArrayBuffer standardBase64.

(** [decompress(base64)] *)
Definition decompress `{CompressionStreams} (base64 : jsstring) : completion jsstring :=
  if falsy (VString base64) then Return []
  else
    try_catch
      (compressedBytes <- token_bytes base64 ;;
       decompressed <- gunzip compressedBytes ;;
       Some (Encoding.utf8_decode decompressed))
      (js "Failed to decompress content").

End Compression.

(* ================================================================== *)
(** * The document object model *)

Module DOM.

#[local] Set Warnings "-register-all".

Inductive namespace := HTML | SVG | MathML.

Inductive node :=
| Text (data : jsstring)
| Element (ns : namespace) (localName : jsstring)
          (attributes : list (jsstring * jsstring)) (childNodes : list node)
| Comment (data : jsstring).

Inductive node_type := ELEMENT_NODE | TEXT_NODE | COMMENT_NODE.

Definition nodeType (n : node) : node_type :=
  match n with
  | Text _ => TEXT_NODE
  | Element _ _ _ _ => ELEMENT_NODE
  | Comment _ => COMMENT_NODE
  end.

Definition childNodes_of (n : node) : list node :=
  match n with
  | Element _ _ _ children => children
  | _ => []
  end.

(** [element.tagName]: the qualified name, in ASCII upper case for an HTML
    element of an HTML document. *)
Definition tagName (ns : namespace) (localName : jsstring) : jsstring :=
  match ns with
  | HTML => ascii_uppercase localName
  | _ => localName
  end.

Definition is_ascii_alpha (c : N) : bool := is_upper c || is_lower c.

(** A valid element local name (DOM standard). *)
Definition valid_element_local_name (name : jsstring) : bool :=
  match name with
  | [] => false
  | c :: rest =>
      if is_ascii_alpha c then
        forallb (fun a => negb (Base64.ascii_whitespace a || (a =? 0) || (a =? 47) || (a =? 62)))
                name
      else
        ((c =? 58) || (c =? 95) || (0x80 <=? c))
        && forallb (fun a => is_ascii_alpha a || is_digit a || (a =? 45) || (a =? 46)
                             || (a =? 58) || (a =? 95) || (0x80 <=? a)) rest
  end.

Definition ascii_lower_unit (c : N) : N := if is_upper c then c + 32 else c.
Definition ascii_lowercase (s : jsstring) : jsstring := map ascii_lower_unit s.

(** [document.createElement(localName)] in an HTML document; [None] is the
    InvalidCharacterError. *)
Definition createElement (localName : jsstring) : option node :=
  if valid_element_local_name localName
  then Some (Element HTML (ascii_lowercase localName) [] [])
  else None.

(** [document.createTextNode(data)] *)
Definition createTextNode (data : jsstring) : node := Text data.

(** [parent.appendChild(child)] for a parent that is an element. *)
Definition appendChild (parent child : node) : node :=
  match parent with
  | Element ns name attrs children => Element ns name attrs (children ++ [child])
  | _ => parent
  end.

(** [parent.appendChild(fragment)]: the children of a document fragment are
    moved into the parent. *)
Definition appendFragment (parent : node) (fragment : list node) : node :=
  match parent with
  | Element ns name attrs children => Element ns name attrs (children ++ fragment)
  | _ => parent
  end.

Fixpoint lookup_attr (name : jsstring) (attrs : list (jsstring * jsstring))
  : option jsstring :=
  match attrs with
  | [] => None
  | (k, v) :: rest => if JS.eqb k name then Some v else lookup_attr name rest
  end.

(** [element.getAttribute(name)] on an HTML element. *)
Definition getAttribute (n : node) (name : jsstring) : option jsstring :=
  match n with
  | Element _ _ attrs _ => lookup_attr (ascii_lowercase name) attrs
  | _ => None
  end.

(** [element.hasAttribute(name)] *)
Definition hasAttribute (n : node) (name : jsstring) : bool :=
  match getAttribute n name with Some _ => true | None => false end.

Definition valid_attribute_local_name (name : jsstring) : bool :=
  match name with
  | [] => false
  | _ => forallb (fun a => negb (Base64.ascii_whitespace a || (a =? 0) || (a =? 47)
                                 || (a =? 61) || (a =? 62))) name
  end.

Fixpoint set_attr (name value : jsstring) (attrs : list (jsstring * jsstring))
  : list (jsstring * jsstring) :=
  match attrs with
  | [] => [(name, value)]
  | (k, v) :: rest =>
      if JS.eqb k name then (k, value) :: rest else (k, v) :: set_attr name value rest
  end.

(** [element.setAttribute(name, value)] *)
Definition setAttribute (n : node) (name value : jsstring) : option node :=
  if valid_attribute_local_name name then
    match n with
    | Element ns l attrs children =>
        Some (Element ns l (set_attr (ascii_lowercase name) value attrs) children)
    | _ => Some n
    end
  else None.

(** ** Serialization ([innerHTML]) *)

Definition void_elements : list jsstring :=
  map js ["area"; "base"; "basefont"; "bgsound"; "br"; "col"; "embed"; "frame";
          "hr"; "img"; "input"; "keygen"; "link"; "meta"; "param"; "source";
          "track"; "wbr"]%string.

Definition raw_text_parents : list jsstring :=
  map js ["style"; "script"; "xmp"; "iframe"; "noembed"; "noframes";
          "plaintext"; "noscript"]%string.

Definition member (s : jsstring) (l : list jsstring) : bool := existsb (JS.eqb s) l.

Definition escape_unit (attribute_mode : bool) (c : N) : jsstring :=
  if c =? 38 then js "&amp;"
  else if c =? 160 then js "&nbsp;"
  else if c =? 60 then js "&lt;"
  else if c =? 62 then js "&gt;"
  else if attribute_mode && (c =? 34) then js "&quot;"
  else [c].

(** Escaping a string. *)
Definition escape (attribute_mode : bool) (s : jsstring) : jsstring :=
  flat_map (escape_unit attribute_mode) s.

Definition serialize_attribute (a : jsstring * jsstring) : jsstring :=
  js " " ++ fst a ++ js "=" ++ [34] ++ escape true (snd a) ++ [34].

(** The HTML fragment serialization of one child; [raw] tells whether the
    parent is an element whose text is written without escaping. *)
Fixpoint serialize (raw : bool) (n : node) : jsstring :=
  match n with
  | Text data => if raw then data else escape false data
  | Comment data => js "<!--" ++ data ++ js "-->"
  | Element ns name attrs children =>
      let is_html := match ns with HTML => true | _ => false end in
      js "<" ++ name ++ flat_map serialize_attribute attrs ++ js ">"
      ++ (if is_html && member name void_elements then []
          else flat_map (serialize (is_html && member name raw_text_parents)) children
               ++ js "</" ++ name ++ js ">")
  end.

(** [element.innerHTML] *)
Definition innerHTML (n : node) : jsstring :=
  match n with
  | Element ns name _ children =>
      let is_html := match ns with HTML => true | _ => false end in
      flat_map (serialize (is_html && member name raw_text_parents)) children
  | _ => []
  end.

End DOM.

(** * The parsed document, as a script reads it

    [sanitize] knows the document the parser returns only by the properties
    it reads of its objects, and a read is answered by the platform.  On
    most objects [nodeType], [tagName] and [childNodes] are the built-in
    properties of the node.  A [form] element and the document itself put
    the names of certain elements before their built-in properties
    ([LegacyOverrideBuiltIns]): in a form with a control whose [name] or
    [id] is [tagName], the read [form.tagName] gives that control, not a
    string, and likewise for [nodeType] and [childNodes]; in a document with
    an image or form named [body], so does [doc.body].  The objects are
    therefore kept abstract, with one operation for each read the sanitizer
    makes. *)

(** The value of a property read: a value of the type the built-in property
    has, or something else (the control, or list of controls, that stands
    before the property; [undefined] where there is no such property). *)
Inductive property (A : Type) :=
| Plain (a : A)
| Exotic.
Arguments Plain {A} a.
Arguments Exotic {A}.

Class DOMParser := {
  (** the objects of the documents the parser returns *)
  object : Type;
  (** [new DOMParser().parseFromString(markup, 'text/html').body]: what the
      read of [body] gives for the document the HTML parser builds.
      Parsing never throws. *)
  parse_body : jsstring -> object;
  (** [Array.from(o.childNodes)]: for an ordinary node its children; where
      [childNodes] is not the built-in property, what [Array.from] makes of
      the value; [None] when [Array.from] throws *)
  get_childNodes : object -> option (list object);
  (** [o.nodeType] *)
  get_nodeType : object -> property N;
  (** [o.textContent] of a text node *)
  get_textContent : object -> jsstring;
  (** [o.tagName] *)
  get_tagName : object -> property jsstring;
  (** [o.getAttribute(name)], [None] where [o.hasAttribute(name)] is false *)
  get_attribute : object -> jsstring -> option jsstring;
  (** the number of nested calls of [cleanNode] the engine has room for
      when [sanitize] is called *)
  call_depth : nat
}.

(* ================================================================== *)
(** * [src/js/utils/sanitizer.js] *)

Module Sanitizer.
Import RegExp DOM.

(** A statement that may throw, followed by the rest of the function. *)
#[local] Notation "x <- e ;; k" :=
  (match e with Return x => k | Throw error => Throw error end)
  (at level 61, e at next level, right associativity, only parsing).

(** A platform call that throws the named exception where it has no
    result. *)
Definition or_throw {A} (name : jsstring) (result : option A) : completion A :=
  match result with
  | Some a => Return a
  | None => Throw name
  end.

Definition ALLOWED_TAGS : list jsstring :=
  map js ["p"; "br"; "div"; "span"; "b"; "strong"; "i"; "em"; "u"; "h1"; "h2";
          "h3"; "ul"; "ol"; "li"; "blockquote"]%string.

(** [ALLOWED_TAGS.has(tagName)] *)
Definition ALLOWED_TAGS_has (tagName : jsstring) : bool := member tagName ALLOWED_TAGS.

(** The own properties of [ALLOWED_ATTRIBUTES]: there are none. *)
Definition ALLOWED_ATTRIBUTES : list (jsstring * list jsstring) := [].

(** [ALLOWED_ATTRIBUTES[tagName] || []].  The lookup is only made for a
    member of [ALLOWED_TAGS], none of which names a property inherited from
    [Object.prototype]. *)
Definition allowed_attributes (tagName : jsstring) : list jsstring :=
  match find (fun kv => JS.eqb (fst kv) tagName) ALLOWED_ATTRIBUTES with
  | Some kv => snd kv
  | None => []
  end.

Fixpoint seqs (rs : list pattern) : pattern :=
  match rs with
  | [] => Empty
  | [r] => r
  | r :: rs' => Seq r (seqs rs')
  end.

Definition lt_sign : N := ch "<"%char.

Definition DANGEROUS_PATTERNS : list regexp :=
  [ (* the script block pattern, flags gi; its parts, in order:
       <script  \b  [^<]*  (?: (?!<\/script>) < [^<]* )*  <\/script> *)
    {| source :=
         seqs [Str (js "<script"); WordBoundary; Star (Class (other_than lt_sign));
               Star (seqs [NegLookahead (Str (js "</script>")); Lit lt_sign;
                           Star (Class (other_than lt_sign))]);
               Str (js "</script>")];
       global := true; ignoreCase := true |};
    (* /javascript:/gi *)
    {| source := Str (js "javascript:"); global := true; ignoreCase := true |};
    (* /on\w+\s*=/gi *)
    {| source := seqs [Str (js "on"); Plus (Class word_char); Star (Class white_space);
                       Lit (ch "="%char)];
       global := true; ignoreCase := true |};
    (* /data:/gi *)
    {| source := Str (js "data:"); global := true; ignoreCase := true |};
    (* /vbscript:/gi *)
    {| source := Str (js "vbscript:"); global := true; ignoreCase := true |} ].

(** [String.prototype.trim] *)
Fixpoint trim_start (s : jsstring) : jsstring :=
  match s with
  | c :: s' => if white_space c then trim_start s' else s
  | [] => []
  end.
Definition trim (s : jsstring) : jsstring := rev (trim_start (rev (trim_start s))).

(** [String.prototype.startsWith] *)
Fixpoint startsWith (s prefix : jsstring) {struct prefix} : bool :=
  match prefix, s with
  | [], _ => true
  | p :: prefix', c :: s' => (c =? p) && startsWith s' prefix'
  | _ :: _, [] => false
  end.

(** [isAttributeValueSafe(attr, value)] *)
Definition isAttributeValueSafe (attr value : jsstring) : bool :=
  if falsy (VString value) then true
  else
    let lowerValue := trim (toLowerCase value) in
    let dangerousSchemes := map js ["javascript:"; "data:"; "vbscript:"]%string in
    negb (existsb (startsWith lowerValue) dangerousSchemes).

(** [Node.TEXT_NODE] and [Node.ELEMENT_NODE] *)
Definition TEXT_NODE : N := 3.
Definition ELEMENT_NODE : N := 1.

(** [value === k] for the value of a property read: only a number is
    strictly equal to a number. *)
Definition strictly_equal (value : property N) (k : N) : bool :=
  match value with
  | Plain v => v =? k
  | Exotic => false
  end.

(** [value.toLowerCase()] for the value of a property read: a value that
    is not a string has no such method, and the call throws. *)
Definition toLowerCase_of (value : property jsstring) : completion jsstring :=
  match value with
  | Plain s => Return (toLowerCase s)
  | Exotic => Throw (js "TypeError")
  end.

(** The loop that copies the allowed attributes of [child] to
    [cleanElement]. *)
Fixpoint copy_attributes `{DOMParser} (child : object) (cleanElement : node)
    (allowedAttrs : list jsstring) : completion node :=
  match allowedAttrs with
  | [] => Return cleanElement
  | attr :: rest =>
      match get_attribute child attr with
      | Some value =>
          if isAttributeValueSafe attr value then
            cleanElement' <- or_throw (js "InvalidCharacterError")
                               (setAttribute cleanElement attr value) ;;
            copy_attributes child cleanElement' rest
          else copy_attributes child cleanElement rest
      | None => copy_attributes child cleanElement rest
      end
  end.

(** [cleanNode(node)]: the clean copies of the children of [node] are
    collected in a document fragment, and the fragment is returned inside a
    new [div] container.  The callers, this function included, append the
    returned container itself.  [depth] is the number of nested calls there
    is room for: the function calls itself for every element child, and
    where the children read are not the node's own it may do so without
    end, until the engine throws a [RangeError].  An exception has the name
    of its class for message. *)
Fixpoint cleanNode `{DOMParser} (depth : nat) (node : object) : completion DOM.node :=
  match depth with
  | O => Throw (js "RangeError")
  | S depth' =>
      children <- or_throw (js "TypeError") (get_childNodes node) ;;
      fragment <-
        (fix loop (children : list object) : completion (list DOM.node) :=
           match children with
           | [] => Return []
           | child :: rest =>
               if strictly_equal (get_nodeType child) TEXT_NODE then
                 fragment <- loop rest ;;
                 Return (createTextNode (get_textContent child) :: fragment)
               else if strictly_equal (get_nodeType child) ELEMENT_NODE then
                 tagName <- toLowerCase_of (get_tagName child) ;;
                 if ALLOWED_TAGS_has tagName then
                   cleanElement <- or_throw (js "InvalidCharacterError")
                                     (createElement tagName) ;;
                   cleanElement <- copy_attributes child cleanElement
                                     (allowed_attributes tagName) ;;
                   cleanChildren <- cleanNode depth' child ;;
                   fragment <- loop rest ;;
                   Return (appendChild cleanElement cleanChildren :: fragment)
                 else
                   cleanChildren <- cleanNode depth' child ;;
                   fragment <- loop rest ;;
                   Return (cleanChildren :: fragment)
               else loop rest
           end) children ;;
      container <- or_throw (js "InvalidCharacterError") (createElement (js "div")) ;;
      Return (appendFragment container fragment)
  end.

(** [sanitize(html)] *)
Definition sanitize `{DOMParser} (html : value) : completion jsstring :=
  if falsy html || negb (is_string html) then Return []
  else
    match html with
    | VString html =>
        let cleaned :=
          fold_left (fun cleaned pattern => replace cleaned pattern (js ""))
                    DANGEROUS_PATTERNS html in
        let body := parse_body cleaned in
        cleanedBody <- cleanNode call_depth body ;;
        Return (innerHTML cleanedBody)
    | _ => Return []
    end.

End Sanitizer.

(* ================================================================== *)
(** * A reference markup parser

    An executable instance of [DOMParser], used to run [sanitize] on concrete
    markup.  It follows the tokenizer of the HTML standard for text, tags,
    attributes, comments and the document type declaration, and the tree
    construction rules "in body" for ordinary, void and paragraph-closing
    elements together with the implied [tbody] and [tr] of a table.  It is
    meant for markup made of text, comments and properly nested elements of
    the body: of the character references it decodes in text those that the
    serializer writes ([&amp;], [&lt;], [&gt;], [&nbsp;], [&quot;]) and no
    other; it has no raw-text or head content, keeps leading white space and
    the characters U+0000 and U+000D, does not let list items close one
    another, and does not run the foster parenting and adoption agency
    algorithms.  Every statement for all inputs below is made for an
    arbitrary [DOMParser], not for this one. *)

Module HTMLParser.
Import DOM.

Inductive token :=
| Character (c : N)
| StartTag (name : jsstring) (attrs : list (jsstring * jsstring))
| EndTag (name : jsstring)
| CommentToken (data : jsstring)
| DoctypeToken.

(** A tag token under construction; name and attribute strings are kept
    reversed, the current attribute first. *)
Record tag := {
  is_end : bool;
  name_rev : list N;
  attrs_rev : list (list N * list N)
}.

Inductive tstate :=
| Data
| TagOpen
| EndTagOpen
| TagName (t : tag)
| BeforeAttributeName (t : tag)
| AttributeName (t : tag)
| AfterAttributeName (t : tag)
| BeforeAttributeValue (t : tag)
| AttributeValueDouble (t : tag)
| AttributeValueSingle (t : tag)
| AttributeValueUnquoted (t : tag)
| AfterAttributeValueQuoted (t : tag)
| SelfClosingStartTag (t : tag)
| BogusComment (data_rev : list N)
| MarkupDeclarationOpen
| CommentStart
| CommentStartDash
| InComment (data_rev : list N)
| CommentEndDash (data_rev : list N)
| CommentEnd (data_rev : list N)
| CommentEndBang (data_rev : list N)
| Doctype
| Skip (n : nat) (next : tstate).

Definition ws (c : N) : bool := Base64.ascii_whitespace c.

Definition name_unit (c : N) : N :=
  if is_upper c then c + 32 else if c =? 0 then 0xFFFD else c.
Definition value_unit (c : N) : N := if c =? 0 then 0xFFFD else c.

(** Attributes in source order, a repeated name keeping its first value. *)
Fixpoint dedupe (seen : list jsstring) (attrs : list (jsstring * jsstring))
  : list (jsstring * jsstring) :=
  match attrs with
  | [] => []
  | (k, v) :: rest =>
      if member k seen then dedupe seen rest else (k, v) :: dedupe (k :: seen) rest
  end.

Definition emit_tag (t : tag) : list token :=
  if is_end t then [EndTag (rev (name_rev t))]
  else [StartTag (rev (name_rev t))
          (dedupe [] (map (fun kv => (rev (fst kv), rev (snd kv))) (rev (attrs_rev t))))].

Definition new_attribute (t : tag) (name : list N) : tag :=
  {| is_end := is_end t; name_rev := name_rev t; attrs_rev := (name, []) :: attrs_rev t |}.

Definition push_name (t : tag) (c : N) : tag :=
  {| is_end := is_end t; name_rev := name_rev t;
     attrs_rev := match attrs_rev t with
                  | (k, v) :: rest => (c :: k, v) :: rest
                  | [] => []
                  end |}.

Definition push_value (t : tag) (c : N) : tag :=
  {| is_end := is_end t; name_rev := name_rev t;
     attrs_rev := match attrs_rev t with
                  | (k, v) :: rest => (k, c :: v) :: rest
                  | [] => []
                  end |}.

Definition push_tag_name (t : tag) (c : N) : tag :=
  {| is_end := is_end t; name_rev := c :: name_rev t; attrs_rev := attrs_rev t |}.

Definition step_result := (tstate * list token)%type.

(** The character references that the serializer writes for text and
    attribute values, with the character each stands for. *)
Definition character_references : list (jsstring * N) :=
  [(js "amp;", 38); (js "lt;", 60); (js "gt;", 62); (js "nbsp;", 160);
   (js "quot;", 34)].

Fixpoint starts_with (s p : list N) {struct p} : bool :=
  match p, s with
  | [], _ => true
  | a :: p', c :: s' => (c =? a) && starts_with s' p'
  | _ :: _, [] => false
  end.

(** The character reference that the input after an ampersand starts
    with. *)
Definition character_reference (rest : list N) : option (jsstring * N) :=
  find (fun reference => starts_with rest (fst reference)) character_references.

Definition data_step (c : N) (rest : list N) : step_result :=
  if c =? 60 then (TagOpen, [])
  else if c =? 38 then
    match character_reference rest with
    | Some (name, character) => (Skip (List.length name) Data, [Character character])
    | None => (Data, [Character c])
    end
  else (Data, [Character c]).

Definition after_attribute_name_step (t : tag) (c : N) : step_result :=
  if ws c then (AfterAttributeName t, [])
  else if c =? 47 then (SelfClosingStartTag t, [])
  else if c =? 61 then (BeforeAttributeValue t, [])
  else if c =? 62 then (Data, emit_tag t)
  else (AttributeName (new_attribute t [name_unit c]), []).

Definition attribute_name_step (t : tag) (c : N) : step_result :=
  if ws c || (c =? 47) || (c =? 62) then after_attribute_name_step t c
  else if c =? 61 then (BeforeAttributeValue t, [])
  else (AttributeName (push_name t (name_unit c)), []).

Definition before_attribute_name_step (t : tag) (c : N) : step_result :=
  if ws c then (BeforeAttributeName t, [])
  else if (c =? 47) || (c =? 62) then after_attribute_name_step t c
  else if c =? 61 then (AttributeName (new_attribute t [c]), [])
  else (AttributeName (new_attribute t [name_unit c]), []).

Definition comment_step (d : list N) (c : N) : step_result :=
  if c =? 45 then (CommentEndDash d, []) else (InComment (value_unit c :: d), []).

Definition bogus_comment_step (d : list N) (c : N) : step_result :=
  if c =? 62 then (Data, [CommentToken (rev d)])
  else (BogusComment (value_unit c :: d), []).

(** Case-insensitive test that [s] starts with the lower-case literal [p]. *)
Fixpoint starts_with_ci (s p : list N) : bool :=
  match p, s with
  | [], _ => true
  | a :: p', c :: s' => (DOM.ascii_lower_unit c =? a) && starts_with_ci s' p'
  | _ :: _, [] => false
  end.

(** One step of the tokenizer on the character [c], with the input after it
    available for the look-ahead of a markup declaration. *)
Fixpoint step (st : tstate) (c : N) (rest : list N) : step_result :=
  match st with
  | Data => data_step c rest
  | TagOpen =>
      if c =? 33 then (MarkupDeclarationOpen, [])
      else if c =? 47 then (EndTagOpen, [])
      else if DOM.is_ascii_alpha c then
        (TagName {| is_end := false; name_rev := [name_unit c]; attrs_rev := [] |}, [])
      else if c =? 63 then bogus_comment_step [] c
      else let '(st', out) := data_step c rest in (st', Character 60 :: out)
  | EndTagOpen =>
      if DOM.is_ascii_alpha c then
        (TagName {| is_end := true; name_rev := [name_unit c]; attrs_rev := [] |}, [])
      else if c =? 62 then (Data, [])
      else bogus_comment_step [] c
  | TagName t =>
      if ws c then (BeforeAttributeName t, [])
      else if c =? 47 then (SelfClosingStartTag t, [])
      else if c =? 62 then (Data, emit_tag t)
      else (TagName (push_tag_name t (name_unit c)), [])
  | BeforeAttributeName t => before_attribute_name_step t c
  | AttributeName t => attribute_name_step t c
  | AfterAttributeName t => after_attribute_name_step t c
  | BeforeAttributeValue t =>
      if ws c then (BeforeAttributeValue t, [])
      else if c =? 34 then (AttributeValueDouble t, [])
      else if c =? 39 then (AttributeValueSingle t, [])
      else if c =? 62 then (Data, emit_tag t)
      else (AttributeValueUnquoted (push_value t (value_unit c)), [])
  | AttributeValueDouble t =>
      if c =? 34 then (AfterAttributeValueQuoted t, [])
      else (AttributeValueDouble (push_value t (value_unit c)), [])
  | AttributeValueSingle t =>
      if c =? 39 then (AfterAttributeValueQuoted t, [])
      else (AttributeValueSingle (push_value t (value_unit c)), [])
  | AttributeValueUnquoted t =>
      if ws c then (BeforeAttributeName t, [])
      else if c =? 62 then (Data, emit_tag t)
      else (AttributeValueUnquoted (push_value t (value_unit c)), [])
  | AfterAttributeValueQuoted t =>
      if ws c then (BeforeAttributeName t, [])
      else if c =? 47 then (SelfClosingStartTag t, [])
      else if c =? 62 then (Data, emit_tag t)
      else before_attribute_name_step t c
  | SelfClosingStartTag t =>
      if c =? 62 then (Data, emit_tag t) else before_attribute_name_step t c
  | BogusComment d => bogus_comment_step d c
  | MarkupDeclarationOpen =>
      if starts_with_ci (c :: rest) [45; 45] then (Skip 1 CommentStart, [])
      else if starts_with_ci (c :: rest) (js "doctype") then (Skip 6 Doctype, [])
      else bogus_comment_step [] c
  | CommentStart =>
      if c =? 45 then (CommentStartDash, [])
      else if c =? 62 then (Data, [CommentToken []])
      else comment_step [] c
  | CommentStartDash =>
      if c =? 45 then (CommentEnd [], [])
      else if c =? 62 then (Data, [CommentToken []])
      else comment_step [45] c
  | InComment d => comment_step d c
  | CommentEndDash d =>
      if c =? 45 then (CommentEnd d, []) else comment_step (45 :: d) c
  | CommentEnd d =>
      if c =? 62 then (Data, [CommentToken (rev d)])
      else if c =? 33 then (CommentEndBang d, [])
      else if c =? 45 then (CommentEnd (45 :: d), [])
      else comment_step (45 :: 45 :: d) c
  | CommentEndBang d =>
      if c =? 45 then (CommentEndDash (33 :: 45 :: 45 :: d), [])
      else if c =? 62 then (Data, [CommentToken (rev d)])
      else comment_step (33 :: 45 :: 45 :: d) c
  | Doctype => if c =? 62 then (Data, [DoctypeToken]) else (Doctype, [])
  | Skip n next =>
      match n with
      | O => step next c rest
      | S k => (Skip k next, [])
      end
  end.

(** What the tokenizer emits when the input ends in state [st]. *)
Fixpoint at_end (st : tstate) : list token :=
  match st with
  | Data => []
  | TagOpen => [Character 60]
  | EndTagOpen => [Character 60; Character 47]
  | BogusComment d | InComment d | CommentEndDash d | CommentEnd d
  | CommentEndBang d => [CommentToken (rev d)]
  | CommentStart | CommentStartDash => [CommentToken []]
  | MarkupDeclarationOpen => [CommentToken []]
  | Doctype => [DoctypeToken]
  | Skip _ next => at_end next
  | _ => []
  end.

Fixpoint tokenize (st : tstate) (s : list N) : list token :=
  match s with
  | [] => at_end st
  | c :: rest => let '(st', out) := step st c rest in out ++ tokenize st' rest
  end.

(** ** Tree construction *)

(** An open element with the children inserted so far, last first. *)
Record frame := {
  f_name : jsstring;
  f_attrs : list (jsstring * jsstring);
  f_children : list node
}.

Definition close_frame (f : frame) : node :=
  Element HTML (f_name f) (f_attrs f) (rev (f_children f)).

Definition insert (n : node) (stack : list frame) : list frame :=
  match stack with
  | f :: below =>
      {| f_name := f_name f; f_attrs := f_attrs f; f_children := n :: f_children f |}
      :: below
  | [] => []
  end.

(** Insert a character: it extends the text node that ends the current
    node, if there is one. *)
Definition insert_character (c : N) (stack : list frame) : list frame :=
  match stack with
  | f :: below =>
      let children :=
        match f_children f with
        | Text d :: older => Text (d ++ [c]) :: older
        | older => Text [c] :: older
        end in
      {| f_name := f_name f; f_attrs := f_attrs f; f_children := children |} :: below
  | [] => []
  end.

(** Pop the current node into its parent. *)
Definition pop (stack : list frame) : list frame :=
  match stack with
  | f :: below => match below with [] => stack | _ => insert (close_frame f) below end
  | [] => []
  end.

Definition scope_boundaries : list jsstring :=
  map js ["applet"; "caption"; "html"; "body"; "table"; "td"; "th"; "marquee";
          "object"; "template"]%string.

(** Is an element named [name] open, with no scope boundary above it? *)
Fixpoint in_scope (extra : list jsstring) (name : jsstring) (stack : list frame) : bool :=
  match stack with
  | [] => false
  | f :: below =>
      if JS.eqb (f_name f) name then true
      else if member (f_name f) scope_boundaries || member (f_name f) extra then false
      else in_scope extra name below
  end.

(** Pop elements until one named [name] has been popped; the body is never
    popped.  At most every open element is popped. *)
Fixpoint pop_until_go (fuel : nat) (name : jsstring) (stack : list frame) : list frame :=
  match fuel with
  | O => stack
  | S fuel' =>
      match stack with
      | f :: _ :: _ =>
          if JS.eqb (f_name f) name then pop stack
          else pop_until_go fuel' name (pop stack)
      | _ => stack
      end
  end.

Definition pop_until (name : jsstring) (stack : list frame) : list frame :=
  pop_until_go (List.length stack) name stack.

Definition push (name : jsstring) (attrs : list (jsstring * jsstring))
    (stack : list frame) : list frame :=
  {| f_name := name; f_attrs := attrs; f_children := [] |} :: stack.

Definition closes_p : list jsstring :=
  map js ["address"; "article"; "aside"; "blockquote"; "center"; "details";
          "dialog"; "dir"; "div"; "dl"; "fieldset"; "figcaption"; "figure";
          "footer"; "header"; "hgroup"; "main"; "menu"; "nav"; "ol"; "p";
          "search"; "section"; "summary"; "ul"; "h1"; "h2"; "h3"; "h4"; "h5";
          "h6"; "pre"; "listing"; "form"; "hr"]%string.

Definition ignored_tags : list jsstring := map js ["html"; "head"; "body"]%string.

Definition close_p (stack : list frame) : list frame :=
  if in_scope [js "button"] (js "p") stack then pop_until (js "p") stack else stack.

Definition current_name (stack : list frame) : jsstring :=
  match stack with f :: _ => f_name f | [] => [] end.

(** The table sections and rows a cell or row start tag implies. *)
Definition imply_table_parents (name : jsstring) (stack : list frame) : list frame :=
  let cur := current_name stack in
  let is_cell := member name (map js ["td"; "th"]%string) in
  let stack :=
    if JS.eqb cur (js "table") && (is_cell || JS.eqb name (js "tr"))
    then push (js "tbody") [] stack else stack in
  if is_cell && member (current_name stack) (map js ["tbody"; "thead"; "tfoot"]%string)
  then push (js "tr") [] stack else stack.

Definition tree_step (stack : list frame) (t : token) : list frame :=
  match t with
  | Character c => insert_character c stack
  | CommentToken d => insert (Comment d) stack
  | DoctypeToken => stack
  | StartTag name attrs =>
      if member name ignored_tags then stack
      else
        let stack := if member name closes_p then close_p stack else stack in
        let stack := imply_table_parents name stack in
        if member name void_elements then insert (Element HTML name attrs []) stack
        else push name attrs stack
  | EndTag name =>
      if member name ignored_tags then stack
      else if JS.eqb name (js "br") then insert (Element HTML name [] []) stack
      else if JS.eqb name (js "p") then
        if in_scope [js "button"] name stack then pop_until name stack
        else insert (Element HTML name [] []) stack
      else if in_scope [] name stack then pop_until name stack
      else stack
  end.

(** Close every element still open; the last frame is the body. *)
Fixpoint finish (fuel : nat) (stack : list frame) : node :=
  match stack with
  | [] => Element HTML (js "body") [] []
  | [f] => close_frame f
  | f :: _ =>
      match fuel with
      | O => close_frame f
      | S fuel' => finish fuel' (pop stack)
      end
  end.

Definition parse (markup : jsstring) : node :=
  let stack :=
    fold_left tree_step (tokenize Data markup)
              [{| f_name := js "body"; f_attrs := []; f_children := [] |}] in
  finish (List.length stack) stack.

End HTMLParser.

(* ================================================================== *)
(** * The named properties of a form

    What the reads of [nodeType], [tagName] and [childNodes] give on the
    trees of the reference parser.  A form element puts its supported
    property names before its built-in properties: the [id] and [name] of
    the listed elements it owns (image buttons apart), or else of the images
    it owns.  A read finds one control, or the list of all the controls of
    that name.  A control is taken to be owned by the nearest form it is
    inside of; the [form] attribute and the form the parser was in when it
    created a control outside of it are not looked at, and neither are the
    names that stand before [body] in the document. *)

Module NamedProperties.
Import DOM.

Definition listed_elements : list jsstring :=
  map js ["button"; "fieldset"; "input"; "object"; "output"; "select";
          "textarea"]%string.

Definition is_html_element (name : jsstring) (n : node) : bool :=
  match n with
  | Element HTML localName _ _ => JS.eqb localName name
  | _ => false
  end.

(** An [input] element whose [type] attribute is in the Image Button
    state. *)
Definition is_image_button (n : node) : bool :=
  is_html_element (js "input") n
  && match getAttribute n (js "type") with
     | Some t => JS.eqb (ascii_lowercase t) (js "image")
     | None => false
     end.

Definition is_listed (n : node) : bool :=
  existsb (fun name => is_html_element name n) listed_elements
  && negb (is_image_button n).

(** The element has the [id] or the [name] asked for. *)
Definition named_by (p : jsstring) (n : node) : bool :=
  match getAttribute n (js "id") with
  | Some v => JS.eqb v p
  | None => false
  end
  || match getAttribute n (js "name") with
     | Some v => JS.eqb v p
     | None => false
     end.

(** The elements inside [n] that are in no form inside [n], in tree
    order. *)
Fixpoint owned (n : node) : list node :=
  match n with
  | Element _ _ _ children =>
      flat_map (fun c => if is_html_element (js "form") c then [] else c :: owned c)
               children
  | _ => []
  end.

(** The controls the read of property [p] finds on [n]; none when [p] is a
    built-in property of [n] as of any node. *)
Definition named_property (n : node) (p : jsstring) : list node :=
  if is_html_element (js "form") n then
    match filter (fun c => is_listed c && named_by p c) (owned n) with
    | [] => filter (fun c => is_html_element (js "img") c && named_by p c) (owned n)
    | controls => controls
    end
  else [].

(** The list of options of a [select] element. *)
Definition options (select : node) : list node :=
  flat_map (fun c => if is_html_element (js "option") c then [c]
                     else if is_html_element (js "optgroup") c
                          then filter (is_html_element (js "option")) (childNodes_of c)
                          else [])
           (childNodes_of select).

(** [Array.from(control)]: a [select] gives its options; no other control
    has a length or can be iterated. *)
Definition array_from (control : node) : list node :=
  if is_html_element (js "select") control then options control else [].

Definition nodeType_value (n : node) : N :=
  match n with
  | Element _ _ _ _ => 1
  | Text _ => 3
  | Comment _ => 8
  end.

Definition get_nodeType (n : node) : property N :=
  match named_property n (js "nodeType") with
  | [] => Plain (nodeType_value n)
  | _ => Exotic
  end.

Definition get_tagName (n : node) : property jsstring :=
  match named_property n (js "tagName"), n with
  | [], Element ns localName _ _ => Plain (tagName ns localName)
  | _, _ => Exotic
  end.

Definition get_childNodes (n : node) : option (list node) :=
  match named_property n (js "childNodes") with
  | [] => Some (childNodes_of n)
  | [control] => Some (array_from control)
  | controls => Some controls
  end.

Fixpoint text_of (n : node) : jsstring :=
  match n with
  | Text data => data
  | Comment _ => []
  | Element _ _ _ children => flat_map text_of children
  end.

Definition get_textContent (n : node) : jsstring :=
  match n with
  | Comment data => data
  | _ => text_of n
  end.

End NamedProperties.

#[local] Instance ReferenceParser : DOMParser :=
  {| object := DOM.node;
     parse_body := HTMLParser.parse;
     get_childNodes := NamedProperties.get_childNodes;
     get_nodeType := NamedProperties.get_nodeType;
     get_textContent := NamedProperties.get_textContent;
     get_tagName := NamedProperties.get_tagName;
     get_attribute := DOM.getAttribute;
     call_depth := 1000 |}.

(* ================================================================== *)
(** * A reference gzip stream

    An executable instance of [CompressionStreams]: a gzip member (RFC 1952)
    whose deflate stream consists of stored blocks only (RFC 1951, 3.2.4),
    followed by the CRC-32 and the length of the data.  The inflater reads
    such members back and rejects everything else.  Statements for all
    inputs are made for an arbitrary [CompressionStreams]. *)

Module Gzip.

Definition header : list N := [0x1f; 0x8b; 8; 0; 0; 0; 0; 0; 0; 0xff].

Fixpoint crc_shift (n : nat) (c : N) : N :=
  match n with
  | O => c
  | S k =>
      crc_shift k (if N.odd c then N.lxor (N.shiftr c 1) 0xEDB88320 else N.shiftr c 1)
  end.

Definition crc32 (data : list N) : N :=
  N.lxor (fold_left (fun crc b => crc_shift 8 (N.lxor crc b)) data 0xFFFFFFFF) 0xFFFFFFFF.

Definition le16 (n : N) : list N := [n mod 256; (n / 256) mod 256].
Definition le32 (n : N) : list N := le16 (n mod 65536) ++ le16 ((n / 65536) mod 65536).

Definition of_le16 (lo hi : N) : N := lo + 256 * hi.

(** The data as stored blocks of at most 65535 bytes, the last one marked
    final. *)
Fixpoint stored_blocks (fuel : nat) (data : list N) : list N :=
  match fuel with
  | O => []
  | S fuel' =>
      let len := N.of_nat (List.length data) in
      if len <=? 65535 then 1 :: le16 len ++ le16 (65535 - len) ++ data
      else
        0 :: le16 65535 ++ le16 0 ++ firstn (N.to_nat 65535) data
        ++ stored_blocks fuel' (skipn (N.to_nat 65535) data)
  end.

Definition deflate (data : list byte) : list byte :=
  let d := map Uint8.to_N data in
  map Uint8.of_N
      (header ++ stored_blocks (S (List.length d)) d ++ le32 (crc32 d)
       ++ le32 (N.of_nat (List.length d) mod 4294967296)).

(** Read stored blocks up to the final one; the result is the data and the
    bytes after the deflate stream. *)
Fixpoint read_blocks (fuel : nat) (s : list N) : option (list N * list N) :=
  match fuel with
  | O => None
  | S fuel' =>
      match s with
      | h :: l0 :: l1 :: n0 :: n1 :: rest =>
          let len := of_le16 l0 l1 in
          if negb (N.land h 6 =? 0) then None
          else if negb (of_le16 n0 n1 =? 65535 - len) then None
          else if N.of_nat (List.length rest) <? len then None
          else
            let data := firstn (N.to_nat len) rest in
            let after := skipn (N.to_nat len) rest in
            if N.odd h then Some (data, after)
            else
              match read_blocks fuel' after with
              | Some (more, after') => Some (data ++ more, after')
              | None => None
              end
      | _ => None
      end
  end.

Definition inflate (stream : list byte) : option (list byte) :=
  let s := map Uint8.to_N stream in
  if negb (JS.eqb (firstn 10 s) header) then None
  else
    match read_blocks (List.length s) (skipn 10 s) with
    | Some (data, trailer) =>
        if JS.eqb trailer
             (le32 (crc32 data) ++ le32 (N.of_nat (List.length data) mod 4294967296))
        then Some (map Uint8.of_N data) else None
    | None => None
    end.

End Gzip.

#[local] Instance ReferenceStreams : CompressionStreams :=
  {| gzip := fun data => Some (Gzip.deflate data); gunzip := Gzip.inflate |}.

(* ================================================================== *)
(** * The notions the statements are made of *)

Section Notions.
Import RegExp Base64 Encoding Compression DOM Sanitizer.

Definition eq_sign : N := ch "="%char.

Definition padding_source : pattern := Seq (Plus (Lit eq_sign)) EndOfInput.

Definition is_byte (c : N) : bool := c <=? 255.

(** The characters of [encode] before the padding, and the number of
    padding characters. *)
Fixpoint body (bs : list N) : jsstring :=
  match bs with
  | [] => []
  | [a] => [char_of (N.shiftr a 2); char_of (N.shiftl (N.land a 3) 4)]
  | [a; b] =>
      [char_of (N.shiftr a 2);
       char_of (N.lor (N.shiftl (N.land a 3) 4) (N.shiftr b 4));
       char_of (N.shiftl (N.land b 15) 2)]
  | a :: b :: c :: rest =>
      char_of (N.shiftr a 2)
      :: char_of (N.lor (N.shiftl (N.land a 3) 4) (N.shiftr b 4))
      :: char_of (N.lor (N.shiftl (N.land b 15) 2) (N.shiftr c 6))
      :: char_of (N.land c 63)
      :: body rest
  end.

Fixpoint padding (bs : list N) : nat :=
  match bs with
  | [] => 0
  | [_] => 2
  | [_; _] => 1
  | _ :: _ :: _ :: rest => padding rest
  end.

(** The characters of a share token. *)
Definition is_token_char (c : N) : bool :=
  is_upper c || is_lower c || is_digit c || (c =? 45) || (c =? 95).

(** The two transliterations, character by character. *)
Definition to_url (c : N) : N := if c =? 47 then 95 else if c =? 43 then 45 else c.
Definition from_url (c : N) : N := if c =? 95 then 47 else if c =? 45 then 43 else c.

(** The token of a compressed byte sequence: the characters of its Base64
    encoding before the padding, made URL-safe. *)
Definition token_of (compressedBytes : list byte) : jsstring :=
  map to_url (body (map Uint8.to_N compressedBytes)).

(** A Unicode scalar value. *)
Definition is_scalar (cp : N) : bool :=
  (cp <? 0x110000) && negb (in_range 0xD800 0xDFFF cp).

Definition starts_with_BOM (s : jsstring) : bool :=
  match s with
  | c :: _ => c =? 0xFEFF
  | [] => false
  end.

Section WithStreams.
Context {streams : CompressionStreams}.

(** [decompress(compress(text))], an error of [compress] being passed on. *)
Definition round_trip (text : jsstring) : completion jsstring :=
  match compress text with
  | Return token => decompress token
  | Throw message => Throw message
  end.

End WithStreams.

(** The three code units of "a", U+1F600 and "b": a letter, an emoji and a
    letter. *)
Definition sample_text : jsstring := [0x61; 0xD83D; 0xDE00; 0x62].

(** The container [document.createElement('div')] with children. *)
Definition container (children : list node) : node :=
  Element HTML (js "div") [] children.

(** The name under which the allow-list is consulted. *)
Definition lookup_name (ns : namespace) (localName : jsstring) : jsstring :=
  toLowerCase (tagName ns localName).

(** What [cleanNode] returns for a node whose descendants are the tree [n]
    and are read as such: [cleaned n] is the container, [fragment_of] the
    clean copies of a list of children. *)
Fixpoint cleaned (n : node) : node :=
  container
    match n with
    | Element _ _ _ children =>
        (fix fragment_of (children : list node) : list node :=
           match children with
           | [] => []
           | Text data :: rest => Text data :: fragment_of rest
           | (Element ns name _ _ as child) :: rest =>
               (if ALLOWED_TAGS_has (lookup_name ns name)
                then Element HTML (lookup_name ns name) [] [cleaned child]
                else cleaned child) :: fragment_of rest
           | Comment _ :: rest => fragment_of rest
           end) children
    | _ => []
    end.

Definition clean_child (child : node) : list node :=
  match child with
  | Text data => [Text data]
  | Element ns name _ _ =>
      [if ALLOWED_TAGS_has (lookup_name ns name)
       then Element HTML (lookup_name ns name) [] [cleaned child]
       else cleaned child]
  | Comment _ => []
  end.

(** The textual first pass of [sanitize]. *)
Definition prefilter (html : jsstring) : jsstring :=
  fold_left (fun cleaned pattern => replace cleaned pattern (js "")) DANGEROUS_PATTERNS html.

(** A tree of the safe vocabulary: text, and HTML elements whose name is in
    the allow-list and which carry no attribute. *)
Fixpoint in_vocabulary (n : node) : bool :=
  match n with
  | Text _ => true
  | Comment _ => false
  | Element ns name attrs children =>
      match ns with HTML => true | _ => false end
      && ALLOWED_TAGS_has name
      && match attrs with [] => true | _ => false end
      && forallb in_vocabulary children
  end.

(** [s] starts with [p], letters compared without regard to case. *)
Fixpoint prefix_ci (p s : jsstring) : bool :=
  match p, s with
  | [], _ => true
  | a :: p', c :: s' => (ascii_lower_unit c =? ascii_lower_unit a) && prefix_ci p' s'
  | _ :: _, [] => false
  end.

(** [p] occurs in [s] at some position, in any casing. *)
Fixpoint occurs_ci (p s : jsstring) : bool :=
  prefix_ci p s || match s with [] => false | _ :: s' => occurs_ci p s' end.

Definition script_open : jsstring := js "<script".

Definition not_lt (c : N) : bool := negb (c =? 60).

(** The data of the text nodes of a tree, in document order. *)
Fixpoint text_nodes (n : node) : list jsstring :=
  match n with
  | Text data => [data]
  | Comment _ => []
  | Element _ _ _ children => flat_map text_nodes children
  end.

(** The text nodes among the descendants of a node. *)
Definition descendant_text (n : node) : list jsstring :=
  flat_map text_nodes (childNodes_of n).

Definition is_text (n : node) : bool :=
  match n with Text _ => true | _ => false end.

Definition table_markup : jsstring := js "<table><tr><td>cell</td></tr></table>".

(** Two continuations that agree on the states at or after the position of
    [x]. *)
Definition agree_from (x : state) (c c' : continuation) : Prop :=
  forall y, (List.length (snd y) <= List.length (snd x))%nat -> c y = c' y.

(** The tags of the allow-list as they are written without attributes:
    [<t>] and [</t>]. *)
Definition plain_tags : list jsstring :=
  flat_map (fun t => [js "<" ++ t ++ js ">"; js "</" ++ t ++ js ">"]) ALLOWED_TAGS.

(** The length of the plain allow-listed tag that [s] starts with. *)
Definition plain_tag_at (s : jsstring) : option nat :=
  option_map (@List.length N) (find (startsWith s) plain_tags).

(** Markup in which every [<] starts a plain allow-listed tag, and which
    has no [<] or [>] besides those of its tags.  [skip] counts the
    characters of the current tag still to be passed. *)
Fixpoint only_plain_tags (skip : nat) (s : jsstring) : bool :=
  match s with
  | [] => true
  | c :: s' =>
      match skip with
      | S k => only_plain_tags k s'
      | O =>
          if c =? 60 then
            match plain_tag_at s with
            | Some (S k) => only_plain_tags k s'
            | _ => false
            end
          else if c =? 62 then false
          else only_plain_tags O s'
      end
  end.

Definition not_angle (c : N) : bool := negb (c =? 60) && negb (c =? 62).

End Notions.

(* ================================================================== *)
(** * More of the document object model *)

(** The HTML fragment parsing algorithm that the [innerHTML] setter of an
    element runs on a non-empty string. *)
Class FragmentParser := {
  parse_fragment : jsstring -> list DOM.node
}.

Module Element.
Import DOM.

(** [element.textContent = text]: the children are replaced by one text
    node, or by nothing when the string is empty. *)
Definition set_textContent (n : node) (text : jsstring) : node :=
  match n with
  | Element ns name attrs _ =>
      Element ns name attrs match text with [] => [] | _ => [Text text] end
  | _ => n
  end.

(** [element.textContent]: the data of the text nodes among the
    descendants, concatenated in tree order. *)
Definition textContent (n : node) : jsstring := List.concat (descendant_text n).

(** [element.innerHTML = markup]: the children are replaced by the nodes
    parsed from the markup; the empty string has nothing to parse. *)
Definition set_innerHTML `{FragmentParser} (n : node) (markup : jsstring) : node :=
  match n with
  | Element ns name attrs _ =>
      Element ns name attrs match markup with [] => [] | _ => parse_fragment markup end
  | _ => n
  end.

(** [a || '']: a string is falsy only when it is empty. *)
Definition or_empty (a : jsstring) : jsstring :=
  if falsy (VString a) then js "" else a.

End Element.

(* ================================================================== *)
(** * [String.prototype.split] with a regular expression

    The steps of [RegExp.prototype[Symbol.split]] without a limit, for a
    pattern without capture groups: the matcher is tried at every position
    [q] after the start [p] of the current piece, and a match that ends at
    [p] is passed over. *)

Module StringSplit.
Import RegExp.

(** [piece] is the current piece, reversed; [skip] counts the code units of
    the current separator still to be dropped. *)
Fixpoint split_from (ignoreCase : bool) (r : pattern) (skip : nat)
    (seen piece s : list N) {struct s} : list jsstring :=
  match s with
  | [] => [rev piece]
  | a :: s' =>
      match skip with
      | S k => split_from ignoreCase r k (a :: seen) piece s'
      | O =>
          match matchAt ignoreCase r seen s with
          | Some (S k) => rev piece :: split_from ignoreCase r k (a :: seen) [] s'
          | Some O =>
              match piece with
              | [] => split_from ignoreCase r O (a :: seen) [a] s'
              | _ => rev piece :: split_from ignoreCase r O (a :: seen) [a] s'
              end
          | None => split_from ignoreCase r O (a :: seen) (a :: piece) s'
          end
      end
  end.

(** [s.split(re)] *)
Definition split (s : jsstring) (re : regexp) : list jsstring :=
  match s with
  | [] =>
      match matchAt (ignoreCase re) (source re) [] [] with
      | Some _ => []
      | None => [[]]
      end
  | _ => split_from (ignoreCase re) (source re) O [] [] s
  end.

End StringSplit.

(* ================================================================== *)
(** * [src/js/utils/sanitizer.js]: escaping *)

Module Escaping.
Import DOM Element.

Notation "x <- e ;; k" :=
  (match e with Some x => k | None => None end)
  (at level 61, e at next level, right associativity, only parsing).

(** [escapeHtml(text)] *)
Definition escapeHtml (text : jsstring) : option jsstring :=
  div <- createElement (js "div") ;;
  let div := set_textContent div text in
  Some (innerHTML div).

(** [unescapeHtml(html)] *)
Definition unescapeHtml `{FragmentParser} (html : jsstring) : option jsstring :=
  div <- createElement (js "div") ;;
  let div := set_innerHTML div html in
  Some (or_empty (textContent div)).

End Escaping.

(* ================================================================== *)
(** * [src/js/utils/dom.js]: the counts of the editor *)

Module DomUtils.
Import RegExp DOM Element.

Notation "x <- e ;; k" :=
  (match e with Some x => k | None => None end)
  (at level 61, e at next level, right associativity, only parsing).

(** The literal [/\s+/]. *)
Definition re_spaces : regexp :=
  {| source := Plus (Class white_space); global := false; ignoreCase := false |}.

(** [getCharCount(html)] *)
Definition getCharCount `{FragmentParser} (html : jsstring) : option N :=
  div <- createElement (js "div") ;;
  let div := set_innerHTML div html in
  Some (N.of_nat (List.length (or_empty (textContent div)))).

(** [getWordCount(html)] *)
Definition getWordCount `{FragmentParser} (html : jsstring) : option N :=
  div <- createElement (js "div") ;;
  let div := set_innerHTML div html in
  let text := or_empty (textContent div) in
  let words :=
    filter (fun w => 0 <? N.of_nat (List.length w))
           (StringSplit.split (Sanitizer.trim text) re_spaces) in
  Some (N.of_nat (List.length words)).

(** [isEmpty(html)] *)
Definition isEmpty `{FragmentParser} (html : jsstring) : option bool :=
  if falsy (VString html) then Some true
  else
    div <- createElement (js "div") ;;
    let div := set_innerHTML div html in
    Some (N.of_nat (List.length (Sanitizer.trim (or_empty (textContent div)))) =? 0).

End DomUtils.

(** The reference parser as a fragment parser: the children of the body it
    builds. *)
#[local] Instance ReferenceFragments : FragmentParser :=
  {| parse_fragment := fun markup => DOM.childNodes_of (HTMLParser.parse markup) |}.

(* ================================================================== *)
(** * The editor application: saving to and loading from the address

    The functions of the editor application that call [compress],
    [decompress] and [sanitize], with what they call in turn.  The functions
    work on module variables, the page and the address; these make up the
    [world] they are run in.  Each function is run from start to end: what
    other event handlers do while it awaits is not part of the model.
    Timers, the console, focus and icons are left out. *)

Module Editor.
Import DOM Element.

(** The [state] object. *)
Record app_state := {
  isSaving : bool;
  lastSaved : option N;
  hasUnsavedChanges : bool;
  slashMenuOpen : bool;
  slashMenuIndex : N;
  slashTriggered : bool;
  pendingFontSize : option N
}.

Inductive status := saving | saved | error.
Inductive toast_type := toast_success | toast_error | toast_info.

(** The toast element [showToast] appends to the page. *)
Record toast := {
  message : jsstring;
  type : toast_type;
  duration : N
}.

Record world := {
  state : app_state;
  (** the element [#editor] *)
  editor : node;
  (** the fragment of the address: [None] when it has none, otherwise the
      characters after [#] *)
  fragment : option jsstring;
  (** the element [#status-indicator], if there is one, with the one of the
      classes [saving], [saved] and [error] it has *)
  statusIndicator : option (option status);
  (** the element [#status-text], if there is one, with its text *)
  statusText : option jsstring;
  (** the elements [#word-count] and [#char-count] with the numbers shown *)
  wordCountEl : option N;
  charCountEl : option N;
  (** the toast on the page *)
  copy_toast : option toast;
  (** the time [new Date()] reads *)
  clock : N
}.

Definition with_state (f : app_state -> app_state) (w : world) : world :=
  {| state := f (state w); editor := editor w; fragment := fragment w;
     statusIndicator := statusIndicator w; statusText := statusText w;
     wordCountEl := wordCountEl w; charCountEl := charCountEl w;
     copy_toast := copy_toast w; clock := clock w |}.

Definition set_isSaving (b : bool) (s : app_state) : app_state :=
  {| isSaving := b; lastSaved := lastSaved s; hasUnsavedChanges := hasUnsavedChanges s;
     slashMenuOpen := slashMenuOpen s; slashMenuIndex := slashMenuIndex s;
     slashTriggered := slashTriggered s; pendingFontSize := pendingFontSize s |}.

Definition set_lastSaved (t : option N) (s : app_state) : app_state :=
  {| isSaving := isSaving s; lastSaved := t; hasUnsavedChanges := hasUnsavedChanges s;
     slashMenuOpen := slashMenuOpen s; slashMenuIndex := slashMenuIndex s;
     slashTriggered := slashTriggered s; pendingFontSize := pendingFontSize s |}.

Definition set_hasUnsavedChanges (b : bool) (s : app_state) : app_state :=
  {| isSaving := isSaving s; lastSaved := lastSaved s; hasUnsavedChanges := b;
     slashMenuOpen := slashMenuOpen s; slashMenuIndex := slashMenuIndex s;
     slashTriggered := slashTriggered s; pendingFontSize := pendingFontSize s |}.

Definition with_editor (e : node) (w : world) : world :=
  {| state := state w; editor := e; fragment := fragment w;
     statusIndicator := statusIndicator w; statusText := statusText w;
     wordCountEl := wordCountEl w; charCountEl := charCountEl w;
     copy_toast := copy_toast w; clock := clock w |}.

Definition with_fragment (f : option jsstring) (w : world) : world :=
  {| state := state w; editor := editor w; fragment := f;
     statusIndicator := statusIndicator w; statusText := statusText w;
     wordCountEl := wordCountEl w; charCountEl := charCountEl w;
     copy_toast := copy_toast w; clock := clock w |}.

Definition with_status (i : option (option status)) (t : option jsstring) (w : world)
  : world :=
  {| state := state w; editor := editor w; fragment := fragment w;
     statusIndicator := i; statusText := t;
     wordCountEl := wordCountEl w; charCountEl := charCountEl w;
     copy_toast := copy_toast w; clock := clock w |}.

Definition with_counts (words chars : option N) (w : world) : world :=
  {| state := state w; editor := editor w; fragment := fragment w;
     statusIndicator := statusIndicator w; statusText := statusText w;
     wordCountEl := words; charCountEl := chars;
     copy_toast := copy_toast w; clock := clock w |}.

Definition with_toast (t : option toast) (w : world) : world :=
  {| state := state w; editor := editor w; fragment := fragment w;
     statusIndicator := statusIndicator w; statusText := statusText w;
     wordCountEl := wordCountEl w; charCountEl := charCountEl w;
     copy_toast := t; clock := clock w |}.

(** ** Running a function in the world

    A function either completes with a value or throws; in both cases it
    leaves a world behind. *)

Inductive outcome (A : Type) :=
| Normal (a : A)
| Thrown.
Arguments Normal {A} a.
Arguments Thrown {A}.

Definition action (A : Type) : Type := world -> outcome A * world.

Definition ret {A} (a : A) : action A := fun w => (Normal a, w).

Definition bind {A B} (m : action A) (k : A -> action B) : action B :=
  fun w =>
    match m w with
    | (Normal a, w') => k a w'
    | (Thrown, w') => (Thrown, w')
    end.

Notation "x <- m ;; k" := (bind m (fun x => k))
  (at level 61, m at next level, right associativity).
Notation "m ;; k" := (bind m (fun _ => k))
  (at level 61, right associativity).

(** A change of the world that cannot throw. *)
Definition modify (f : world -> world) : action unit := fun w => (Normal tt, f w).

(** Reading the world. *)
Definition read {A} (f : world -> A) : action A := fun w => (Normal (f w), w).

(** A call whose result is a value or an exception and which does not touch
    the world. *)
Definition call {A} (r : option A) : action A :=
  fun w => match r with Some a => (Normal a, w) | None => (Thrown, w) end.

Definition await {A} (r : completion A) : action A :=
  fun w => match r with Return a => (Normal a, w) | Throw _ => (Thrown, w) end.

(** [try { body } catch (error) { handler }] *)
Definition try_catch {A} (body handler : action A) : action A :=
  fun w =>
    match body w with
    | (Normal a, w') => (Normal a, w')
    | (Thrown, w') => handler w'
    end.

(** ** The address *)

Definition hex_digit (v : N) : N := if v <? 10 then 48 + v else 55 + v.

Definition percent_encode_byte (b : N) : jsstring :=
  [37; hex_digit (b / 16); hex_digit (b mod 16)].

(** The fragment percent-encode set of the URL standard. *)
Definition in_fragment_percent_encode_set (cp : N) : bool :=
  (cp <=? 0x1F) || (0x7E <? cp) || (cp =? 0x20) || (cp =? 0x22) || (cp =? 0x3C)
  || (cp =? 0x3E) || (cp =? 0x60).

Definition is_c0_control_or_space (c : N) : bool := c <=? 0x20.

Fixpoint drop_while (p : N -> bool) (s : jsstring) : jsstring :=
  match s with
  | c :: s' => if p c then drop_while p s' else s
  | [] => []
  end.

(** The fragment the URL parser makes of the characters after [#] in the
    URL given to [history.replaceState]: trailing C0 controls and spaces are
    stripped, tabs and newlines removed, and the code points of the fragment
    percent-encode set percent-encoded as UTF-8. *)
Definition url_fragment (s : jsstring) : jsstring :=
  let s := rev (drop_while is_c0_control_or_space (rev s)) in
  let s := filter (fun c => negb ((c =? 9) || (c =? 10) || (c =? 13))) s in
  flat_map (fun cp => if in_fragment_percent_encode_set cp
                      then flat_map percent_encode_byte (Encoding.utf8_encode_scalar cp)
                      else [cp])
           (Encoding.scalar_values s).

(** [window.location.hash] *)
Definition location_hash (w : world) : jsstring :=
  match fragment w with
  | None | Some [] => js ""
  | Some f => js "#" ++ f
  end.

(** [s.slice(1)] *)
Definition slice_1 (s : jsstring) : jsstring := tl s.

(** [history.replaceState(null, '', window.location.pathname)]: the address
    loses its fragment. *)
Definition replaceState_pathname : action unit := modify (with_fragment None).

(** [history.replaceState(null, '', `#${token}`)] *)
Definition replaceState_hash (token : jsstring) : action unit :=
  modify (with_fragment (Some (url_fragment token))).

(** ** Status, toast and counts *)

Definition status_text (s : status) : jsstring :=
  match s with
  | saving => js "Saving..."
  | saved => js "Saved"
  | error => js "Error"
  end.

(** [updateStatus(status)] *)
Definition updateStatus (s : status) : action unit :=
  modify (fun w =>
            match statusIndicator w, statusText w with
            | Some _, Some _ => with_status (Some (Some s)) (Some (status_text s)) w
            | _, _ => w
            end).

(** [showToast(message, type, duration)]: a toast on the page is removed
    and the new one appended. *)
Definition showToast (message : jsstring) (type : toast_type) (duration : N)
  : action unit :=
  modify (with_toast (Some {| message := message; type := type; duration := duration |})).

(** [editor.innerHTML = markup] *)
Definition set_editor `{FragmentParser} (markup : jsstring) : action unit :=
  modify (fun w => with_editor (set_innerHTML (editor w) markup) w).

(** [updateStats()] *)
Definition updateStats `{FragmentParser} : action unit :=
  content <- read (fun w => innerHTML (editor w)) ;;
  hasWords <- read (fun w => match wordCountEl w with Some _ => true | None => false end) ;;
  (if hasWords then
     n <- call (DomUtils.getWordCount content) ;;
     modify (fun w => with_counts (Some n) (charCountEl w) w)
   else ret tt) ;;
  hasChars <- read (fun w => match charCountEl w with Some _ => true | None => false end) ;;
  if hasChars then
    n <- call (DomUtils.getCharCount content) ;;
    modify (fun w => with_counts (wordCountEl w) (Some n) w)
  else ret tt.

(** [getDemoContent()] *)
Definition getDemoContent : jsstring :=
  let nl := [10] in
  List.concat
    [ nl;
      js "<h1>Welcome to LinkPad! " ++ [55356; 57225] ++ js "</h1>" ++ nl;
      js "<p>A minimal, shareable notepad that lives in your URL. <strong>No sign-up required.</strong></p>" ++ nl;
      nl;
      js "<h2>Getting Started</h2>" ++ nl;
      js "<p>Select any text to see the <strong>formatting toolbar</strong>, or type <strong>/</strong> to open it anywhere.</p>" ++ nl;
      nl;
      js "<h3>Text Formatting</h3>" ++ nl;
      js "<p>Make text <strong>bold</strong>, <em>italic</em>, or <u>underlined</u> with a single click.</p>" ++ nl;
      nl;
      js "<h3>Font Sizes</h3>" ++ nl;
      js "<p>Use the <span style=" ++ [34] ++ js "font-size: 14px;" ++ [34] ++ js ">size dropdown</span> to adjust text size from <span style=" ++ [34] ++ js "font-size: 10px;" ++ [34] ++ js ">tiny (10px)</span> to <span style=" ++ [34] ++ js "font-size: 32px;" ++ [34] ++ js ">large (32px)</span>.</p>" ++ nl;
      nl;
      js "<h4>Lists</h4>" ++ nl;
      js "<ul>" ++ nl;
      js "  <li>Bullet points for unordered items</li>" ++ nl;
      js "  <li>Great for quick notes</li>" ++ nl;
      js "  <li>Easy to organize thoughts</li>" ++ nl;
      js "</ul>" ++ nl;
      nl;
      js "<ol>" ++ nl;
      js "  <li>Numbered lists for sequences</li>" ++ nl;
      js "  <li>Perfect for step-by-step guides</li>" ++ nl;
      js "  <li>Auto-numbered for convenience</li>" ++ nl;
      js "</ol>" ++ nl;
      nl;
      js "<h4>Quotes</h4>" ++ nl;
      js "<blockquote>Use blockquotes to highlight important information or cite sources. They add visual emphasis to key points.</blockquote>" ++ nl;
      nl;
      js "<h2>How It Works</h2>" ++ nl;
      js "<p>Your content is <strong>compressed</strong> and stored right in the URL. Simply <strong>copy the link</strong> to save and share!</p>" ++ nl;
      nl;
      js "<h3>Pro Tips</h3>" ++ nl;
      js "<ul>" ++ nl;
      js "  <li>Press <strong>Tab</strong> to indent</li>" ++ nl;
      js "  <li>Press <strong>Escape</strong> to close the toolbar</li>" ++ nl;
      js "  <li>Click anywhere to position cursor, then set font size for new text</li>" ++ nl;
      js "</ul>" ++ nl;
      nl;
      js "<p><em>Start typing below to create your own note...</em></p>" ++ nl;
      js "<p></p>" ++ nl;
      [] ].

(** ** Saving and loading *)

(** [saveToHash()].  The body of [try] tells whether it left the function
    by [return]. *)
Definition saveToHash `{FragmentParser} `{CompressionStreams} : action unit :=
  busy <- read (fun w => isSaving (state w)) ;;
  if busy then ret tt
  else
    modify (with_state (set_isSaving true)) ;;
    updateStatus saving ;;
    returned <-
      try_catch
        (content <- read (fun w => innerHTML (editor w)) ;;
         empty <- call (DomUtils.isEmpty content) ;;
         if empty then
           replaceState_pathname ;;
           modify (with_state (set_hasUnsavedChanges false)) ;;
           updateStatus saved ;;
           modify (with_state (set_isSaving false)) ;;
           ret true
         else
           compressed <- await (Compression.compress content) ;;
           replaceState_hash compressed ;;
           modify (with_state (set_hasUnsavedChanges false)) ;;
           now <- read clock ;;
           modify (with_state (set_lastSaved (Some now))) ;;
           updateStatus saved ;;
           ret false)
        (updateStatus error ;;
         showToast (js "Failed to save. Please try again.") toast_error 3000 ;;
         ret false) ;;
    if returned then ret tt
    else modify (with_state (set_isSaving false)).

(** [loadFromHash()] *)
Definition loadFromHash `{FragmentParser} `{CompressionStreams} `{DOMParser}
  : action unit :=
  hash <- read (fun w => slice_1 (location_hash w)) ;;
  if falsy (VString hash) then
    set_editor getDemoContent ;;
    updateStats
  else
    try_catch
      (content <- await (Compression.decompress hash) ;;
       sanitizedContent <- await (Sanitizer.sanitize (VString content)) ;;
       set_editor sanitizedContent ;;
       updateStats ;;
       updateStatus saved)
      (showToast (js "Failed to load content. The link may be corrupted.") toast_error 5000 ;;
       set_editor (js "")).

(** [newNote()]; [confirmed] is the answer [window.confirm] gets. *)
Definition newNote `{FragmentParser} (confirmed : bool) : action unit :=
  unsaved <- read (fun w => hasUnsavedChanges (state w)) ;;
  if unsaved && negb confirmed then ret tt
  else
    set_editor (js "") ;;
    replaceState_pathname ;;
    modify (with_state (set_hasUnsavedChanges false)) ;;
    updateStats ;;
    updateStatus saved.

(** [copyLink()].  The address is known here by its fragment, and
    [copyToClipboard] of [dom.js], which catches every exception of the
    clipboard and returns whether the text was copied, by the answer it
    gives for an address. *)
Definition copyLink `{FragmentParser} `{CompressionStreams}
    (copyToClipboard : option jsstring -> bool) : action unit :=
  unsaved <- read (fun w => hasUnsavedChanges (state w)) ;;
  (if unsaved then saveToHash else ret tt) ;;
  url <- read fragment ;;
  let success := copyToClipboard url in
  if success then showToast (js "Link copied to clipboard!") toast_success 3000
  else showToast (js "Failed to copy. Please copy the URL manually.") toast_error 3000.

End Editor.

(* ================================================================== *)
(** * Further notions *)

Section FurtherNotions.
Import RegExp Base64 Encoding Compression DOM Sanitizer.

(** [String.prototype.toWellFormed]: every unpaired surrogate is replaced
    by U+FFFD. *)
Definition toWellFormed (s : jsstring) : jsstring :=
  flat_map code_units (scalar_values s).

(** The string without a U+FEFF at its start. *)
Definition drop_leading_BOM (s : jsstring) : jsstring :=
  if starts_with_BOM s then tl s else s.

(** The tree without its attributes. *)
Fixpoint without_attributes (n : node) : node :=
  match n with
  | Element ns name _ children => Element ns name [] (map without_attributes children)
  | _ => n
  end.

(** The tree without its comments. *)
Fixpoint without_comments (n : node) : node :=
  match n with
  | Element ns name attrs children =>
      Element ns name attrs
        (flat_map (fun c => match c with
                            | Comment _ => []
                            | _ => [without_comments c]
                            end) children)
  | _ => n
  end.

(** [t] is [s] with some of its characters deleted. *)
Inductive deleted_from : jsstring -> jsstring -> Prop :=
| deleted_nil : deleted_from [] []
| deleted_keep c t s : deleted_from t s -> deleted_from (c :: t) (c :: s)
| deleted_drop c t s : deleted_from t s -> deleted_from t (c :: s).

(** A pattern no match of which is without the character [c]. *)
Fixpoint requires (c : N) (r : pattern) : bool :=
  match r with
  | Lit p => p =? c
  | Seq r1 r2 => requires c r1 || requires c r2
  | _ => false
  end.

(** A character that is not a Basic Latin letter. *)
Definition caseless (c : N) : bool := negb (is_upper c) && negb (is_lower c).

(** [c] does not occur in [s]. *)
Definition absent (c : N) (s : jsstring) : bool := forallb (other_than c) s.

(** A character other than the colon, [<] and [=]. *)
Definition no_trigger (c : N) : bool := negb ((c =? 58) || (c =? 60) || (c =? 61)).

(** A character the serializer writes as it is: not [&], U+00A0, [<], [>]. *)
Definition plain_unit (c : N) : bool :=
  negb ((c =? 38) || (c =? 160) || (c =? 60) || (c =? 62)).

(** A piece that counts as a word. *)
Definition is_word (w : jsstring) : bool := 0 <? N.of_nat (List.length w).

Definition dangerous_schemes : list jsstring :=
  map js ["javascript:"; "data:"; "vbscript:"]%string.

End FurtherNotions.

(** ** The parsed document as a tree

    Where the reads of [nodeType], [tagName] and [childNodes] give the
    built-in properties, the objects that [cleanNode] visits form a tree, and
    what it returns is [cleaned] of that tree. *)

Section ReadingNotions.
Import RegExp DOM Sanitizer.
Context {parser : DOMParser}.

(** The object reads as the tree [n]: its type, its tag name, its text and
    its children are those of [n], and so for the children. *)
Fixpoint reads_as (n : node) (o : object) : bool :=
  match n with
  | Text data =>
      strictly_equal (get_nodeType o) TEXT_NODE && JS.eqb (get_textContent o) data
  | Comment _ => strictly_equal (get_nodeType o) 8
  | Element ns name _ children =>
      strictly_equal (get_nodeType o) ELEMENT_NODE
      && match get_tagName o with
         | Plain t => JS.eqb t (tagName ns name)
         | Exotic => false
         end
      && match get_childNodes o with
         | Some os =>
             (fix each (children : list node) (os : list object) : bool :=
                match children, os with
                | [], [] => true
                | child :: children', o' :: os' => reads_as child o' && each children' os'
                | _, _ => false
                end) children os
         | None => false
         end
  end.

(** The children that [Array.from(o.childNodes)] gives read as the trees
    [children]. *)
Definition children_read_as (children : list node) (o : object) : bool :=
  match get_childNodes o with
  | Some os =>
      (fix each (children : list node) (os : list object) : bool :=
         match children, os with
         | [], [] => true
         | child :: children', o' :: os' => reads_as child o' && each children' os'
         | _, _ => false
         end) children os
  | None => false
  end.

(** The loop of [cleanNode] over the children it has read. *)
Definition fragment_of (depth : nat) : list object -> completion (list node) :=
  fix loop (children : list object) : completion (list node) :=
    match children with
    | [] => Return []
    | child :: rest =>
        if strictly_equal (get_nodeType child) TEXT_NODE then
          match loop rest with
          | Return fragment => Return (createTextNode (get_textContent child) :: fragment)
          | Throw error => Throw error
          end
        else if strictly_equal (get_nodeType child) ELEMENT_NODE then
          match toLowerCase_of (get_tagName child) with
          | Return tagName =>
              if ALLOWED_TAGS_has tagName then
                match or_throw (js "InvalidCharacterError") (createElement tagName) with
                | Return cleanElement =>
                    match copy_attributes child cleanElement (allowed_attributes tagName)
                    with
                    | Return cleanElement =>
                        match cleanNode depth child with
                        | Return cleanChildren =>
                            match loop rest with
                            | Return fragment =>
                                Return (appendChild cleanElement cleanChildren :: fragment)
                            | Throw error => Throw error
                            end
                        | Throw error => Throw error
                        end
                    | Throw error => Throw error
                    end
                | Throw error => Throw error
                end
              else
                match cleanNode depth child with
                | Return cleanChildren =>
                    match loop rest with
                    | Return fragment => Return (cleanChildren :: fragment)
                    | Throw error => Throw error
                    end
                | Throw error => Throw error
                end
          | Throw error => Throw error
          end
        else loop rest
    end.

(** Every element that [cleanNode] visits from [o] within [depth] nested
    calls has a child list that can be read and a tag name that is a
    string. *)
Fixpoint readable (depth : nat) (o : object) : bool :=
  match depth with
  | O => false
  | S depth' =>
      match get_childNodes o with
      | Some os =>
          forallb (fun child =>
                     if strictly_equal (get_nodeType child) TEXT_NODE then true
                     else if strictly_equal (get_nodeType child) ELEMENT_NODE then
                       match get_tagName child with
                       | Plain _ => readable depth' child
                       | Exotic => false
                       end
                     else true) os
      | None => false
      end
  end.

End ReadingNotions.

Section TextNotions.
Import RegExp DOM Sanitizer.

(** The number of nested calls [cleanNode] makes on a tree. *)
Fixpoint height (n : node) : nat :=
  match n with
  | Element _ _ _ children => S (fold_right (fun c h => Nat.max (height c) h) O children)
  | _ => O
  end.

(** The calls for an element with these children. *)
Definition depth_of (children : list node) : nat :=
  S (fold_right (fun c h => Nat.max (height c) h) O children).




(** ** Markup of text and line breaks *)

Definition br : node := Element HTML (js "br") [] [].

(** The text node for a run of text: none for the empty run. *)
Definition text_node (data : jsstring) : list node :=
  match data with
  | [] => []
  | _ => [Text data]
  end.

(** Markup made of text and [<br>]: the text before the first [<br>] and
    the text after each [<br>], and the nodes it is the serialization of. *)
Definition markup_of (first : jsstring) (more : list jsstring) : jsstring :=
  escape false first ++ flat_map (fun t => js "<br>" ++ escape false t) more.

Definition nodes_of (first : jsstring) (more : list jsstring) : list node :=
  text_node first ++ flat_map (fun t => br :: text_node t) more.

(** A text node, or a [br] element without attributes. *)
Definition is_line_node (n : node) : bool :=
  match n with
  | Text _ => true
  | Element HTML name [] _ => JS.eqb name (js "br")
  | _ => false
  end.

(** The texts between the line breaks of a list of such nodes, after the
    text [first]. *)
Fixpoint lines_of (first : jsstring) (nodes : list node) : jsstring * list jsstring :=
  match nodes with
  | [] => (first, [])
  | Text data :: rest => lines_of (first ++ data) rest
  | _ :: rest => (first, fst (lines_of [] rest) :: snd (lines_of [] rest))
  end.

(** Markup in which every [<] starts [<br>], and which has no [<] or [>]
    besides.  [skip] counts the characters of the current tag still to be
    passed. *)
Fixpoint only_br_tags (skip : nat) (s : jsstring) : bool :=
  match s with
  | [] => true
  | c :: s' =>
      match skip with
      | S k => only_br_tags k s'
      | O =>
          if c =? 60 then startsWith s (js "<br>") && only_br_tags 3 s'
          else if c =? 62 then false
          else only_br_tags 0 s'
      end
  end.

(** The pattern matches somewhere in the string. *)
Fixpoint matches_from (ignoreCase : bool) (r : pattern) (seen s : list N) : bool :=
  match matchAt ignoreCase r seen s with
  | Some _ => true
  | None =>
      match s with
      | [] => false
      | a :: s' => matches_from ignoreCase r (a :: seen) s'
      end
  end.

Definition matched (re : regexp) (s : jsstring) : bool :=
  matches_from (ignoreCase re) (source re) [] s.

(** None of the [DANGEROUS_PATTERNS] matches in the string. *)
Definition unmatched (s : jsstring) : bool :=
  negb (existsb (fun re => matched re s) DANGEROUS_PATTERNS).

(** Markup that the HTML parser reads character for character: it has no
    U+0000, which the parser drops, and no U+000D, which it reads as a line
    feed, and does not start with white space, which the parser skips
    before the body begins. *)
Definition read_verbatim (markup : jsstring) : bool :=
  forallb (fun c => negb ((c =? 0) || (c =? 13))) markup
  && match markup with
     | c :: _ => negb (Base64.ascii_whitespace c)
     | [] => true
     end.

End TextNotions.

Section ParserLaw.
Import DOM.
Context {parser : DOMParser}.

(** The parser reads markup of text and line breaks back: the children of
    the body it builds for such markup are the text nodes and [br] elements
    the markup is the serialization of. *)
Definition reads_lines_back : Prop :=
  forall first more,
    read_verbatim (markup_of first more) = true ->
    children_read_as (nodes_of first more) (parse_body (markup_of first more)) = true.

End ParserLaw.

(** Markup used below. *)
Definition attribute_markup : jsstring := js "<a href=x>link</a><p class=y>Hello</p>".

Definition script_markup : jsstring :=
  js "<scr<script>x</script>ipt>alert(1)</scr<script>x</script>ipt>".


Definition lines_markup : jsstring := js "a<!--x-->b<br>c &amp; d".

Definition shadowing_markup : jsstring := js "<form><input name=tagName></form>".

Definition shadowed_text_markup : jsstring := js "<form>x<input name=nodeType>y</form>z".

Definition decorated_markup : jsstring := js "<p class=a>x<!--c--><i id=k>y</i></p>".

Definition bare_markup : jsstring := js "<p>x<i>y</i></p>".

(** ** The reference parser on markup of text and line breaks *)

Section ReferenceNotions.
Import DOM HTMLParser.

(** The stack of open elements with the body alone, its children last
    first. *)
Definition body_frame (children : list node) : list frame :=
  [{| f_name := js "body"; f_attrs := []; f_children := children |}].

(** The tokens of markup of text and line breaks. *)
Definition line_tokens (first : jsstring) (more : list jsstring) : list token :=
  map Character first
  ++ flat_map (fun t => StartTag (js "br") [] :: map Character t) more.

End ReferenceNotions.


Section EditorNotions.
Import DOM Element Editor.

(** The counts [updateStats] shows for the content of the editor, in the
    elements the page has. *)
Definition shown_counts `{FragmentParser} (w : world) : world :=
  let content := innerHTML (editor w) in
  with_counts
    (match wordCountEl w, DomUtils.getWordCount content with
     | Some _, Some n => Some n
     | o, _ => o
     end)
    (match charCountEl w, DomUtils.getCharCount content with
     | Some _, Some n => Some n
     | o, _ => o
     end) w.

Definition save_failed : toast :=
  {| message := js "Failed to save. Please try again."; type := toast_error;
     duration := 3000 |}.

Definition load_failed : toast :=
  {| message := js "Failed to load content. The link may be corrupted.";
     type := toast_error; duration := 5000 |}.

Definition link_copied : toast :=
  {| message := js "Link copied to clipboard!"; type := toast_success;
     duration := 3000 |}.

Definition copy_failed : toast :=
  {| message := js "Failed to copy. Please copy the URL manually.";
     type := toast_error; duration := 3000 |}.

(** The content [saveToHash] reads. *)
Definition content_of (w : world) : jsstring := innerHTML (editor w).

End EditorNotions.

Section DecoderNotions.
Import Encoding.

(** What the decoder has read of a sequence in progress leaves only scalar
    values to come: the code point so far and the boundaries of the next
    byte, by the bytes needed and seen. *)
Definition decoder_ok (d : decoder) : Prop :=
  0x80 <= lower_boundary d /\ upper_boundary d <= 0xBF
  /\ match bytes_needed d, bytes_seen d with
     | O, _ => True
     | S O, O => code_point d <= 31
     | S (S O), O =>
         code_point d <= 15 /\ (code_point d = 13 -> upper_boundary d <= 0x9F)
     | S (S O), S O => code_point d < 864 \/ 896 <= code_point d < 1024
     | S (S (S O)), O =>
         code_point d <= 4
         /\ (code_point d = 4 -> upper_boundary d <= 0x8F)
         /\ (code_point d = 0 -> 0x90 <= lower_boundary d)
     | S (S (S O)), S O => 16 <= code_point d <= 271
     | S (S (S O)), S (S O) => 1024 <= code_point d <= 17407
     | _, _ => False
     end.

End DecoderNotions.

(** A page to run the editor functions on: an editor with the given
    children, the given fragment in the address, unsaved changes, and the
    status and count elements present. *)
Definition sample_state : Editor.app_state :=
  {| Editor.isSaving := false; Editor.lastSaved := None;
     Editor.hasUnsavedChanges := true; Editor.slashMenuOpen := false;
     Editor.slashMenuIndex := 0; Editor.slashTriggered := false;
     Editor.pendingFontSize := None |}.

Definition page (children : list DOM.node) (fragment : option jsstring) : Editor.world :=
  {| Editor.state := sample_state;
     Editor.editor := DOM.Element DOM.HTML (js "div") [] children;
     Editor.fragment := fragment;
     Editor.statusIndicator := Some None;
     Editor.statusText := Some (js "Ready");
     Editor.wordCountEl := Some 0;
     Editor.charCountEl := Some 0;
     Editor.copy_toast := None;
     Editor.clock := 1234 |}.

Definition greeting : list DOM.node :=
  [DOM.Element DOM.HTML (js "p") [] [DOM.Text (js "Hello")]].

Definition blank : list DOM.node :=
  [DOM.Element DOM.HTML (js "p") [] [DOM.Text (js " ")]].

(** A text with a leading U+FEFF and an unpaired surrogate. *)
Definition ill_formed_text : jsstring := [0xFEFF; 0xD800; 0x61].

(** The token of "hello" with the reference streams. *)
Definition hello_token : jsstring := js "H4sIAAAAAAAA_wEFAPr_aGVsbG-GphA2BQAAAA".

(** Streams that fail on every input. *)
Definition FailingStreams : CompressionStreams :=
  {| gzip := fun _ => None; gunzip := fun _ => None |}.

(* ================================================================== *)
(** * Proofs *)

#[local] Ltac Zify.zify_post_hook ::= Z.to_euclidean_division_equations.

(** ** Arithmetic of the bit operations *)

Section BitArithmetic.

Lemma land_shiftl_low (hi lo k : N) : lo < 2 ^ k -> N.land (N.shiftl hi k) lo = 0.
Proof.
  intros H. apply N.bits_inj. intros n. rewrite N.land_spec, N.bits_0.
  destruct (N.lt_ge_cases n k) as [L|G].
  - rewrite N.shiftl_spec_low by exact L. reflexivity.
  - rewrite <- (N.mod_small lo (2 ^ k)) by exact H.
    rewrite N.mod_pow2_bits_high by exact G. apply andb_false_r.
Qed.

Lemma lor_shiftl_add (hi lo k : N) :
  lo < 2 ^ k -> N.lor (N.shiftl hi k) lo = hi * 2 ^ k + lo.
Proof.
  intros H. rewrite <- N.lxor_lor by (apply land_shiftl_low; exact H).
  rewrite <- N.add_nocarry_lxor by (apply land_shiftl_low; exact H).
  rewrite N.shiftl_mul_pow2. reflexivity.
Qed.

Lemma lor_mul_add (hi lo k : N) : lo < 2 ^ k -> N.lor (hi * 2 ^ k) lo = hi * 2 ^ k + lo.
Proof.
  intros H. rewrite <- lor_shiftl_add by exact H. now rewrite N.shiftl_mul_pow2.
Qed.

Lemma land_mask (a k : N) : N.land a (N.ones k) = a mod 2 ^ k.
Proof. apply N.land_ones. Qed.

Lemma shiftr_div (a k : N) : N.shiftr a k = a / 2 ^ k.
Proof. apply N.shiftr_div_pow2. Qed.

Lemma shiftl_mul (a k : N) : N.shiftl a k = a * 2 ^ k.
Proof. apply N.shiftl_mul_pow2. Qed.

End BitArithmetic.

(** Rewrite shifts and masks by constants into division, product and
    remainder. *)
Ltac bits_to_arith :=
  repeat rewrite shiftr_div; repeat rewrite shiftl_mul;
  change 3 with (N.ones 2); change 7 with (N.ones 3); change 15 with (N.ones 4);
  change 31 with (N.ones 5); change 63 with (N.ones 6); change 255 with (N.ones 8);
  change 1023 with (N.ones 10);
  repeat rewrite land_mask;
  change (2 ^ 0) with 1; change (2 ^ 2) with 4; change (2 ^ 3) with 8;
  change (2 ^ 4) with 16; change (2 ^ 5) with 32; change (2 ^ 6) with 64;
  change (2 ^ 8) with 256; change (2 ^ 10) with 1024; change (2 ^ 12) with 4096;
  change (2 ^ 16) with 65536; change (2 ^ 18) with 262144.

(** ** Lists *)

Section ListFacts.
Context {A : Type}.

(** Induction three elements at a time. *)
Lemma list_ind3 (P : list A -> Prop) :
  P [] -> (forall a, P [a]) -> (forall a b, P [a; b]) ->
  (forall a b c l, P l -> P (a :: b :: c :: l)) ->
  forall l, P l.
Proof.
  intros H0 H1 H2 H3.
  fix IH 1. intros [|a [|b [|c l]]].
  - exact H0.
  - apply H1.
  - apply H2.
  - apply H3. apply IH.
Qed.

Lemma forallb_repeat (p : A -> bool) (a : A) (k : nat) :
  p a = true -> forallb p (repeat a k) = true.
Proof. intros H. induction k; simpl; [reflexivity | now rewrite H]. Qed.

Lemma filter_all (p : A -> bool) (l : list A) :
  forallb p l = true -> filter p l = l.
Proof.
  induction l as [|a l IH]; simpl; [reflexivity|].
  intros H. apply andb_true_iff in H as [Ha Hl]. rewrite Ha, IH; auto.
Qed.

Lemma forallb_impl (p q : A -> bool) (l : list A) :
  (forall a, p a = true -> q a = true) -> forallb p l = true -> forallb q l = true.
Proof.
  intros H. induction l as [|a l IH]; simpl; [reflexivity|].
  intros E. apply andb_true_iff in E as [Ha Hl]. rewrite (H _ Ha), IH; auto.
Qed.

Lemma forallb_map_pre {B : Type} (p : B -> bool) (f : A -> B) (l : list A) :
  forallb p (map f l) = forallb (fun a => p (f a)) l.
Proof. induction l as [|a l IH]; simpl; [reflexivity | now rewrite IH]. Qed.

End ListFacts.

(** A property checked on every number below a bound holds below it. *)
Lemma below_forall (n : nat) (p : N -> bool) :
  forallb p (map N.of_nat (seq 0 n)) = true ->
  forall v, v < N.of_nat n -> p v = true.
Proof.
  intros H v Hv. rewrite forallb_forall in H. apply H.
  apply in_map_iff. exists (N.to_nat v). split; [apply N2Nat.id|].
  apply in_seq. lia.
Qed.

(** ** Replacement by a regular expression *)

Section RegExpFacts.
Import RegExp.

Lemma repeatMatcher_local (m : state -> continuation -> option state) :
  (forall x c c', agree_from x c c' -> m x c = m x c') ->
  forall fuel x c c', agree_from x c c' ->
                      repeatMatcher m fuel x c = repeatMatcher m fuel x c'.
Proof.
  intros Hm. induction fuel as [|fuel IH]; intros x c c' H; cbn [repeatMatcher].
  - apply H. lia.
  - rewrite (H x) by lia.
    rewrite (Hm x _ (fun y => if consumed x y then repeatMatcher m fuel y c' else None));
      [reflexivity|].
    intros y Hy. destruct (consumed x y); [|reflexivity].
    apply IH. intros z Hz. apply H. lia.
Qed.

(** A matcher moves forward only: it calls its continuation on states at or
    after its own position. *)
Lemma matcher_local (ic : bool) (r : pattern) :
  forall x c c', agree_from x c c' -> matcher ic r x c = matcher ic r x c'.
Proof.
  induction r as [| p | p | r1 IH1 r2 IH2 | r IH | r IH | |]; intros x c c' H;
    cbn [matcher].
  - apply H. lia.
  - destruct x as [seen [|a rest]]; cbn [snd fst]; [reflexivity|].
    destruct (_ =? _); [|reflexivity]. apply H. cbn [snd List.length]. lia.
  - destruct x as [seen [|a rest]]; cbn [snd fst]; [reflexivity|].
    destruct (p a); [|reflexivity]. apply H. cbn [snd List.length]. lia.
  - apply IH1. intros y Hy. apply IH2. intros z Hz. apply H. lia.
  - apply repeatMatcher_local; assumption.
  - rewrite (H x) by lia. reflexivity.
  - rewrite (H x) by lia. reflexivity.
  - rewrite (H x) by lia. reflexivity.
Qed.

Lemma repeatMatcher_fails (m : state -> continuation -> option state) :
  (forall x c c', agree_from x c c' -> m x c = m x c') ->
  (forall x, m x (fun _ => None) = None) ->
  forall fuel x, repeatMatcher m fuel x (fun _ => None) = None.
Proof.
  intros Hm Hf. induction fuel as [|fuel IH]; intros x; cbn [repeatMatcher];
    [reflexivity|].
  rewrite (Hm x _ (fun _ => None)); [now rewrite Hf|].
  intros y _. destruct (consumed x y); [apply IH | reflexivity].
Qed.

(** A matcher fails when its continuation always fails. *)
Lemma matcher_fails (ic : bool) (r : pattern) :
  forall x, matcher ic r x (fun _ => None) = None.
Proof.
  induction r as [| p | p | r1 IH1 r2 IH2 | r IH | r IH | |]; intros x;
    cbn [matcher]; try reflexivity.
  - destruct (snd x); [reflexivity|]. now destruct (_ =? _).
  - destruct (snd x); [reflexivity|]. now destruct (p n).
  - rewrite (matcher_local ic r1 x _ (fun _ => None)); [apply IH1|].
    intros y _. apply IH2.
  - apply repeatMatcher_fails; [apply matcher_local | exact IH].
  - now destruct (matcher ic r x (fun y => Some y)).
  - now destruct (xorb _ _).
  - now destruct (snd x).
Qed.

(** The bound on the iterations of [r*] is never reached: one more round
    changes nothing once the bound covers the remaining input. *)
Lemma repeatMatcher_fuel (ic : bool) (r : pattern) (fuel : nat) :
  forall x c, (List.length (snd x) <= fuel)%nat ->
              repeatMatcher (matcher ic r) (S fuel) x c
              = repeatMatcher (matcher ic r) fuel x c.
Proof.
  induction fuel as [|fuel IH]; intros x c Hx.
  - cbn [repeatMatcher].
    rewrite (matcher_local ic r x _ (fun _ => None)); [now rewrite matcher_fails|].
    intros y Hy. unfold consumed.
    now rewrite (proj2 (Nat.ltb_ge _ _)) by lia.
  - change (repeatMatcher (matcher ic r) (S (S fuel)) x c)
      with (match matcher ic r x
                    (fun y => if consumed x y
                              then repeatMatcher (matcher ic r) (S fuel) y c else None)
            with Some z => Some z | None => c x end).
    change (repeatMatcher (matcher ic r) (S fuel) x c)
      with (match matcher ic r x
                    (fun y => if consumed x y
                              then repeatMatcher (matcher ic r) fuel y c else None)
            with Some z => Some z | None => c x end).
    rewrite (matcher_local ic r x _
               (fun y => if consumed x y
                         then repeatMatcher (matcher ic r) fuel y c else None));
      [reflexivity|].
    intros y Hy. unfold consumed.
    destruct (Nat.ltb_spec (List.length (snd y)) (List.length (snd x)));
      [|reflexivity].
    apply IH. lia.
Qed.

(** [r*] with any larger bound matches as [Star r] does. *)
Lemma star_fuel_irrelevant (ic : bool) (r : pattern) (extra : nat) (x : state)
    (c : continuation) :
  repeatMatcher (matcher ic r) (List.length (snd x) + extra) x c
  = matcher ic (Star r) x c.
Proof.
  cbn [matcher]. induction extra as [|extra IH].
  - now rewrite Nat.add_0_r.
  - rewrite Nat.add_succ_r, repeatMatcher_fuel by lia. exact IH.
Qed.

Lemma replaceGlobal_scan (ic : bool) (r : pattern) (by_ : jsstring) (seen s : list N) :
  replaceGlobal ic r by_ O seen s
  = match matchAt ic r seen s with
    | None =>
        match s with
        | [] => []
        | a :: s' => a :: replaceGlobal ic r by_ O (a :: seen) s'
        end
    | Some O =>
        by_ ++ match s with
               | [] => []
               | a :: s' => a :: replaceGlobal ic r by_ O (a :: seen) s'
               end
    | Some (S k) =>
        by_ ++ match s with
               | [] => []
               | a :: s' => replaceGlobal ic r by_ k (a :: seen) s'
               end
    end.
Proof. destruct s; reflexivity. Qed.

Lemma replaceFirst_scan (ic : bool) (r : pattern) (by_ : jsstring) (seen s : list N) :
  replaceFirst ic r by_ seen s
  = match matchAt ic r seen s with
    | Some n => by_ ++ skipn n s
    | None =>
        match s with
        | [] => []
        | a :: s' => a :: replaceFirst ic r by_ (a :: seen) s'
        end
    end.
Proof. destruct s; reflexivity. Qed.

Lemma matchAt_lit (p a : N) (seen s : list N) :
  matchAt false (Lit p) seen (a :: s) = if a =? p then Some 1%nat else None.
Proof.
  unfold matchAt. cbn [matcher snd fst canonicalize].
  destruct (a =? p); [|reflexivity].
  f_equal. cbn [snd List.length]. lia.
Qed.

Lemma replaceGlobal_char (p : N) (by_ s seen : jsstring) :
  replaceGlobal false (Lit p) by_ O seen s
  = flat_map (fun c => if c =? p then by_ else [c]) s.
Proof.
  revert seen. induction s as [|a s IH]; intros seen; [reflexivity|].
  rewrite replaceGlobal_scan, matchAt_lit. cbn [flat_map].
  destruct (a =? p); rewrite IH; reflexivity.
Qed.

(** A global replacement of one literal character rewrites the string
    character by character. *)
Lemma replace_char_global (p : N) (by_ s : jsstring) :
  replace s {| source := Lit p; global := true; ignoreCase := false |} by_
  = flat_map (fun c => if c =? p then by_ else [c]) s.
Proof. apply replaceGlobal_char. Qed.

(** A repetition of a matcher that reads one [=] runs through a run of [=]
    when the continuation accepts the end of the input. *)
Lemma repeat_eq_signs (m : state -> continuation -> option state) (c : continuation)
    (k : nat) (seen : list N) :
  (forall seen rest c', m (seen, eq_sign :: rest) c' = c' (eq_sign :: seen, rest)) ->
  (forall seen, c (seen, []) = Some (seen, [])) ->
  exists seen', repeatMatcher m k (seen, repeat eq_sign k) c = Some (seen', []).
Proof.
  intros Hm Hc. revert seen. induction k as [|k IH]; intros seen.
  - exists seen. apply Hc.
  - destruct (IH (eq_sign :: seen)) as [seen' E]. exists seen'.
    cbn [repeatMatcher repeat]. rewrite Hm. unfold consumed. cbn [snd List.length].
    rewrite repeat_length, (proj2 (Nat.ltb_lt _ _)) by lia.
    now rewrite E.
Qed.

Lemma padding_source_unfold (seen rest : list N) :
  matcher false padding_source (seen, eq_sign :: rest) (fun y => Some y)
  = repeatMatcher (matcher false (Lit eq_sign)) (List.length rest)
      (eq_sign :: seen, rest)
      (fun y => matcher false EndOfInput y (fun z => Some z)).
Proof. reflexivity. Qed.

(** [=+$] matches a run of [=] that reaches the end of the input. *)
Lemma matchAt_padding_run (k : nat) (seen : list N) :
  matchAt false padding_source seen (repeat eq_sign (S k)) = Some (S k).
Proof.
  unfold matchAt. cbn [repeat]. rewrite padding_source_unfold, repeat_length.
  destruct (repeat_eq_signs (matcher false (Lit eq_sign))
              (fun y => matcher false EndOfInput y (fun z => Some z))
              k (eq_sign :: seen)) as [seen' E].
  - intros s rest c'. reflexivity.
  - reflexivity.
  - rewrite E. cbn [snd List.length]. rewrite repeat_length. f_equal.
Qed.

Lemma matchAt_padding_other (a : N) (seen s : list N) :
  (a =? eq_sign) = false -> matchAt false padding_source seen (a :: s) = None.
Proof.
  intros H. unfold matchAt, padding_source, Plus.
  cbn [matcher snd fst canonicalize]. now rewrite H.
Qed.

Lemma replaceFirst_padding (body : jsstring) (k : nat) (seen : list N) :
  forallb (fun c => negb (c =? eq_sign)) body = true ->
  replaceFirst false padding_source [] seen (body ++ repeat eq_sign k) = body.
Proof.
  revert seen. induction body as [|a body IH]; intros seen H.
  - destruct k as [|k]; [reflexivity|].
    rewrite replaceFirst_scan. cbn [app]. rewrite matchAt_padding_run.
    cbn [app]. apply skipn_all2. rewrite repeat_length. lia.
  - cbn [forallb] in H. apply andb_true_iff in H as [Ha Hb].
    apply negb_true_iff in Ha.
    rewrite replaceFirst_scan. cbn [app].
    rewrite matchAt_padding_other by exact Ha. now rewrite IH.
Qed.

(** [s.replace(/=+$/, '')] drops the run of [=] that ends the string. *)
Lemma strip_trailing_padding (body : jsstring) (k : nat) :
  forallb (fun c => negb (c =? eq_sign)) body = true ->
  replace (body ++ repeat eq_sign k) Compression.re_padding (js "") = body.
Proof. intros H. apply (replaceFirst_padding body k [] H). Qed.

End RegExpFacts.

(** ** Bytes *)

Section ByteFacts.

Lemma to_N_is_byte (b : byte) : is_byte (Uint8.to_N b) = true.
Proof. apply N.leb_le, Byte.to_N_bounded. Qed.

Lemma of_to_N (b : byte) : Uint8.of_N (Uint8.to_N b) = b.
Proof.
  unfold Uint8.of_N, Uint8.to_N.
  rewrite N.mod_small by (pose proof (Byte.to_N_bounded b); lia).
  now rewrite Byte.of_to_N.
Qed.

Lemma to_of_N (n : N) : is_byte n = true -> Uint8.to_N (Uint8.of_N n) = n.
Proof.
  intros H. apply N.leb_le in H. unfold Uint8.of_N, Uint8.to_N.
  rewrite N.mod_small by lia.
  destruct (Byte.of_N n) as [b|] eqn:E.
  - now apply Byte.to_of_N.
  - apply Byte.of_N_None_iff in E. lia.
Qed.

Lemma map_of_to_N (bytes : list byte) : map Uint8.of_N (map Uint8.to_N bytes) = bytes.
Proof.
  induction bytes as [|b bytes IH]; simpl; [reflexivity|].
  now rewrite of_to_N, IH.
Qed.

Lemma map_to_of_N (l : list N) :
  forallb is_byte l = true -> map Uint8.to_N (map Uint8.of_N l) = l.
Proof.
  induction l as [|a l IH]; simpl; [reflexivity|].
  intros H. apply andb_true_iff in H as [Ha Hl]. now rewrite to_of_N, IH.
Qed.

Lemma forallb_is_byte_map (bytes : list byte) :
  forallb is_byte (map Uint8.to_N bytes) = true.
Proof.
  induction bytes as [|b bytes IH]; simpl; [reflexivity|].
  now rewrite to_N_is_byte, IH.
Qed.

End ByteFacts.

(** ** Base64 *)

Section Base64Facts.
Import Base64.

Lemma encode_split (bs : list N) : encode bs = body bs ++ repeat pad (padding bs).
Proof.
  induction bs as [| a | a b | a b c l IH] using list_ind3; try reflexivity.
  cbn [encode body padding app]. now rewrite IH.
Qed.

Lemma padding_le (bs : list N) : (padding bs <= 2)%nat.
Proof.
  induction bs as [| a | a b | a b c l IH] using list_ind3; simpl; lia.
Qed.

Lemma char_index (v : N) : v < 64 -> index_of (char_of v) = Some v.
Proof.
  intros H.
  pose (p := fun v => match index_of (char_of v) with
                      | Some w => w =? v
                      | None => false
                      end).
  assert (E : p v = true).
  { apply (below_forall 64 p); [vm_compute; reflexivity | exact H]. }
  unfold p in E. destruct (index_of (char_of v)) as [w|]; [|discriminate].
  apply N.eqb_eq in E. now subst.
Qed.

Lemma char_in_alphabet (v : N) : v < 64 -> in_alphabet (char_of v) = true.
Proof. intros H. unfold in_alphabet. now rewrite char_index. Qed.

(** The four 6-bit values of three bytes. *)
Lemma sextet1 (a : N) : N.shiftr a 2 = a / 4.
Proof. now bits_to_arith. Qed.

Lemma sextet2 (a b : N) :
  is_byte b = true ->
  N.lor (N.shiftl (N.land a 3) 4) (N.shiftr b 4) = (a mod 4) * 16 + b / 16.
Proof.
  intros Hb. apply N.leb_le in Hb.
  rewrite lor_shiftl_add; bits_to_arith; [reflexivity | lia].
Qed.

Lemma sextet2_last (a : N) : N.shiftl (N.land a 3) 4 = (a mod 4) * 16.
Proof. now bits_to_arith. Qed.

Lemma sextet3 (b c : N) :
  is_byte c = true ->
  N.lor (N.shiftl (N.land b 15) 2) (N.shiftr c 6) = (b mod 16) * 4 + c / 64.
Proof.
  intros Hc. apply N.leb_le in Hc.
  rewrite lor_shiftl_add; bits_to_arith; [reflexivity | lia].
Qed.

Lemma sextet3_last (b : N) : N.shiftl (N.land b 15) 2 = (b mod 16) * 4.
Proof. now bits_to_arith. Qed.

Lemma sextet4 (c : N) : N.land c 63 = c mod 64.
Proof. now bits_to_arith. Qed.

Lemma body_alphabet (bs : list N) :
  forallb is_byte bs = true -> forallb in_alphabet (body bs) = true.
Proof.
  induction bs as [| a | a b | a b c l IH] using list_ind3;
    cbn [forallb body]; intros H.
  - reflexivity.
  - rewrite sextet1, sextet2_last.
    apply andb_true_iff in H as [Ha _]. apply N.leb_le in Ha.
    rewrite !char_in_alphabet by lia. reflexivity.
  - apply andb_true_iff in H as [Ha H]. apply andb_true_iff in H as [Hb _].
    rewrite sextet1, sextet2, sextet3_last by assumption.
    apply N.leb_le in Ha, Hb.
    rewrite !char_in_alphabet by lia. reflexivity.
  - apply andb_true_iff in H as [Ha H]. apply andb_true_iff in H as [Hb H].
    apply andb_true_iff in H as [Hc H].
    rewrite sextet1, sextet2, sextet3, sextet4 by assumption.
    apply N.leb_le in Ha, Hb, Hc.
    rewrite !char_in_alphabet by lia. now rewrite IH.
Qed.

Lemma in_range_spec (lo hi c : N) : in_range lo hi c = true <-> lo <= c <= hi.
Proof. unfold in_range. rewrite andb_true_iff, !N.leb_le. tauto. Qed.

Lemma in_range_false (lo hi c : N) : in_range lo hi c = false <-> c < lo \/ hi < c.
Proof. unfold in_range. rewrite andb_false_iff, !N.leb_gt. tauto. Qed.

Lemma alphabet_cases (c : N) :
  in_alphabet c = true ->
  65 <= c <= 90 \/ 97 <= c <= 122 \/ 48 <= c <= 57 \/ c = 43 \/ c = 47.
Proof.
  unfold in_alphabet, index_of, is_upper, is_lower, is_digit. intros H.
  destruct (in_range 65 90 c) eqn:U; [left; now apply in_range_spec|].
  destruct (in_range 97 122 c) eqn:L; [right; left; now apply in_range_spec|].
  destruct (in_range 48 57 c) eqn:D; [right; right; left; now apply in_range_spec|].
  destruct (N.eqb_spec c 43); [tauto|].
  destruct (N.eqb_spec c 47); [tauto|discriminate].
Qed.

Lemma alphabet_not_pad (c : N) : in_alphabet c = true -> (c =? pad) = false.
Proof.
  intros H. apply alphabet_cases in H. apply N.eqb_neq. change pad with 61. lia.
Qed.

Lemma alphabet_not_whitespace (c : N) :
  in_alphabet c = true -> ascii_whitespace c = false.
Proof.
  intros H. apply alphabet_cases in H. unfold ascii_whitespace.
  rewrite !(proj2 (N.eqb_neq _ _)) by lia. reflexivity.
Qed.

(** The decoder on the characters of 6-bit values. *)
Lemma decode_four (v1 v2 v3 v4 : N) (rest : jsstring) :
  v1 < 64 -> v2 < 64 -> v3 < 64 -> v4 < 64 ->
  decode_go 0 0 (char_of v1 :: char_of v2 :: char_of v3 :: char_of v4 :: rest)
  = let buf := ((v1 * 64 + v2) * 64 + v3) * 64 + v4 in
    buf / 65536 :: (buf / 256) mod 256 :: buf mod 256 :: decode_go 0 0 rest.
Proof.
  intros H1 H2 H3 H4. cbn [decode_go]. rewrite !char_index by assumption.
  change (N.lor (N.shiftl 0 6) v1) with v1.
  rewrite !lor_shiftl_add by (change (2 ^ 6) with 64; lia).
  bits_to_arith. reflexivity.
Qed.

Lemma decode_two (v1 v2 : N) :
  v1 < 64 -> v2 < 64 ->
  decode_go 0 0 [char_of v1; char_of v2] = [(v1 * 64 + v2) / 16].
Proof.
  intros H1 H2. cbn [decode_go]. rewrite !char_index by assumption.
  change (N.lor (N.shiftl 0 6) v1) with v1.
  rewrite !lor_shiftl_add by (change (2 ^ 6) with 64; lia).
  bits_to_arith. reflexivity.
Qed.

Lemma decode_three (v1 v2 v3 : N) :
  v1 < 64 -> v2 < 64 -> v3 < 64 ->
  decode_go 0 0 [char_of v1; char_of v2; char_of v3]
  = let buf := (v1 * 64 + v2) * 64 + v3 in [buf / 1024; (buf / 4) mod 256].
Proof.
  intros H1 H2 H3. cbn [decode_go]. rewrite !char_index by assumption.
  change (N.lor (N.shiftl 0 6) v1) with v1.
  rewrite !lor_shiftl_add by (change (2 ^ 6) with 64; lia).
  bits_to_arith. reflexivity.
Qed.

(** Decoding the unpadded encoding of a byte sequence gives it back. *)
Lemma decode_body (bs : list N) :
  forallb is_byte bs = true -> decode_go 0 0 (body bs) = bs.
Proof.
  induction bs as [| a | a b | a b c l IH] using list_ind3;
    cbn [forallb body]; intros H.
  - reflexivity.
  - apply andb_true_iff in H as [Ha _].
    rewrite sextet1, sextet2_last. apply N.leb_le in Ha.
    rewrite decode_two by lia. f_equal. lia.
  - apply andb_true_iff in H as [Ha H]. apply andb_true_iff in H as [Hb _].
    rewrite sextet1, sextet2, sextet3_last by assumption.
    apply N.leb_le in Ha, Hb.
    rewrite decode_three by lia. cbv zeta.
    assert (E : (a / 4 * 64 + (a mod 4 * 16 + b / 16)) * 64 + b mod 16 * 4
                = a * 1024 + b * 4) by lia.
    rewrite E. f_equal; [lia | f_equal; lia].
  - apply andb_true_iff in H as [Ha H]. apply andb_true_iff in H as [Hb H].
    apply andb_true_iff in H as [Hc H].
    rewrite sextet1, sextet2, sextet3, sextet4 by assumption.
    apply N.leb_le in Ha, Hb, Hc.
    rewrite decode_four by lia. cbv zeta.
    assert (E : ((a / 4 * 64 + (a mod 4 * 16 + b / 16)) * 64
                 + (b mod 16 * 4 + c / 64)) * 64 + c mod 64
                = a * 65536 + b * 256 + c) by lia.
    rewrite E, IH by exact H. f_equal; [lia | f_equal; [lia | f_equal; lia]].
Qed.

(** Removing the padding of a padded string of alphabet characters. *)
Lemma strip_padding_app (s : jsstring) (k : nat) :
  forallb in_alphabet s = true -> (k <= 2)%nat ->
  strip_padding (s ++ repeat pad k) = s.
Proof.
  intros Hs Hk. unfold strip_padding. rewrite rev_app_distr, rev_repeat.
  assert (Hlast : forall p r, rev s = p :: r -> (p =? pad) = false).
  { intros p r E. apply alphabet_not_pad.
    rewrite forallb_forall in Hs. apply Hs. apply in_rev. rewrite E. now left. }
  remember (rev s) as t eqn:Et.
  assert (Es : s = rev t) by (subst t; symmetry; apply rev_involutive).
  clear Et Hs.
  destruct k as [|[|[|k]]]; [| | |lia]; cbn [repeat app]; rewrite ?N.eqb_refl.
  - rewrite app_nil_r. destruct t as [|p1 [|p2 t]]; try reflexivity;
      now rewrite (Hlast p1 _ eq_refl).
  - destruct t as [|p2 t]; [now subst|]. now rewrite (Hlast p2 _ eq_refl).
  - now subst.
Qed.

Lemma body_padding_length (bs : list N) :
  exists m, (padding bs = 0 /\ List.length (body bs) = 4 * m)%nat
            \/ (padding bs = 2 /\ List.length (body bs) = 4 * m + 2)%nat
            \/ (padding bs = 1 /\ List.length (body bs) = 4 * m + 3)%nat.
Proof.
  induction bs as [| a | a b | a b c l [m IH]] using list_ind3.
  - exists 0%nat. now left.
  - exists 0%nat. right. now left.
  - exists 0%nat. right. now right.
  - exists (S m). cbn [body padding List.length]. lia.
Qed.

(** [atob] on alphabet characters followed by the padding that completes
    the length to a multiple of four. *)
Lemma atob_padded (s : jsstring) (k : nat) :
  forallb in_alphabet s = true -> (k <= 2)%nat ->
  N.of_nat (List.length s + k) mod 4 = 0 ->
  atob (s ++ repeat pad k) = Some (decode_go 0 0 s).
Proof.
  intros Hs Hk Hlen. unfold atob.
  assert (Hws : forallb (fun c => negb (ascii_whitespace c)) (s ++ repeat pad k) = true).
  { rewrite forallb_app. apply andb_true_iff. split.
    - apply (forallb_impl in_alphabet); [|exact Hs].
      intros c Hc. now rewrite alphabet_not_whitespace.
    - now apply forallb_repeat. }
  rewrite (filter_all _ _ Hws), length_app, repeat_length, Hlen. cbn [N.eqb].
  rewrite strip_padding_app by assumption.
  assert (Hm : (N.of_nat (List.length s) mod 4 =? 1) = false).
  { apply N.eqb_neq. lia. }
  now rewrite Hm, Hs.
Qed.

(** [atob] undoes [encode] on binary strings. *)
Lemma atob_encode (bs : list N) :
  forallb is_byte bs = true -> atob (encode bs) = Some bs.
Proof.
  intros H. rewrite encode_split, atob_padded.
  - now rewrite decode_body.
  - now apply body_alphabet.
  - apply padding_le.
  - destruct (body_padding_length bs) as [m Hm]. lia.
Qed.

End Base64Facts.

(** ** The content codec *)

Section CodecFacts.
Import RegExp Compression.
Context {streams : CompressionStreams}.

Lemma binary_string (bytes : list byte) (acc : jsstring) :
  fold_left (fun binary b => binary ++ [Uint8.to_N b]) bytes acc
  = acc ++ map Uint8.to_N bytes.
Proof.
  revert acc. induction bytes as [|b bytes IH]; intros acc; cbn [fold_left map].
  - now rewrite app_nil_r.
  - rewrite IH, <- app_assoc. reflexivity.
Qed.

Lemma arrayBufferToBase64_encode (bytes : list byte) :
  arrayBufferToBase64 bytes = Some (Base64.encode (map Uint8.to_N bytes)).
Proof.
  unfold arrayBufferToBase64, Base64.btoa. rewrite binary_string. cbn [app].
  assert (E : forallb (fun c => c <=? 255) (map Uint8.to_N bytes) = true)
    by apply forallb_is_byte_map.
  now rewrite E.
Qed.

Lemma base64ToArrayBuffer_encode (bytes : list byte) :
  base64ToArrayBuffer (Base64.encode (map Uint8.to_N bytes)) = Some bytes.
Proof.
  unfold base64ToArrayBuffer.
  rewrite atob_encode by apply forallb_is_byte_map.
  now rewrite map_of_to_N.
Qed.

Lemma replace_char_by_char (p q : N) (s : jsstring) :
  replace s {| source := Lit p; global := true; ignoreCase := false |} [q]
  = map (fun c => if c =? p then q else c) s.
Proof.
  rewrite replace_char_global.
  induction s as [|a s IH]; cbn [flat_map map]; [reflexivity|].
  rewrite IH. now destruct (a =? p).
Qed.

Lemma make_url_safe (s : jsstring) :
  replace (replace s re_plus (js "-")) re_slash (js "_") = map to_url s.
Proof.
  unfold re_plus, re_slash.
  change (js "-") with [45]. change (js "_") with [95].
  rewrite !replace_char_by_char, map_map. apply map_ext. intros c.
  change (ch "+"%char) with 43. change (ch "/"%char) with 47. unfold to_url.
  destruct (N.eqb_spec c 43) as [->|]; reflexivity.
Qed.

Lemma restore_standard (s : jsstring) :
  replace (replace s re_minus (js "+")) re_underscore (js "/") = map from_url s.
Proof.
  unfold re_minus, re_underscore.
  change (js "+") with [43]. change (js "/") with [47].
  rewrite !replace_char_by_char, map_map. apply map_ext. intros c.
  change (ch "-"%char) with 45. change (ch "_"%char) with 95. unfold from_url.
  destruct (N.eqb_spec c 45) as [->|]; reflexivity.
Qed.

Lemma is_token_char_cases (c : N) :
  is_token_char c = true <->
  65 <= c <= 90 \/ 97 <= c <= 122 \/ 48 <= c <= 57 \/ c = 45 \/ c = 95.
Proof.
  unfold is_token_char, is_upper, is_lower, is_digit.
  rewrite !orb_true_iff, !in_range_spec, !N.eqb_eq. tauto.
Qed.

Lemma to_url_token (c : N) :
  Base64.in_alphabet c = true -> is_token_char (to_url c) = true.
Proof.
  intros H. apply alphabet_cases in H. apply is_token_char_cases. unfold to_url.
  destruct (N.eqb_spec c 47); [lia|]. destruct (N.eqb_spec c 43); lia.
Qed.

Lemma from_to_url (c : N) : Base64.in_alphabet c = true -> from_url (to_url c) = c.
Proof.
  intros H. apply alphabet_cases in H. unfold to_url, from_url.
  destruct (N.eqb_spec c 47) as [->|]; [reflexivity|].
  destruct (N.eqb_spec c 43) as [->|]; [reflexivity|].
  destruct (N.eqb_spec c 95); [lia|]. destruct (N.eqb_spec c 45); [lia|reflexivity].
Qed.

Lemma from_url_alphabet (c : N) :
  is_token_char c = true -> Base64.in_alphabet (from_url c) = true.
Proof.
  intros H. apply is_token_char_cases in H. unfold from_url.
  destruct (N.eqb_spec c 95); [reflexivity|].
  destruct (N.eqb_spec c 45); [reflexivity|].
  unfold Base64.in_alphabet, Base64.index_of, is_upper, is_lower, is_digit.
  destruct (in_range 65 90 c) eqn:U; [reflexivity|].
  destruct (in_range 97 122 c) eqn:L; [reflexivity|].
  destruct (in_range 48 57 c) eqn:D; [reflexivity|].
  apply in_range_false in U, L, D. lia.
Qed.

Lemma token_char_not_eq_sign (c : N) :
  is_token_char c = true -> negb (c =? eq_sign) = true.
Proof.
  intros H. apply is_token_char_cases in H. apply negb_true_iff, N.eqb_neq.
  change eq_sign with 61. lia.
Qed.

Lemma token_of_chars (z : list byte) : forallb is_token_char (token_of z) = true.
Proof.
  unfold token_of. rewrite forallb_map_pre.
  apply (forallb_impl Base64.in_alphabet).
  - intros c. apply to_url_token.
  - apply body_alphabet, forallb_is_byte_map.
Qed.

(** What [compress] returns, by cases on the input and on the stream. *)
Lemma compress_nonempty (c : N) (text : jsstring) :
  compress (c :: text)
  = match gzip (Encoding.TextEncoder_encode (c :: text)) with
    | Some z => Return (token_of z)
    | None => Throw (js "Failed to compress content")
    end.
Proof.
  unfold compress. cbn [falsy].
  destruct (gzip (Encoding.TextEncoder_encode (c :: text))) as [z|]; [|reflexivity].
  rewrite arrayBufferToBase64_encode. cbn [try_catch]. f_equal.
  rewrite make_url_safe, encode_split, map_app.
  assert (E : map to_url (repeat Base64.pad (padding (map Uint8.to_N z)))
              = repeat eq_sign (padding (map Uint8.to_N z))).
  { induction (padding (map Uint8.to_N z)) as [|k IH]; [reflexivity|].
    cbn [repeat map]. now rewrite IH. }
  rewrite E. apply strip_trailing_padding.
  apply (forallb_impl is_token_char).
  - intros a. apply token_char_not_eq_sign.
  - apply token_of_chars.
Qed.

(** The padding loop appends the least number of [=] that makes the length
    a multiple of four; three rounds are enough for every string. *)
Lemma add_padding_least (fuel : nat) (s : jsstring) (k : nat) :
  N.of_nat (List.length s + k) mod 4 = 0 ->
  (forall j, (j < k)%nat -> N.of_nat (List.length s + j) mod 4 <> 0) ->
  (k <= fuel)%nat ->
  add_padding fuel s = s ++ repeat Base64.pad k.
Proof.
  revert fuel s. induction k as [|k IH]; intros fuel s Hk Hmin Hfuel.
  - rewrite Nat.add_0_r in Hk. cbn [repeat]. rewrite app_nil_r.
    destruct fuel; cbn [add_padding]; [reflexivity|]. now rewrite Hk.
  - destruct fuel as [|fuel]; [lia|]. cbn [add_padding].
    assert (H0 := Hmin 0%nat ltac:(lia)). rewrite Nat.add_0_r in H0.
    apply N.eqb_neq in H0. rewrite H0.
    rewrite (IH fuel (s ++ js "=")).
    + rewrite <- app_assoc. reflexivity.
    + rewrite length_app. cbn [js List.length map list_ascii_of_string].
      now replace (List.length s + 1 + k)%nat with (List.length s + S k)%nat by lia.
    + intros j Hj. rewrite length_app. cbn [js List.length map list_ascii_of_string].
      replace (List.length s + 1 + j)%nat with (List.length s + S j)%nat by lia.
      apply Hmin. lia.
    + lia.
Qed.

Lemma add_padding_terminates (s : jsstring) :
  N.of_nat (List.length (add_padding 3 s)) mod 4 = 0.
Proof.
  cbn [add_padding].
  repeat (match goal with
          | |- context [if ?b then _ else _] => destruct b eqn:?
          end; [apply N.eqb_eq; assumption|]).
  repeat match goal with H : (_ =? _) = false |- _ => apply N.eqb_neq in H end.
  rewrite !length_app in *. cbn [js List.length map list_ascii_of_string] in *. lia.
Qed.

(** Lines 50 to 58 of [decompress] undo lines 29 to 33 of [compress]. *)
Lemma token_bytes_token_of (z : list byte) : token_bytes (token_of z) = Some z.
Proof.
  unfold token_bytes, token_of. rewrite restore_standard, map_map.
  assert (Hb := body_alphabet (map Uint8.to_N z) (forallb_is_byte_map z)).
  assert (E : map (fun c => from_url (to_url c)) (body (map Uint8.to_N z))
              = body (map Uint8.to_N z)).
  { rewrite <- (map_id (body (map Uint8.to_N z))) at 2. apply map_ext_in.
    intros c Hc. apply from_to_url. rewrite forallb_forall in Hb. now apply Hb. }
  rewrite E.
  destruct (body_padding_length (map Uint8.to_N z)) as [m Hm].
  rewrite (add_padding_least 3 _ (padding (map Uint8.to_N z))).
  - rewrite <- encode_split. apply base64ToArrayBuffer_encode.
  - lia.
  - intros j Hj. lia.
  - lia.
Qed.

(** The Base64 leg of [decompress] succeeds on every token whose length
    does not leave the remainder 1 modulo 4. *)
Lemma token_bytes_succeeds (t : jsstring) :
  forallb is_token_char t = true ->
  N.of_nat (List.length t) mod 4 <> 1 ->
  exists bytes, token_bytes t = Some bytes.
Proof.
  intros Ht Hlen. unfold token_bytes. rewrite restore_standard.
  set (s := map from_url t).
  assert (Hs : forallb Base64.in_alphabet s = true).
  { unfold s. rewrite forallb_map_pre.
    apply (forallb_impl is_token_char); [apply from_url_alphabet | exact Ht]. }
  assert (Ls : List.length s = List.length t) by apply length_map.
  set (k := N.to_nat ((4 - N.of_nat (List.length s) mod 4) mod 4)).
  rewrite (add_padding_least 3 s k); unfold k; try lia.
  unfold base64ToArrayBuffer. rewrite atob_padded; try lia; [|exact Hs].
  eexists. reflexivity.
Qed.

End CodecFacts.

(** ** Text encoding *)

Section EncodingFacts.
Import Encoding.

Lemma is_scalar_spec (cp : N) :
  is_scalar cp = true <-> cp < 0x110000 /\ (cp < 0xD800 \/ 0xDFFF < cp).
Proof.
  unfold is_scalar. rewrite andb_true_iff, negb_true_iff, N.ltb_lt, in_range_false.
  tauto.
Qed.

(** The bytes of the encoder in arithmetic form. *)
Lemma trail_byte (cp k : N) :
  N.lor 0x80 (N.land (N.shiftr cp k) 0x3F) = 128 + (cp / 2 ^ k) mod 64.
Proof.
  change 0x80 with (2 * 2 ^ 6). rewrite lor_mul_add.
  - bits_to_arith. reflexivity.
  - bits_to_arith. lia.
Qed.

Lemma utf8_encode_scalar_cases (cp : N) :
  utf8_encode_scalar cp =
  if cp <=? 0x7F then [cp]
  else if cp <=? 0x7FF then [cp / 64 + 192; 128 + cp mod 64]
  else if cp <=? 0xFFFF then
    [cp / 4096 + 224; 128 + (cp / 64) mod 64; 128 + cp mod 64]
  else [cp / 262144 + 240; 128 + (cp / 4096) mod 64; 128 + (cp / 64) mod 64;
        128 + cp mod 64].
Proof.
  unfold utf8_encode_scalar, in_range.
  destruct (N.leb_spec cp 0x7F) as [H1|H1].
  - now rewrite (proj2 (N.leb_le 0 cp)) by lia.
  - rewrite andb_false_r.
    destruct (N.leb_spec cp 0x7FF) as [H2|H2];
      [|destruct (N.leb_spec cp 0xFFFF) as [H3|H3]].
    + rewrite (proj2 (N.leb_le 0x80 cp)) by lia.
      cbn [andb utf8_trail N.of_nat N.mul Pos.mul Pos.of_succ_nat Pos.succ].
      rewrite !trail_byte. bits_to_arith. now rewrite N.div_1_r.
    + rewrite andb_false_r, (proj2 (N.leb_le 0x800 cp)) by lia.
      cbn [andb utf8_trail N.of_nat N.mul Pos.mul Pos.of_succ_nat Pos.succ Pos.add].
      rewrite !trail_byte. bits_to_arith. now rewrite N.div_1_r.
    + rewrite !andb_false_r.
      cbn [andb utf8_trail N.of_nat N.mul Pos.mul Pos.of_succ_nat Pos.succ Pos.add].
      rewrite !trail_byte. bits_to_arith. now rewrite N.div_1_r.
Qed.

Lemma utf8_encode_scalar_bytes (cp : N) :
  cp < 0x110000 -> forallb is_byte (utf8_encode_scalar cp) = true.
Proof.
  intros H. rewrite utf8_encode_scalar_cases. unfold is_byte.
  destruct (N.leb_spec cp 0x7F); [|destruct (N.leb_spec cp 0x7FF);
    [|destruct (N.leb_spec cp 0xFFFF)]]; cbn [forallb];
    rewrite ?andb_true_iff, ?N.leb_le; repeat split; lia.
Qed.

(** Steps of the decoder. *)
Lemma decoder_fresh (b : N) (rest : list N) :
  utf8_decoder initial (b :: rest)
  = match lead_byte b with
    | Emit cp => cp :: utf8_decoder initial rest
    | Continue d => utf8_decoder d rest
    | Error => replacement :: utf8_decoder initial rest
    end.
Proof. reflexivity. Qed.

Lemma decoder_continuation (cp : N) (seen needed : nat) (lo hi b : N) (rest : list N) :
  in_range lo hi b = true ->
  utf8_decoder {| code_point := cp; bytes_seen := seen; bytes_needed := S needed;
                  lower_boundary := lo; upper_boundary := hi |} (b :: rest)
  = let cp' := N.lor (N.shiftl cp 6) (N.land b 0x3F) in
    if Nat.eqb seen needed then cp' :: utf8_decoder initial rest
    else utf8_decoder {| code_point := cp'; bytes_seen := S seen;
                         bytes_needed := S needed;
                         lower_boundary := 0x80; upper_boundary := 0xBF |} rest.
Proof.
  intros H.
  cbn [utf8_decoder bytes_needed bytes_seen code_point lower_boundary upper_boundary].
  rewrite H. reflexivity.
Qed.

(** Adding the six bits of a continuation byte. *)
Lemma add_continuation (cp x : N) :
  x < 64 -> N.lor (N.shiftl cp 6) (N.land (128 + x) 0x3F) = cp * 64 + x.
Proof.
  intros H. rewrite lor_shiftl_add; bits_to_arith; lia.
Qed.

Lemma lead_byte_1 (b : N) : b <= 0x7F -> lead_byte b = Emit b.
Proof.
  intros H. unfold lead_byte.
  now rewrite (proj2 (in_range_spec 0 0x7F b)) by lia.
Qed.

Lemma lead_byte_2 (x : N) :
  2 <= x < 32 ->
  lead_byte (x + 192)
  = Continue {| code_point := x; bytes_seen := 0; bytes_needed := 1;
                lower_boundary := 0x80; upper_boundary := 0xBF |}.
Proof.
  intros H. unfold lead_byte.
  rewrite (proj2 (in_range_false 0 0x7F _)) by lia.
  rewrite (proj2 (in_range_spec 0xC2 0xDF _)) by lia.
  do 2 f_equal. bits_to_arith. lia.
Qed.

Lemma lead_byte_3 (x : N) :
  x < 16 ->
  lead_byte (x + 224)
  = Continue {| code_point := x; bytes_seen := 0; bytes_needed := 2;
                lower_boundary := if x =? 0 then 0xA0 else 0x80;
                upper_boundary := if x =? 13 then 0x9F else 0xBF |}.
Proof.
  intros H. unfold lead_byte.
  rewrite (proj2 (in_range_false 0 0x7F _)) by lia.
  rewrite (proj2 (in_range_false 0xC2 0xDF _)) by lia.
  rewrite (proj2 (in_range_spec 0xE0 0xEF _)) by lia.
  f_equal. f_equal.
  - bits_to_arith. lia.
  - destruct (N.eqb_spec x 0), (N.eqb_spec (x + 224) 0xE0); try reflexivity; lia.
  - destruct (N.eqb_spec x 13), (N.eqb_spec (x + 224) 0xED); try reflexivity; lia.
Qed.

Lemma lead_byte_4 (x : N) :
  x < 5 ->
  lead_byte (x + 240)
  = Continue {| code_point := x; bytes_seen := 0; bytes_needed := 3;
                lower_boundary := if x =? 0 then 0x90 else 0x80;
                upper_boundary := if x =? 4 then 0x8F else 0xBF |}.
Proof.
  intros H. unfold lead_byte.
  rewrite (proj2 (in_range_false 0 0x7F _)) by lia.
  rewrite (proj2 (in_range_false 0xC2 0xDF _)) by lia.
  rewrite (proj2 (in_range_false 0xE0 0xEF _)) by lia.
  rewrite (proj2 (in_range_spec 0xF0 0xF4 _)) by lia.
  f_equal. f_equal.
  - bits_to_arith. lia.
  - destruct (N.eqb_spec x 0), (N.eqb_spec (x + 240) 0xF0); try reflexivity; lia.
  - destruct (N.eqb_spec x 4), (N.eqb_spec (x + 240) 0xF4); try reflexivity; lia.
Qed.

(** The decoder reads the encoding of a scalar value back. *)
Lemma decoder_encode_scalar (cp : N) (rest : list N) :
  is_scalar cp = true ->
  utf8_decoder initial (utf8_encode_scalar cp ++ rest) = cp :: utf8_decoder initial rest.
Proof.
  intros H. apply is_scalar_spec in H as [Hmax Hsur].
  rewrite utf8_encode_scalar_cases.
  destruct (N.leb_spec cp 0x7F) as [H1|H1];
    [|destruct (N.leb_spec cp 0x7FF) as [H2|H2];
      [|destruct (N.leb_spec cp 0xFFFF) as [H3|H3]]]; cbn [app].
  - now rewrite decoder_fresh, lead_byte_1.
  - rewrite decoder_fresh, lead_byte_2 by lia. cbv iota.
    rewrite decoder_continuation by (apply in_range_spec; lia).
    cbv zeta. cbn [Nat.eqb]. rewrite add_continuation by lia. f_equal. lia.
  - rewrite decoder_fresh, lead_byte_3 by lia. cbv iota.
    rewrite decoder_continuation.
    2:{ apply in_range_spec.
        destruct (N.eqb_spec (cp / 4096) 0), (N.eqb_spec (cp / 4096) 13); lia. }
    cbv zeta. cbn [Nat.eqb].
    rewrite decoder_continuation by (apply in_range_spec; lia).
    cbv zeta. cbn [Nat.eqb]. rewrite !add_continuation by lia. f_equal. lia.
  - rewrite decoder_fresh, lead_byte_4 by lia. cbv iota.
    rewrite decoder_continuation.
    2:{ apply in_range_spec.
        destruct (N.eqb_spec (cp / 262144) 0), (N.eqb_spec (cp / 262144) 4); lia. }
    cbv zeta. cbn [Nat.eqb].
    rewrite decoder_continuation by (apply in_range_spec; lia).
    cbv zeta. cbn [Nat.eqb].
    rewrite decoder_continuation by (apply in_range_spec; lia).
    cbv zeta. cbn [Nat.eqb]. rewrite !add_continuation by lia. f_equal. lia.
Qed.

Lemma decoder_encode (l : list N) :
  forallb is_scalar l = true ->
  utf8_decoder initial (flat_map utf8_encode_scalar l) = l.
Proof.
  induction l as [|cp l IH]; cbn [forallb flat_map]; [reflexivity|].
  intros H. apply andb_true_iff in H as [Hc Hl].
  now rewrite decoder_encode_scalar, IH.
Qed.

Lemma encode_bytes (l : list N) :
  forallb is_scalar l = true ->
  forallb is_byte (flat_map utf8_encode_scalar l) = true.
Proof.
  induction l as [|cp l IH]; cbn [forallb flat_map]; [reflexivity|].
  intros H. apply andb_true_iff in H as [Hc Hl].
  rewrite forallb_app, IH by exact Hl.
  apply is_scalar_spec in Hc as [Hmax _].
  now rewrite utf8_encode_scalar_bytes.
Qed.

(** Only U+FEFF is encoded as the byte order mark. *)
Lemma bom_is_feff (cp : N) (rest : list N) :
  is_scalar cp = true ->
  peek_bom (utf8_encode_scalar cp ++ rest) = true -> cp = 0xFEFF.
Proof.
  intros H Hb.
  assert (E := decoder_encode_scalar cp rest H).
  destruct (utf8_encode_scalar cp ++ rest) as [|b1 [|b2 [|b3 r]]]; try discriminate.
  cbn [peek_bom] in Hb.
  apply andb_true_iff in Hb as [Hb H3]. apply andb_true_iff in Hb as [H1 H2].
  apply N.eqb_eq in H1, H2, H3. subst b1 b2 b3.
  change (utf8_decoder initial (0xEF :: 0xBB :: 0xBF :: r))
    with (0xFEFF :: utf8_decoder initial r) in E.
  now injection E.
Qed.

(** Induction on a well-formed string: one code unit or one surrogate pair
    at a time. *)
Lemma well_formed_ind (P : jsstring -> Prop) :
  P [] ->
  (forall c s, is_lead_surrogate c = false -> is_trail_surrogate c = false ->
               is_code_unit c = true -> P s -> P (c :: s)) ->
  (forall c d s, is_lead_surrogate c = true -> is_trail_surrogate d = true ->
                 P s -> P (c :: d :: s)) ->
  forall s, isWellFormed s = true -> P s.
Proof.
  intros H0 H1 H2. fix IH 1. intros [|c s] H; [exact H0|].
  cbn [isWellFormed] in H. destruct (is_lead_surrogate c) eqn:L.
  - destruct s as [|d s]; [discriminate|].
    apply andb_true_iff in H as [T W]. apply H2; auto.
  - apply andb_true_iff in H as [H W]. apply andb_true_iff in H as [T U].
    apply negb_true_iff in T. apply H1; auto.
Qed.

Lemma surrogate_pair_value (c d : N) :
  is_lead_surrogate c = true -> is_trail_surrogate d = true ->
  0x10000 + N.shiftl (N.land c 0x3FF) 10 + N.land d 0x3FF
  = 0x10000 + (c - 0xD800) * 1024 + (d - 0xDC00).
Proof.
  intros L T. apply in_range_spec in L, T. bits_to_arith. lia.
Qed.

Lemma scalar_values_scalars (s : jsstring) :
  isWellFormed s = true -> forallb is_scalar (scalar_values s) = true.
Proof.
  revert s. apply well_formed_ind.
  - reflexivity.
  - intros c s L T U IH. cbn [scalar_values]. rewrite L, T. cbn [forallb].
    rewrite IH, andb_true_r. apply is_scalar_spec.
    apply in_range_false in L, T. apply N.ltb_lt in U. lia.
  - intros c d s L T IH. cbn [scalar_values]. rewrite L, T. cbn [forallb].
    rewrite IH, andb_true_r, surrogate_pair_value by assumption.
    apply is_scalar_spec. apply in_range_spec in L, T. lia.
Qed.

Lemma code_units_scalar_values (s : jsstring) :
  isWellFormed s = true -> flat_map code_units (scalar_values s) = s.
Proof.
  revert s. apply well_formed_ind.
  - reflexivity.
  - intros c s L T U IH. cbn [scalar_values]. rewrite L, T. cbn [flat_map].
    rewrite IH. unfold code_units. unfold is_code_unit in U. now rewrite U.
  - intros c d s L T IH. cbn [scalar_values]. rewrite L, T. cbn [flat_map].
    rewrite IH, surrogate_pair_value by assumption.
    apply in_range_spec in L, T. unfold code_units.
    rewrite (proj2 (N.ltb_ge _ _)) by lia. cbn [app]. bits_to_arith.
    f_equal; [lia | f_equal; lia].
Qed.

Lemma first_scalar_not_BOM (s : jsstring) :
  isWellFormed s = true -> starts_with_BOM s = false ->
  starts_with_BOM (scalar_values s) = false.
Proof.
  revert s.
  apply (well_formed_ind
           (fun s => starts_with_BOM s = false ->
                     starts_with_BOM (scalar_values s) = false)).
  - reflexivity.
  - intros c s L T U _ H. cbn [scalar_values]. now rewrite L, T.
  - intros c d s L T _ _. cbn [scalar_values]. rewrite L, T.
    cbn [starts_with_BOM]. rewrite surrogate_pair_value by assumption.
    apply N.eqb_neq. apply in_range_spec in L, T. lia.
Qed.

(** [Response.text] reads back what [TextEncoder] wrote, for a well-formed
    string that does not start with U+FEFF. *)
Lemma utf8_decode_encode (text : jsstring) :
  isWellFormed text = true -> starts_with_BOM text = false ->
  utf8_decode (TextEncoder_encode text) = text.
Proof.
  intros W B. unfold utf8_decode, TextEncoder_encode.
  assert (S := scalar_values_scalars text W).
  rewrite map_to_of_N by (now apply encode_bytes).
  assert (Hb : peek_bom (flat_map utf8_encode_scalar (scalar_values text)) = false).
  { apply first_scalar_not_BOM in B; [|exact W].
    destruct (scalar_values text) as [|cp l]; [reflexivity|].
    cbn [flat_map forallb] in *. apply andb_true_iff in S as [Sc _].
    destruct (peek_bom (utf8_encode_scalar cp ++ flat_map utf8_encode_scalar l)) eqn:E;
      [|reflexivity].
    apply bom_is_feff in E; [|exact Sc]. subst cp. discriminate. }
  rewrite Hb, decoder_encode by exact S.
  now apply code_units_scalar_values.
Qed.

End EncodingFacts.

(** ** Claims about the content codec *)

Section CodecClaims.
Import RegExp Compression.
Context {streams : CompressionStreams}.

Lemma token_of_nonempty (z : list byte) : z <> [] -> token_of z <> [].
Proof.
  destruct z as [|a [|b [|c z]]]; [congruence | | |]; intros _; discriminate.
Qed.

(** The empty string is passed through without the streams. *)
Lemma empty_round_trip : compress [] = Return [] /\ decompress [] = Return [].
Proof. split; reflexivity. Qed.

(** C1, as the code has it.  For every well-formed string (no unpaired
    surrogate) that does not start with U+FEFF, [compress] returns a token and
    [decompress] of that token returns the string exactly, provided the gzip
    stream compresses the encoded text to a non-empty byte sequence that the
    gunzip stream expands to the same bytes.  The empty string, single
    characters and surrogate pairs (emoji) are covered. *)
Theorem decompress_compress_well_formed (text : jsstring) (z : list byte) :
  Encoding.isWellFormed text = true ->
  starts_with_BOM text = false ->
  gzip (Encoding.TextEncoder_encode text) = Some z ->
  z <> [] ->
  gunzip z = Some (Encoding.TextEncoder_encode text) ->
  exists token, compress text = Return token /\ decompress token = Return text.
Proof.
  intros W B Hz Hne Hg. destruct text as [|c text].
  - exists []. split; reflexivity.
  - exists (token_of z). rewrite compress_nonempty, Hz. split; [reflexivity|].
    unfold decompress.
    destruct (token_of z) as [|a t] eqn:E; [now apply token_of_nonempty in E|].
    cbn [falsy]. rewrite <- E, token_bytes_token_of, Hg.
    cbn [try_catch]. now rewrite utf8_decode_encode.
Qed.

(** C5, as the code has it.  For every token over the safe alphabet whose
    length does not leave the remainder 1 modulo 4, lines 50 to 58 of
    [decompress] produce bytes: nothing is thrown for the alphabet or the
    padding, and [decompress] returns whenever the gunzip stream accepts the
    bytes. *)
Theorem token_bytes_never_throws (t : jsstring) :
  forallb is_token_char t = true ->
  N.of_nat (List.length t) mod 4 <> 1 ->
  exists bytes,
    token_bytes t = Some bytes
    /\ (forall text, t <> [] -> gunzip bytes = Some text ->
                     decompress t = Return (Encoding.utf8_decode text)).
Proof.
  intros Ht Hlen. destruct (token_bytes_succeeds t Ht Hlen) as [bytes E].
  exists bytes. split; [exact E|].
  intros text Hne Hg. unfold decompress.
  destruct t as [|a t]; [congruence|]. cbn [falsy]. now rewrite E, Hg.
Qed.

(** C9.  Every character of a token returned by [compress] is one of A-Z,
    a-z, 0-9, [-] and [_]; in particular no [=] occurs in it. *)
Theorem compress_token_alphabet (text token : jsstring) :
  compress text = Return token ->
  forallb is_token_char token = true /\ ~ In eq_sign token.
Proof.
  intros H.
  assert (Hc : forallb is_token_char token = true).
  { destruct text as [|c text].
    - cbn in H. injection H as <-. reflexivity.
    - rewrite compress_nonempty in H.
      destruct (gzip (Encoding.TextEncoder_encode (c :: text))) as [z|];
        [|discriminate].
      injection H as <-. apply token_of_chars. }
  split; [exact Hc|].
  intros Hin. rewrite forallb_forall in Hc. apply Hc in Hin. discriminate.
Qed.

(** C10.  For every byte sequence [b], [arrayBufferToBase64(b)] returns a
    string and [base64ToArrayBuffer] of that string returns exactly [b]. *)
Theorem base64_helpers_inverse (b : list byte) :
  exists base64,
    arrayBufferToBase64 b = Some base64 /\ base64ToArrayBuffer base64 = Some b.
Proof.
  exists (Base64.encode (map Uint8.to_N b)). split.
  - apply arrayBufferToBase64_encode.
  - apply base64ToArrayBuffer_encode.
Qed.

End CodecClaims.

Lemma decompress_compress_well_formed_witness :
  exists z,
    Encoding.isWellFormed sample_text = true
    /\ starts_with_BOM sample_text = false
    /\ @gzip ReferenceStreams (Encoding.TextEncoder_encode sample_text) = Some z
    /\ z <> []
    /\ @gunzip ReferenceStreams z = Some (Encoding.TextEncoder_encode sample_text)
    /\ exists token,
         @Compression.compress ReferenceStreams sample_text = Return token
         /\ @Compression.decompress ReferenceStreams token = Return sample_text.
Proof.
  exists (Gzip.deflate (Encoding.TextEncoder_encode sample_text)).
  assert (Hne : Gzip.deflate (Encoding.TextEncoder_encode sample_text) <> [])
    by (vm_compute; discriminate).
  repeat split; try reflexivity; try exact Hne.
  apply (@decompress_compress_well_formed ReferenceStreams sample_text
           (Gzip.deflate (Encoding.TextEncoder_encode sample_text)));
    try reflexivity; exact Hne.
Defined.

(** C1 as stated fails: a leading U+FEFF is dropped by the UTF-8 decode of
    [Response.text], and an unpaired surrogate is replaced by U+FFFD in
    [TextEncoder.encode]. *)
Lemma round_trip_not_exact :
  @round_trip ReferenceStreams [0xFEFF; 0x61] = Return [0x61]
  /\ @round_trip ReferenceStreams [0xFEFF; 0x61] <> Return [0xFEFF; 0x61]
  /\ @round_trip ReferenceStreams [0xD800; 0x61] = Return [0xFFFD; 0x61]
  /\ @round_trip ReferenceStreams [0xD800; 0x61] <> Return [0xD800; 0x61].
Proof.
  assert (E1 : @round_trip ReferenceStreams [0xFEFF; 0x61] = Return [0x61])
    by (vm_compute; reflexivity).
  assert (E2 : @round_trip ReferenceStreams [0xD800; 0x61] = Return [0xFFFD; 0x61])
    by (vm_compute; reflexivity).
  rewrite E1, E2. repeat split; discriminate.
Qed.

Lemma token_bytes_never_throws_witness :
  forallb is_token_char (js "H4sIAA") = true
  /\ N.of_nat (List.length (js "H4sIAA")) mod 4 <> 1
  /\ exists bytes,
       Compression.token_bytes (js "H4sIAA") = Some bytes
       /\ (forall text, js "H4sIAA" <> [] -> @gunzip ReferenceStreams bytes = Some text ->
             @Compression.decompress ReferenceStreams (js "H4sIAA")
             = Return (Encoding.utf8_decode text)).
Proof.
  split; [reflexivity|]. split; [vm_compute; discriminate|].
  apply (@token_bytes_never_throws ReferenceStreams (js "H4sIAA"));
    [reflexivity | vm_compute; discriminate].
Defined.

(** C5 as stated fails for a token of length 1 modulo 4: three [=] are
    appended and [atob] rejects the result. *)
Lemma token_bytes_throws_on_length_1 :
  forallb is_token_char (js "A") = true
  /\ Compression.token_bytes (js "A") = None
  /\ forallb is_token_char (js "AAAAA") = true
  /\ Compression.token_bytes (js "AAAAA") = None
  /\ @Compression.decompress ReferenceStreams (js "A")
     = Throw (js "Failed to decompress content").
Proof. repeat split; vm_compute; reflexivity. Qed.

Lemma compress_token_alphabet_witness :
  @Compression.compress ReferenceStreams (js "hello")
  = Return (js "H4sIAAAAAAAA_wEFAPr_aGVsbG-GphA2BQAAAA")
  /\ forallb is_token_char (js "H4sIAAAAAAAA_wEFAPr_aGVsbG-GphA2BQAAAA") = true
  /\ ~ In eq_sign (js "H4sIAAAAAAAA_wEFAPr_aGVsbG-GphA2BQAAAA").
Proof.
  assert (E : @Compression.compress ReferenceStreams (js "hello")
              = Return (js "H4sIAAAAAAAA_wEFAPr_aGVsbG-GphA2BQAAAA"))
    by (vm_compute; reflexivity).
  split; [exact E|].
  exact (@compress_token_alphabet ReferenceStreams _ _ E).
Defined.

(** ** The sanitizer *)

Section StringFacts.

Lemma eqb_eq (s t : jsstring) : JS.eqb s t = true <-> s = t.
Proof.
  revert t. induction s as [|a s IH]; intros [|b t]; cbn [JS.eqb];
    try (split; [discriminate | congruence]).
  - tauto.
  - rewrite andb_true_iff, N.eqb_eq, IH. split; [intros [-> ->] | intros [= -> ->]]; auto.
Qed.

Lemma eqb_refl (s : jsstring) : JS.eqb s s = true.
Proof. now apply eqb_eq. Qed.

Lemma member_In (s : jsstring) (l : list jsstring) : DOM.member s l = true <-> In s l.
Proof.
  unfold DOM.member. rewrite existsb_exists. split.
  - intros [x [Hx E]]. apply eqb_eq in E. now subst.
  - intros H. exists s. split; [exact H | apply eqb_refl].
Qed.

End StringFacts.

Section SanitizerFacts.
Import RegExp DOM Sanitizer.

(** Induction on a tree, with the property for every child of an element. *)
Lemma node_induction (P : node -> Prop) :
  (forall data, P (Text data)) ->
  (forall data, P (Comment data)) ->
  (forall ns name attrs children,
      Forall P children -> P (Element ns name attrs children)) ->
  forall n, P n.
Proof.
  intros HT HC HE. fix IH 1. intros [data | ns name attrs children | data].
  - apply HT.
  - apply HE. induction children as [|c cs IHcs]; constructor; [apply IH | exact IHcs].
  - apply HC.
Qed.

Lemma cleaned_element (ns : namespace) (name : jsstring)
    (attrs : list (jsstring * jsstring)) (children : list node) :
  cleaned (Element ns name attrs children) = container (flat_map clean_child children).
Proof.
  cbn [cleaned]. f_equal.
  induction children as [|[data | cns cname cattrs cchildren | data] rest IH];
    cbn [flat_map clean_child app]; try reflexivity; now rewrite <- IH.
Qed.

Lemma allowed_tag_cases (t : jsstring) :
  ALLOWED_TAGS_has t = true -> In t ALLOWED_TAGS.
Proof. apply member_In. Qed.

(** [createElement] does not throw for a member of the allow-list and
    creates an element of that name without attributes or children. *)
Lemma createElement_allowed (t : jsstring) :
  ALLOWED_TAGS_has t = true -> createElement t = Some (Element HTML t [] []).
Proof.
  intros H. apply allowed_tag_cases in H. cbn [ALLOWED_TAGS map In] in H.
  repeat (destruct H as [<- | H]; [reflexivity|]). contradiction.
Qed.

Lemma cleaned_in_vocabulary (n : node) : in_vocabulary (cleaned n) = true.
Proof.
  induction n as [data | data | ns name attrs children IH] using node_induction;
    try reflexivity.
  rewrite cleaned_element. unfold container. cbn [in_vocabulary andb].
  change (ALLOWED_TAGS_has (js "div")) with true. cbn [andb].
  induction IH as [|child rest Hc Hrest IHrest]; [reflexivity|].
  cbn [flat_map]. rewrite forallb_app, IHrest, andb_true_r.
  destruct child as [data | cns cname cattrs cchildren | data]; try reflexivity.
  cbn [clean_child forallb]. rewrite andb_true_r.
  destruct (ALLOWED_TAGS_has (lookup_name cns cname)) eqn:A; [|exact Hc].
  cbn [in_vocabulary forallb]. now rewrite A, Hc.
Qed.

Lemma occurs_skip (c : N) (s : jsstring) :
  not_lt c = true -> occurs_ci script_open (c :: s) = occurs_ci script_open s.
Proof.
  intros H. apply negb_true_iff, N.eqb_neq in H.
  cbn [occurs_ci]. change script_open with (60 :: js "script") at 1.
  cbn [prefix_ci]. change (ascii_lower_unit 60) with 60.
  assert (E : (ascii_lower_unit c =? 60) = false).
  { apply N.eqb_neq. unfold ascii_lower_unit.
    destruct (is_upper c) eqn:U; [apply in_range_spec in U|]; lia. }
  now rewrite E.
Qed.

Lemma occurs_skip_all (u s : jsstring) :
  forallb not_lt u = true -> occurs_ci script_open (u ++ s) = occurs_ci script_open s.
Proof.
  induction u as [|c u IH]; cbn [forallb app]; [reflexivity|].
  intros H. apply andb_true_iff in H as [Hc Hu]. now rewrite occurs_skip, IH.
Qed.

Lemma escape_not_lt (data : jsstring) : forallb not_lt (escape false data) = true.
Proof.
  induction data as [|c data IH]; [reflexivity|].
  cbn [escape flat_map]. fold (escape false data). rewrite forallb_app, IH, andb_true_r.
  unfold escape_unit.
  destruct (c =? 38); [reflexivity|]. destruct (c =? 160); [reflexivity|].
  destruct (N.eqb_spec c 60); [reflexivity|]. destruct (c =? 62); [reflexivity|].
  cbn [andb forallb]. unfold not_lt. now rewrite (proj2 (N.eqb_neq c 60)).
Qed.

Lemma allowed_not_raw (t : jsstring) :
  ALLOWED_TAGS_has t = true -> member t raw_text_parents = false.
Proof.
  intros H. apply allowed_tag_cases in H. cbn [ALLOWED_TAGS map In] in H.
  repeat (destruct H as [<- | H]; [reflexivity|]). contradiction.
Qed.

Lemma open_tag_script_free (t rest : jsstring) :
  ALLOWED_TAGS_has t = true -> occurs_ci script_open rest = false ->
  occurs_ci script_open (js "<" ++ t ++ js ">" ++ rest) = false.
Proof.
  intros H R. apply allowed_tag_cases in H. cbn [ALLOWED_TAGS map In] in H.
  change (js "<" ++ t ++ js ">" ++ rest) with (60 :: t ++ js ">" ++ rest).
  cbn [occurs_ci]. rewrite app_assoc, occurs_skip_all, R.
  - repeat (destruct H as [<- | H]; [reflexivity|]). contradiction.
  - repeat (destruct H as [<- | H]; [reflexivity|]). contradiction.
Qed.

Lemma close_tag_script_free (t rest : jsstring) :
  ALLOWED_TAGS_has t = true -> occurs_ci script_open rest = false ->
  occurs_ci script_open (js "</" ++ t ++ js ">" ++ rest) = false.
Proof.
  intros H R. apply allowed_tag_cases in H.
  change (js "</" ++ t ++ js ">" ++ rest) with (60 :: (47 :: t) ++ js ">" ++ rest).
  cbn [occurs_ci]. rewrite app_assoc, occurs_skip_all, R.
  - reflexivity.
  - cbn [ALLOWED_TAGS map In] in H.
    repeat (destruct H as [<- | H]; [reflexivity|]). contradiction.
Qed.

(** The serialization of a tree of the safe vocabulary is made of escaped
    text and of the plain tags of the allow-list: a property of strings that
    is kept when one such piece is put in front holds of it. *)
Lemma serialize_by_pieces (Q : jsstring -> Prop) :
  (forall data rest, Q rest -> Q (escape false data ++ rest)) ->
  (forall t rest, ALLOWED_TAGS_has t = true -> Q rest ->
                  Q (js "<" ++ t ++ js ">" ++ rest)) ->
  (forall t rest, ALLOWED_TAGS_has t = true -> Q rest ->
                  Q (js "</" ++ t ++ js ">" ++ rest)) ->
  forall n, in_vocabulary n = true ->
            forall rest, Q rest -> Q (serialize false n ++ rest).
Proof.
  intros Qtext Qopen Qclose n.
  induction n as [data | data | ns name attrs children IH] using node_induction;
    intros V rest R.
  - cbn [serialize]. now apply Qtext.
  - discriminate.
  - cbn [in_vocabulary] in V.
    apply andb_true_iff in V as [V Vc]. apply andb_true_iff in V as [V Va].
    apply andb_true_iff in V as [Vn Vt].
    destruct ns; try discriminate. destruct attrs; [|discriminate].
    cbn [serialize flat_map andb app]. rewrite (allowed_not_raw _ Vt).
    rewrite <- !app_assoc. apply Qopen; [exact Vt|].
    destruct (member name void_elements); [exact R|].
    rewrite <- !app_assoc.
    assert (C := Qclose name rest Vt R).
    revert C. generalize (js "</" ++ name ++ js ">" ++ rest). intros tail C.
    clear R. induction IH as [|child cs Hc Hcs IHcs]; [exact C|].
    cbn [forallb] in Vc. apply andb_true_iff in Vc as [V1 V2].
    cbn [flat_map]. rewrite <- app_assoc. apply Hc; [exact V1|]. now apply IHcs.
Qed.

Lemma serialize_all_by_pieces (Q : jsstring -> Prop) :
  Q [] ->
  (forall data rest, Q rest -> Q (escape false data ++ rest)) ->
  (forall t rest, ALLOWED_TAGS_has t = true -> Q rest ->
                  Q (js "<" ++ t ++ js ">" ++ rest)) ->
  (forall t rest, ALLOWED_TAGS_has t = true -> Q rest ->
                  Q (js "</" ++ t ++ js ">" ++ rest)) ->
  forall nodes, forallb in_vocabulary nodes = true ->
                Q (flat_map (serialize false) nodes).
Proof.
  intros Q0 Qtext Qopen Qclose nodes V.
  rewrite <- (app_nil_r (flat_map _ nodes)).
  induction nodes as [|n nodes IH]; [exact Q0|].
  cbn [forallb] in V. apply andb_true_iff in V as [V1 V2].
  cbn [flat_map]. rewrite <- app_assoc. apply serialize_by_pieces; auto.
Qed.

(** The serialization of nodes of the safe vocabulary does not start a
    script tag anywhere. *)
Lemma serialize_all_script_free (nodes : list node) :
  forallb in_vocabulary nodes = true ->
  occurs_ci script_open (flat_map (serialize false) nodes) = false.
Proof.
  apply (serialize_all_by_pieces (fun s => occurs_ci script_open s = false)).
  - reflexivity.
  - intros data rest R. now rewrite occurs_skip_all by apply escape_not_lt.
  - intros t rest. apply open_tag_script_free.
  - intros t rest. apply close_tag_script_free.
Qed.

Lemma escape_not_angle (data : jsstring) : forallb not_angle (escape false data) = true.
Proof.
  induction data as [|c data IH]; [reflexivity|].
  cbn [escape flat_map]. fold (escape false data). rewrite forallb_app, IH, andb_true_r.
  unfold escape_unit.
  destruct (c =? 38); [reflexivity|]. destruct (c =? 160); [reflexivity|].
  destruct (N.eqb_spec c 60); [reflexivity|]. destruct (N.eqb_spec c 62); [reflexivity|].
  cbn [andb forallb]. unfold not_angle.
  now rewrite (proj2 (N.eqb_neq c 60)), (proj2 (N.eqb_neq c 62)).
Qed.

Lemma only_plain_tags_text (u rest : jsstring) :
  forallb not_angle u = true ->
  only_plain_tags 0 (u ++ rest) = only_plain_tags 0 rest.
Proof.
  induction u as [|c u IH]; cbn [forallb app]; [reflexivity|].
  intros H. apply andb_true_iff in H as [Hc Hu].
  unfold not_angle in Hc. apply andb_true_iff in Hc as [H1 H2].
  apply negb_true_iff in H1, H2. cbn [only_plain_tags]. rewrite H1, H2. now apply IH.
Qed.

Lemma only_plain_tags_open (t rest : jsstring) :
  ALLOWED_TAGS_has t = true ->
  only_plain_tags 0 (js "<" ++ t ++ js ">" ++ rest) = only_plain_tags 0 rest.
Proof.
  intros H. apply allowed_tag_cases in H. cbn [ALLOWED_TAGS map In] in H.
  repeat (destruct H as [<- | H]; [reflexivity|]). contradiction.
Qed.

Lemma only_plain_tags_close (t rest : jsstring) :
  ALLOWED_TAGS_has t = true ->
  only_plain_tags 0 (js "</" ++ t ++ js ">" ++ rest) = only_plain_tags 0 rest.
Proof.
  intros H. apply allowed_tag_cases in H. cbn [ALLOWED_TAGS map In] in H.
  repeat (destruct H as [<- | H]; [reflexivity|]). contradiction.
Qed.

(** In the serialization of nodes of the safe vocabulary every tag is a
    plain tag of the allow-list. *)
Lemma serialize_all_plain_tags (nodes : list node) :
  forallb in_vocabulary nodes = true ->
  only_plain_tags 0 (flat_map (serialize false) nodes) = true.
Proof.
  apply (serialize_all_by_pieces (fun s => only_plain_tags 0 s = true)).
  - reflexivity.
  - intros data rest R. now rewrite only_plain_tags_text by apply escape_not_angle.
  - intros t rest A R. now rewrite only_plain_tags_open.
  - intros t rest A R. now rewrite only_plain_tags_close.
Qed.

End SanitizerFacts.

(** ** [cleanNode] on the objects of a parsed document *)

Section ReadingFacts.
Import RegExp DOM Sanitizer.
Context {parser : DOMParser}.

Lemma cleanNode_step (depth : nat) (o : object) :
  cleanNode (S depth) o
  = match get_childNodes o with
    | Some os =>
        match fragment_of depth os with
        | Return fragment => Return (container fragment)
        | Throw error => Throw error
        end
    | None => Throw (js "TypeError")
    end.
Proof.
  cbn [cleanNode]. destruct (get_childNodes o) as [os|]; [|reflexivity].
  cbn [or_throw]. fold (fragment_of depth).
  now destruct (fragment_of depth os).
Qed.

Lemma fragment_of_cons (depth : nat) (child : object) (rest : list object) :
  fragment_of depth (child :: rest)
  = if strictly_equal (get_nodeType child) TEXT_NODE then
      match fragment_of depth rest with
      | Return fragment => Return (Text (get_textContent child) :: fragment)
      | Throw error => Throw error
      end
    else if strictly_equal (get_nodeType child) ELEMENT_NODE then
      match get_tagName child with
      | Plain t =>
          match cleanNode depth child with
          | Return cleanChildren =>
              match fragment_of depth rest with
              | Return fragment =>
                  Return ((if ALLOWED_TAGS_has (toLowerCase t)
                           then Element HTML (toLowerCase t) [] [cleanChildren]
                           else cleanChildren) :: fragment)
              | Throw error => Throw error
              end
          | Throw error => Throw error
          end
      | Exotic => Throw (js "TypeError")
      end
    else fragment_of depth rest.
Proof.
  cbn [fragment_of]. fold (fragment_of depth).
  destruct (strictly_equal (get_nodeType child) TEXT_NODE); [reflexivity|].
  destruct (strictly_equal (get_nodeType child) ELEMENT_NODE); [|reflexivity].
  destruct (get_tagName child) as [t|]; [|reflexivity]. cbn [toLowerCase_of].
  destruct (ALLOWED_TAGS_has (toLowerCase t)) eqn:A; [|reflexivity].
  rewrite (createElement_allowed _ A). cbn [or_throw].
  change (allowed_attributes (toLowerCase t)) with (@nil jsstring).
  cbn [copy_attributes].
  destruct (cleanNode depth child); [|reflexivity].
  now destruct (fragment_of depth rest).
Qed.

Lemma strictly_equal_value (value : property N) (k : N) :
  strictly_equal value k = true <-> value = Plain k.
Proof.
  destruct value as [v|]; cbn [strictly_equal]; [|split; discriminate].
  rewrite N.eqb_eq. split; [now intros -> | now intros [= ->]].
Qed.

Lemma reads_as_element (ns : namespace) (name : jsstring)
    (attrs : list (jsstring * jsstring)) (children : list node) (o : object) :
  reads_as (Element ns name attrs children) o = true <->
  get_nodeType o = Plain ELEMENT_NODE
  /\ get_tagName o = Plain (tagName ns name)
  /\ children_read_as children o = true.
Proof.
  change (reads_as (Element ns name attrs children) o)
    with (strictly_equal (get_nodeType o) ELEMENT_NODE
          && match get_tagName o with
             | Plain t => JS.eqb t (tagName ns name)
             | Exotic => false
             end
          && children_read_as children o).
  rewrite !andb_true_iff, strictly_equal_value.
  destruct (get_tagName o) as [t|].
  - rewrite eqb_eq. split; [intros [[H1 H2] H3] | intros [H1 [H2 H3]]];
      repeat split; congruence.
  - split; [intros [[_ H] _]; discriminate | intros [_ [H _]]; discriminate].
Qed.

Lemma children_read_as_cases (children : list node) (o : object) :
  children_read_as children o = true ->
  exists os, get_childNodes o = Some os
             /\ Forall2 (fun child o' => reads_as child o' = true) children os.
Proof.
  unfold children_read_as. destruct (get_childNodes o) as [os|]; [|discriminate].
  intros H. exists os. split; [reflexivity|].
  revert os H. induction children as [|child children IH]; intros [|o' os] H;
    try discriminate; constructor.
  - now apply andb_true_iff in H.
  - apply IH. now apply andb_true_iff in H.
Qed.

(** On objects that read as a tree, within the depth, [cleanNode] returns
    [cleaned] of the tree. *)
Lemma cleanNode_children (depth : nat) :
  forall children o,
    children_read_as children o = true ->
    (depth_of children <= depth)%nat ->
    cleanNode depth o = Return (container (flat_map clean_child children)).
Proof.
  induction depth as [|depth IH]; intros children o R D; [unfold depth_of in D; lia|].
  rewrite cleanNode_step.
  destruct (children_read_as_cases children o R) as [os [-> F]].
  assert (E : fragment_of depth os = Return (flat_map clean_child children));
    [|now rewrite E].
  unfold depth_of in D. apply le_S_n in D. clear R.
  induction F as [|child o' children os Hc F IHF]; [reflexivity|].
  cbn [fold_right] in D. rewrite fragment_of_cons.
  assert (D' : (fold_right (fun c h => Nat.max (height c) h) O children <= depth)%nat)
    by lia.
  specialize (IHF D').
  destruct child as [data | cns cname cattrs cchildren | data].
  - cbn [reads_as] in Hc. apply andb_true_iff in Hc as [T E].
    rewrite T, IHF. apply eqb_eq in E. now rewrite E.
  - apply reads_as_element in Hc as [T [N C]].
    rewrite T, N. change (strictly_equal (Plain ELEMENT_NODE) TEXT_NODE) with false.
    change (strictly_equal (Plain ELEMENT_NODE) ELEMENT_NODE) with true. cbv iota.
    rewrite (IH cchildren o' C) by (cbn [height] in D; unfold depth_of; lia).
    rewrite IHF. fold (lookup_name cns cname). cbn [flat_map clean_child app].
    now rewrite cleaned_element.
  - cbn [reads_as] in Hc. apply strictly_equal_value in Hc. rewrite Hc.
    change (strictly_equal (Plain 8) TEXT_NODE) with false.
    change (strictly_equal (Plain 8) ELEMENT_NODE) with false. cbv iota.
    exact IHF.
Qed.

(** Whatever [cleanNode] returns is a [div] container of nodes of the safe
    vocabulary: it is built from new text nodes and new elements of the
    allow-list only. *)
Lemma cleanNode_vocabulary (depth : nat) :
  forall o cleanedNode,
    cleanNode depth o = Return cleanedNode ->
    exists fragment,
      cleanedNode = container fragment /\ forallb in_vocabulary fragment = true.
Proof.
  induction depth as [|depth IH]; intros o cleanedNode H; [discriminate|].
  rewrite cleanNode_step in H.
  destruct (get_childNodes o) as [os|]; [|discriminate].
  destruct (fragment_of depth os) as [fragment|] eqn:E; [|discriminate].
  injection H as <-. exists fragment. split; [reflexivity|].
  revert fragment E. induction os as [|child os IHos]; intros fragment E.
  - injection E as <-. reflexivity.
  - rewrite fragment_of_cons in E.
    destruct (strictly_equal (get_nodeType child) TEXT_NODE).
    { destruct (fragment_of depth os) as [rest|]; [|discriminate].
      injection E as <-. cbn [forallb in_vocabulary]. now apply IHos. }
    destruct (strictly_equal (get_nodeType child) ELEMENT_NODE); [|now apply IHos].
    destruct (get_tagName child) as [t|]; [|discriminate].
    destruct (cleanNode depth child) as [cleanChildren|] eqn:C; [|discriminate].
    destruct (fragment_of depth os) as [rest|]; [|discriminate].
    injection E as <-. cbn [forallb]. rewrite (IHos rest eq_refl), andb_true_r.
    destruct (IH child cleanChildren C) as [inner [-> V]].
    assert (Vc : in_vocabulary (container inner) = true).
    { unfold container. cbn [in_vocabulary andb].
      change (ALLOWED_TAGS_has (js "div")) with true. exact V. }
    destruct (ALLOWED_TAGS_has (toLowerCase t)) eqn:A; [|exact Vc].
    cbn [in_vocabulary forallb andb]. now rewrite A, Vc.
Qed.

(** [cleanNode] returns exactly on the objects that are [readable]. *)
Lemma cleanNode_returns_iff (depth : nat) :
  forall o, (exists cleanedNode, cleanNode depth o = Return cleanedNode)
            <-> readable depth o = true.
Proof.
  induction depth as [|depth IH]; intros o.
  - cbn [cleanNode readable]. split; [intros [n H]; discriminate | discriminate].
  - rewrite cleanNode_step. cbn [readable].
    destruct (get_childNodes o) as [os|];
      [|split; [intros [n H]; discriminate | discriminate]].
    assert (K : (exists fragment, fragment_of depth os = Return fragment)
                <-> forallb
                      (fun child =>
                         if strictly_equal (get_nodeType child) TEXT_NODE then true
                         else if strictly_equal (get_nodeType child) ELEMENT_NODE then
                           match get_tagName child with
                           | Plain _ => readable depth child
                           | Exotic => false
                           end
                         else true) os = true).
    { induction os as [|child os IHos]; [split; [reflexivity | now exists []]|].
      rewrite fragment_of_cons. cbn [forallb]. rewrite andb_true_iff, <- IHos.
      destruct (strictly_equal (get_nodeType child) TEXT_NODE).
      { split.
        - intros [f H]. split; [reflexivity|].
          destruct (fragment_of depth os) as [rest|]; [now exists rest | discriminate].
        - intros [_ [rest ->]]. eauto. }
      destruct (strictly_equal (get_nodeType child) ELEMENT_NODE);
        [|split; [intros H; now split | now intros [_ H]]].
      destruct (get_tagName child) as [t|];
        [|split; [intros [f H]; discriminate | intros [H _]; discriminate]].
      rewrite <- IH. split.
      - intros [f H].
        destruct (cleanNode depth child) as [c|]; [|discriminate].
        destruct (fragment_of depth os) as [rest|]; [|discriminate]. split; eauto.
      - intros [[c ->] [rest ->]]. eauto. }
    rewrite <- K. split.
    + intros [n H]. destruct (fragment_of depth os) as [f|]; [eauto | discriminate].
    + intros [f ->]. eauto.
Qed.

Lemma sanitize_string (c : N) (s : jsstring) :
  sanitize (VString (c :: s))
  = match cleanNode call_depth (parse_body (prefilter (c :: s))) with
    | Return cleanedBody => Return (innerHTML cleanedBody)
    | Throw error => Throw error
    end.
Proof. reflexivity. Qed.

Lemma sanitize_not_string (html : value) :
  is_string html = false -> sanitize html = Return [].
Proof.
  intros H. unfold sanitize. rewrite H. cbn [negb]. now rewrite orb_true_r.
Qed.

(** What [sanitize] returns is the serialization of nodes of the safe
    vocabulary. *)
Lemma sanitize_vocabulary (html : value) (out : jsstring) :
  sanitize html = Return out ->
  exists nodes,
    out = flat_map (serialize false) nodes /\ forallb in_vocabulary nodes = true.
Proof.
  destruct html as [| | b | n | [|c s] |];
    try (rewrite sanitize_not_string by reflexivity; intros [= <-]; now exists []).
  - intros [= <-]. now exists [].
  - rewrite sanitize_string.
    destruct (cleanNode call_depth (parse_body (prefilter (c :: s)))) as [body|] eqn:E;
      [|discriminate].
    intros [= <-]. destruct (cleanNode_vocabulary _ _ _ E) as [fragment [-> V]].
    now exists fragment.
Qed.

(** On a body whose children read as trees, within the call depth,
    [sanitize] returns the serialization of their clean copies. *)
Lemma sanitize_children (c : N) (s : jsstring) (children : list node) :
  children_read_as children (parse_body (prefilter (c :: s))) = true ->
  (depth_of children <= call_depth)%nat ->
  sanitize (VString (c :: s))
  = Return (flat_map (serialize false) (flat_map clean_child children)).
Proof.
  intros R D. now rewrite sanitize_string, (cleanNode_children _ children).
Qed.

End ReadingFacts.

Section TextFacts.
Import RegExp DOM Sanitizer.




Lemma serialize_plain_element (t : jsstring) (children : list node) (rest : jsstring) :
  ALLOWED_TAGS_has t = true ->
  serialize false (Element HTML t [] children) ++ rest
  = js "<" ++ t ++ js ">"
    ++ (if member t void_elements then rest
        else flat_map (serialize false) children ++ js "</" ++ t ++ js ">" ++ rest).
Proof.
  intros A. cbn [serialize flat_map andb app]. rewrite (allowed_not_raw _ A).
  destruct (member t void_elements); now rewrite <- ?app_assoc.
Qed.



End TextFacts.

(** ** Claims about the sanitizer *)

Section SanitizerClaims.
Import RegExp DOM Sanitizer.
Context {parser : DOMParser}.

(** What [sanitize] returns has plain tags of the allow-list only and no
    script tag. *)
Lemma sanitize_output_plain (html : value) (out : jsstring) :
  sanitize html = Return out ->
  only_plain_tags 0 out = true /\ occurs_ci script_open out = false.
Proof.
  intros H. destruct (sanitize_vocabulary html out H) as [nodes [-> V]].
  split; [now apply serialize_all_plain_tags | now apply serialize_all_script_free].
Qed.

(** C2.  Whenever [sanitize] returns, what it returns is the serialization
    of a list of nodes in which every element is an HTML element whose tag is
    in the allow-list and that carries no attribute (and there is no
    comment); as a string, every [<] in it starts [<t>] or [</t>] for a tag
    [t] of the allow-list, and it has no other [<] or [>]. *)
Theorem sanitize_output_vocabulary (html : value) (out : jsstring) :
  sanitize html = Return out ->
  exists nodes,
    out = flat_map (serialize false) nodes
    /\ forallb in_vocabulary nodes = true
    /\ only_plain_tags 0 out = true.
Proof.
  intros H. destruct (sanitize_vocabulary html out H) as [nodes [E V]].
  exists nodes. split; [exact E|]. split; [exact V|].
  rewrite E. now apply serialize_all_plain_tags.
Qed.

(** C3.  Whenever [sanitize] returns, for markup with or without a script
    block, ["<script"] occurs nowhere in what it returns, in any casing. *)
Theorem sanitize_output_has_no_script_tag (html : value) (out : jsstring) :
  sanitize html = Return out -> occurs_ci script_open out = false.
Proof.
  intros H. destruct (sanitize_vocabulary html out H) as [nodes [-> V]].
  now apply serialize_all_script_free.
Qed.


(** C8, as the code has it.  [sanitize] returns the empty string for
    [undefined], [null], a boolean, a number, an object and the empty
    string.  For a non-empty string it returns exactly when every element
    that [cleanNode] visits in the body of the parsed document has a child
    list that can be read and a tag name that is a string, within the call
    depth; so it does whenever the children of the body read as trees. *)
Theorem sanitize_returns_on_readable_body :
  sanitize VUndefined = Return []
  /\ sanitize VNull = Return []
  /\ (forall b, sanitize (VBoolean b) = Return [])
  /\ (forall n, sanitize (VNumber n) = Return [])
  /\ sanitize VObject = Return []
  /\ sanitize (VString []) = Return []
  /\ (forall c s,
         (exists out, sanitize (VString (c :: s)) = Return out)
         <-> readable call_depth (parse_body (prefilter (c :: s))) = true)
  /\ (forall c s children,
         children_read_as children (parse_body (prefilter (c :: s))) = true ->
         (depth_of children <= call_depth)%nat ->
         exists out, sanitize (VString (c :: s)) = Return out).
Proof.
  repeat (split; [intros; now apply sanitize_not_string|]).
  split; [reflexivity|]. split.
  - intros c s. split.
    + intros [out H]. apply cleanNode_returns_iff. rewrite sanitize_string in H.
      destruct (cleanNode call_depth (parse_body (prefilter (c :: s)))) as [body|];
        [now exists body | discriminate].
    + intros H. apply cleanNode_returns_iff in H as [body H].
      rewrite sanitize_string, H. eauto.
  - intros c s children R D. rewrite (sanitize_children c s children) by assumption.
    eauto.
Qed.

End SanitizerClaims.

Section LineFacts.
Import RegExp DOM Sanitizer.

Lemma unmatched_replace (re : regexp) (by_ s : jsstring) :
  matched re s = false -> replace s re by_ = s.
Proof.
  unfold matched, replace. generalize (@nil N).
  destruct (global re).
  - induction s as [|a s IH]; intros seen H; rewrite replaceGlobal_scan;
      cbn [matches_from] in H;
      destruct (matchAt (ignoreCase re) (source re) seen _); try discriminate;
      [reflexivity|].
    f_equal. now apply IH.
  - induction s as [|a s IH]; intros seen H; rewrite replaceFirst_scan;
      cbn [matches_from] in H;
      destruct (matchAt (ignoreCase re) (source re) seen _); try discriminate;
      [reflexivity|].
    f_equal. now apply IH.
Qed.

(** Markup in which no pattern matches passes the first pass of [sanitize]
    unchanged. *)
Lemma unmatched_prefilter (s : jsstring) : unmatched s = true -> prefilter s = s.
Proof.
  unfold unmatched, prefilter, DANGEROUS_PATTERNS. intros H.
  apply negb_true_iff in H. cbn [existsb] in H.
  repeat (apply orb_false_iff in H as [?M H]).
  cbn [fold_left]. now repeat rewrite (unmatched_replace _ _ s) by assumption.
Qed.

Lemma only_br_tags_text (u rest : jsstring) :
  forallb not_angle u = true ->
  only_br_tags 0 (u ++ rest) = only_br_tags 0 rest.
Proof.
  induction u as [|c u IH]; cbn [forallb app]; [reflexivity|].
  intros H. apply andb_true_iff in H as [Hc Hu].
  unfold not_angle in Hc. apply andb_true_iff in Hc as [H1 H2].
  apply negb_true_iff in H1, H2. cbn [only_br_tags]. rewrite H1, H2. now apply IH.
Qed.

(** The only tag of the allow-list that markup with [<br>] tags only can
    open is [br]. *)
Lemma only_br_tags_open (t rest : jsstring) :
  ALLOWED_TAGS_has t = true ->
  only_br_tags 0 (js "<" ++ t ++ js ">" ++ rest) = true ->
  t = js "br" /\ only_br_tags 0 rest = true.
Proof.
  intros A. apply allowed_tag_cases in A. cbn [ALLOWED_TAGS map In] in A.
  repeat (destruct A as [<- | A];
          [first [ discriminate | intros H; split; [reflexivity | exact H] ]|]).
  contradiction.
Qed.

Lemma line_nodes_of_markup (nodes : list node) :
  forallb in_vocabulary nodes = true ->
  forall rest,
    only_br_tags 0 (flat_map (serialize false) nodes ++ rest) = true ->
    forallb is_line_node nodes = true /\ only_br_tags 0 rest = true.
Proof.
  induction nodes as [|n nodes IH]; intros V rest H; [now split|].
  cbn [forallb] in V. apply andb_true_iff in V as [Vn V].
  cbn [flat_map forallb] in *. rewrite <- app_assoc in H.
  destruct n as [data | ns name attrs children | data]; [| |discriminate].
  - rewrite only_br_tags_text in H by apply escape_not_angle. now apply IH.
  - cbn [in_vocabulary] in Vn.
    apply andb_true_iff in Vn as [Vn _]. apply andb_true_iff in Vn as [Vn Va].
    apply andb_true_iff in Vn as [Vn Vt].
    destruct ns; try discriminate. destruct attrs; [|discriminate].
    rewrite (serialize_plain_element _ _ _ Vt) in H.
    apply (only_br_tags_open _ _ Vt) in H as [-> H].
    change (member (js "br") void_elements) with true in H. cbv iota in H.
    cbn [is_line_node]. now apply IH.
Qed.

Lemma escape_app (a b : jsstring) : escape false (a ++ b) = escape false a ++ escape false b.
Proof. apply flat_map_app. Qed.

Lemma lines_of_markup (nodes : list node) :
  forallb is_line_node nodes = true ->
  forall first,
    escape false first ++ flat_map (serialize false) nodes
    = markup_of (fst (lines_of first nodes)) (snd (lines_of first nodes)).
Proof.
  induction nodes as [|n nodes IH]; intros L first.
  - unfold markup_of. reflexivity.
  - cbn [forallb] in L. apply andb_true_iff in L as [Ln L].
    destruct n as [data | ns name attrs children | data]; [| |discriminate].
    + cbn [lines_of flat_map serialize]. rewrite <- (IH L), escape_app.
      now rewrite <- app_assoc.
    + cbn [is_line_node] in Ln. destruct ns; try discriminate.
      destruct attrs; [|discriminate]. apply eqb_eq in Ln. subst name.
      cbn [lines_of fst snd flat_map]. unfold markup_of at 1. cbn [flat_map].
      rewrite <- app_assoc. fold (markup_of (fst (lines_of [] nodes))
                                            (snd (lines_of [] nodes))).
      rewrite <- (IH L []). reflexivity.
Qed.

Lemma lines_of_texts (nodes : list node) :
  forallb is_text nodes = true -> forall first, snd (lines_of first nodes) = [].
Proof.
  induction nodes as [|n nodes IH]; intros T first; [reflexivity|].
  cbn [forallb] in T. apply andb_true_iff in T as [Tn T].
  destruct n; try discriminate. cbn [lines_of]. now apply IH.
Qed.

Lemma clean_text_node (data : jsstring) :
  flat_map (serialize false) (flat_map clean_child (text_node data)) = escape false data.
Proof. destruct data; [reflexivity|]. cbn [text_node flat_map clean_child app serialize].
  now rewrite app_nil_r. Qed.

(** Cleaning the nodes of markup of text and line breaks gives nodes with
    the same markup. *)
Lemma clean_nodes_of (first : jsstring) (more : list jsstring) :
  flat_map (serialize false) (flat_map clean_child (nodes_of first more))
  = markup_of first more.
Proof.
  unfold nodes_of, markup_of. rewrite !flat_map_app, clean_text_node. f_equal.
  induction more as [|t more IH]; [reflexivity|].
  cbn [flat_map]. rewrite !flat_map_app, IH.
  change (br :: text_node t) with ([br] ++ text_node t).
  rewrite !flat_map_app, clean_text_node. reflexivity.
Qed.

Lemma heights_text_node (data : jsstring) (rest : list node) :
  fold_right (fun c h => Nat.max (height c) h) O (text_node data ++ rest)
  = fold_right (fun c h => Nat.max (height c) h) O rest.
Proof. now destruct data. Qed.

Lemma depth_of_nodes_of (first : jsstring) (more : list jsstring) :
  (depth_of (nodes_of first more) <= match more with [] => 1 | _ => 2 end)%nat.
Proof.
  unfold depth_of, nodes_of. rewrite heights_text_node.
  assert (H : (fold_right (fun c h => Nat.max (height c) h) O
                 (flat_map (fun t => br :: text_node t) more) <= 1)%nat).
  { induction more as [|t more IH]; [cbn; lia|].
    cbn [flat_map app fold_right]. rewrite heights_text_node.
    change (height br) with 1%nat. lia. }
  destruct more; [reflexivity | lia].
Qed.

End LineFacts.

Section IdempotenceFacts.
Import RegExp DOM Sanitizer.
Context {parser : DOMParser}.

(** An element in what [cleanNode] returns comes from a nested call. *)
Lemma cleanNode_element_depth (depth : nat) (o : object) (fragment : list node) :
  cleanNode depth o = Return (container fragment) ->
  (1 <= depth)%nat /\ (forallb is_text fragment = false -> 2 <= depth)%nat.
Proof.
  destruct depth as [|depth]; [discriminate|]. intros H. split; [lia|].
  rewrite cleanNode_step in H. destruct (get_childNodes o) as [os|]; [|discriminate].
  destruct (fragment_of depth os) as [f|] eqn:E; [|discriminate].
  injection H as <-. revert f E.
  induction os as [|child os IH]; intros f E T.
  - injection E as <-. discriminate.
  - rewrite fragment_of_cons in E.
    destruct (strictly_equal (get_nodeType child) TEXT_NODE).
    { destruct (fragment_of depth os) as [rest|]; [|discriminate].
      injection E as <-. cbn [forallb is_text andb] in T. now apply (IH rest). }
    destruct (strictly_equal (get_nodeType child) ELEMENT_NODE); [|now apply (IH f)].
    destruct (get_tagName child) as [t|]; [|discriminate].
    destruct depth as [|depth]; [discriminate | lia].
Qed.

(** C6, as the code has it.  On a parser that reads markup of text and line
    breaks back, a second [sanitize] returns the output of the first
    whenever that output has no tag other than [<br>], is matched by none of
    the patterns of the first pass, and is markup the parser reads character
    for character.  The input of the first pass is arbitrary: the
    conditions are on its output alone. *)
Theorem sanitize_idempotent_on_lines (html out : jsstring) :
  reads_lines_back ->
  sanitize (VString html) = Return out ->
  only_br_tags 0 out = true ->
  unmatched out = true ->
  read_verbatim out = true ->
  sanitize (VString out) = Return out.
Proof.
  intros Law H B U V. destruct out as [|c0 out0]; [reflexivity|].
  destruct html as [|c s]; [discriminate|].
  rewrite sanitize_string in H.
  destruct (cleanNode call_depth (parse_body (prefilter (c :: s)))) as [body|] eqn:E;
    [|discriminate].
  injection H as H.
  destruct (cleanNode_vocabulary _ _ _ E) as [fragment [-> Voc]].
  destruct (cleanNode_element_depth _ _ _ E) as [D1 D2].
  change (innerHTML (container fragment)) with (flat_map (serialize false) fragment) in H.
  rewrite <- H in B. rewrite <- (app_nil_r (flat_map _ fragment)) in B.
  destruct (line_nodes_of_markup _ Voc _ B) as [L _].
  assert (M := lines_of_markup fragment L []). cbn [escape flat_map app] in M.
  rewrite H in M.
  set (first := fst (lines_of [] fragment)) in *.
  set (more := snd (lines_of [] fragment)) in *.
  assert (R := Law first more). rewrite <- M in R. specialize (R V).
  rewrite <- (unmatched_prefilter _ U) in R at 1.
  rewrite (sanitize_children c0 out0 (nodes_of first more) R).
  - now rewrite clean_nodes_of, <- M.
  - etransitivity; [apply depth_of_nodes_of|].
    destruct more as [|t more'] eqn:Em; [exact D1|]. apply D2.
    destruct (forallb is_text fragment) eqn:T; [|reflexivity].
    unfold more in Em. now rewrite lines_of_texts in Em.
Qed.

End IdempotenceFacts.

(** ** The reference parser reads markup of text and line breaks back *)

Section ReferenceParserFacts.
Import DOM HTMLParser.

Lemma tokenize_skipped (rest : list N) : tokenize (Skip 0 Data) rest = tokenize Data rest.
Proof. destruct rest; reflexivity. Qed.

Lemma tokenize_escape_unit (c : N) (rest : list N) :
  tokenize Data (escape_unit false c ++ rest) = Character c :: tokenize Data rest.
Proof.
  unfold escape_unit. cbn [andb].
  destruct (N.eqb_spec c 38) as [->|N1];
    [cbn -[tokenize]; cbn [tokenize step data_step]; cbn; now rewrite tokenize_skipped|].
  destruct (N.eqb_spec c 160) as [->|N2];
    [cbn; now rewrite tokenize_skipped|].
  destruct (N.eqb_spec c 60) as [->|N3];
    [cbn; now rewrite tokenize_skipped|].
  destruct (N.eqb_spec c 62) as [->|N4];
    [cbn; now rewrite tokenize_skipped|].
  cbn [app tokenize step]. unfold data_step.
  rewrite (proj2 (N.eqb_neq c 60) N3), (proj2 (N.eqb_neq c 38) N1). reflexivity.
Qed.

Lemma tokenize_escape (data : jsstring) (rest : list N) :
  tokenize Data (escape false data ++ rest) = map Character data ++ tokenize Data rest.
Proof.
  induction data as [|c data IH]; [reflexivity|].
  cbn [escape flat_map map app]. fold (escape false data).
  now rewrite <- app_assoc, tokenize_escape_unit, IH.
Qed.

Lemma tokenize_br (rest : list N) :
  tokenize Data (js "<br>" ++ rest) = StartTag (js "br") [] :: tokenize Data rest.
Proof. reflexivity. Qed.

Lemma tokenize_markup_of (first : jsstring) (more : list jsstring) :
  tokenize Data (markup_of first more) = line_tokens first more.
Proof.
  unfold markup_of, line_tokens. rewrite tokenize_escape. f_equal.
  induction more as [|t more IH]; [reflexivity|].
  cbn [flat_map]. rewrite <- !app_assoc, tokenize_br, tokenize_escape, IH.
  reflexivity.
Qed.

Lemma tree_more_text (data : jsstring) :
  forall t acc,
    fold_left tree_step (map Character data) (body_frame (Text t :: acc))
    = body_frame (Text (t ++ data) :: acc).
Proof.
  induction data as [|c data IH]; intros t acc; [now rewrite app_nil_r|].
  cbn [map fold_left tree_step insert_character body_frame f_children f_name f_attrs].
  fold (body_frame (Text (t ++ [c]) :: acc)). rewrite IH, <- app_assoc. reflexivity.
Qed.

Lemma tree_text (data : jsstring) (acc : list node) :
  match acc with Text _ :: _ => False | _ => True end ->
  fold_left tree_step (map Character data) (body_frame acc)
  = body_frame (rev (text_node data) ++ acc).
Proof.
  intros H. destruct data as [|c data]; [reflexivity|].
  destruct acc as [|[d | ns name attrs children | d] acc]; try contradiction;
    cbn [map fold_left tree_step insert_character body_frame f_children f_name f_attrs];
    match goal with
    | |- fold_left _ _ [ {| f_name := _; f_attrs := _; f_children := ?l |} ] = _ =>
        change [ {| f_name := js "body"; f_attrs := []; f_children := l |} ]
          with (body_frame l)
    end;
    now rewrite tree_more_text.
Qed.

Lemma tree_br (acc : list node) :
  tree_step (body_frame acc) (StartTag (js "br") []) = body_frame (br :: acc).
Proof. reflexivity. Qed.

Lemma tree_lines (more : list jsstring) :
  forall acc,
    fold_left tree_step
              (flat_map (fun t => StartTag (js "br") [] :: map Character t) more)
              (body_frame acc)
    = body_frame (rev (flat_map (fun t => br :: text_node t) more) ++ acc).
Proof.
  induction more as [|t more IH]; intros acc; [reflexivity|].
  cbn [flat_map]. rewrite fold_left_app. cbn [fold_left]. rewrite tree_br.
  rewrite tree_text by exact I. rewrite IH.
  f_equal. rewrite rev_app_distr. cbn [rev]. now rewrite <- !app_assoc.
Qed.

(** The reference parser on markup of text and line breaks. *)
Lemma parse_markup_of (first : jsstring) (more : list jsstring) :
  parse (markup_of first more) = Element HTML (js "body") [] (nodes_of first more).
Proof.
  unfold parse. rewrite tokenize_markup_of. unfold line_tokens.
  fold (body_frame []). rewrite fold_left_app, tree_text by exact I.
  rewrite tree_lines. unfold body_frame, nodes_of. cbn [List.length finish].
  unfold close_frame. cbn [f_name f_attrs f_children].
  now rewrite app_nil_r, <- rev_app_distr, rev_involutive.
Qed.

Lemma reference_reads_line_nodes (nodes : list node) :
  forallb (fun n => match n with
                    | Text _ => true
                    | Element HTML name [] [] => JS.eqb name (js "br")
                    | _ => false
                    end) nodes = true ->
  @children_read_as ReferenceParser nodes (Element HTML (js "body") [] nodes) = true.
Proof.
  intros H. unfold children_read_as.
  change (@get_childNodes ReferenceParser (Element HTML (js "body") [] nodes))
    with (Some nodes).
  induction nodes as [|n nodes IH]; [reflexivity|].
  cbn [forallb] in H. apply andb_true_iff in H as [Hn H].
  rewrite (IH H), andb_true_r.
  destruct n as [data | ns name attrs children | data]; try discriminate.
  - cbn. apply eqb_refl.
  - destruct ns; try discriminate. destruct attrs; try discriminate.
    destruct children; try discriminate. apply eqb_eq in Hn. subst name. reflexivity.
Qed.

Lemma nodes_of_line_nodes (first : jsstring) (more : list jsstring) :
  forallb (fun n => match n with
                    | Text _ => true
                    | Element HTML name [] [] => JS.eqb name (js "br")
                    | _ => false
                    end) (nodes_of first more) = true.
Proof.
  unfold nodes_of. rewrite forallb_app. apply andb_true_iff. split.
  - now destruct first.
  - induction more as [|t more IH]; [reflexivity|].
    cbn [flat_map app forallb]. rewrite forallb_app, IH, andb_true_r.
    now destruct t.
Qed.

(** The reference parser reads markup of text and line breaks back. *)
Lemma reference_reads_lines_back : @reads_lines_back ReferenceParser.
Proof.
  intros first more _.
  change (@parse_body ReferenceParser (markup_of first more))
    with (parse (markup_of first more)).
  rewrite parse_markup_of. apply reference_reads_line_nodes, nodes_of_line_nodes.
Qed.

End ReferenceParserFacts.

(** ** The sanitizer on concrete markup, with the reference parser *)

Section SanitizerScenarios.
Import DOM Sanitizer.

(** The tree the parser builds for the table: the row is put in an implied
    [tbody]. *)
Example table_markup_parsed :
  @parse_body ReferenceParser table_markup
  = Element HTML (js "body") []
      [Element HTML (js "table") []
         [Element HTML (js "tbody") []
            [Element HTML (js "tr") []
               [Element HTML (js "td") [] [Text (js "cell")]]]]].
Proof. vm_compute. reflexivity. Qed.

(** C7, what the code does.  [cleanNode] puts the [div] container it got from
    the recursive call where the child stood: inside the clean copy of an
    allowed element, and in place of an element that is not allowed, for
    every parent whose one child reads as an element, within the depth.  The
    children of a disallowed element are therefore not spliced into the
    parent, and the table markup is sanitized to four nested [div]s around
    the text instead of the text alone. *)
Theorem disallowed_element_becomes_div :
  (forall (parser : DOMParser) depth o child ns name attrs children,
      get_childNodes o = Some [child] ->
      reads_as (Element ns name attrs children) child = true ->
      (S (depth_of children) <= depth)%nat ->
      cleanNode depth o
      = Return (container
                  [if ALLOWED_TAGS_has (lookup_name ns name)
                   then Element HTML (lookup_name ns name) []
                          [container (flat_map clean_child children)]
                   else container (flat_map clean_child children)]))
  /\ @sanitize ReferenceParser (VString table_markup)
     = Return (js "<div><div><div><div>cell</div></div></div></div>")
  /\ @sanitize ReferenceParser (VString table_markup) <> Return (js "cell").
Proof.
  split; [|split].
  - intros parser depth o child ns name attrs children C R D.
    rewrite (cleanNode_children depth [Element ns name attrs children] o).
    + cbn [flat_map clean_child app]. now rewrite cleaned_element.
    + unfold children_read_as. rewrite C. now rewrite R.
    + unfold depth_of in *. cbn [fold_right height]. lia.
  - vm_compute. reflexivity.
  - vm_compute. discriminate.
Qed.

(** The same wrapping inside an allowed element: the [onclick=] is deleted
    by the pre-filter, what is left of the attribute is dropped by
    [cleanNode], and the children of [p] and [b] are each put in a [div]. *)
Example paragraph_markup_sanitized :
  @sanitize ReferenceParser
    (VString (js "<p onclick='evil()'>Hello <b>world</b></p>"))
  = Return (js "<p><div>Hello <b><div>world</div></b></div></p>").
Proof. vm_compute. reflexivity. Qed.

(** The recognizer of plain allow-listed tags at work. *)
Example only_plain_tags_examples :
  only_plain_tags 0 (js "a &lt; b<p><div>x</div></p><br>") = true
  /\ only_plain_tags 0 (js "<p class=x>y</p>") = false
  /\ only_plain_tags 0 (js "<script>y</script>") = false
  /\ only_plain_tags 0 (js "a < b") = false.
Proof. repeat split. Qed.

(** A control named [nodeType] or [childNodes] stands before the property
    of its form: the form is passed over with all its text, or the controls
    are taken for its children. *)
Example shadowed_form_loses_text :
  @sanitize ReferenceParser (VString shadowed_text_markup) = Return (js "z")
  /\ @sanitize ReferenceParser (VString (js "<form>x<input name=childNodes>y</form>z"))
     = Return (js "<div></div>z").
Proof. split; vm_compute; reflexivity. Qed.

Lemma sanitize_output_vocabulary_witness :
  @sanitize ReferenceParser (VString attribute_markup)
  = Return (js "<div>link</div><p><div>Hello</div></p>")
  /\ exists nodes,
       js "<div>link</div><p><div>Hello</div></p>" = flat_map (serialize false) nodes
       /\ forallb in_vocabulary nodes = true
       /\ only_plain_tags 0 (js "<div>link</div><p><div>Hello</div></p>") = true.
Proof.
  assert (H : @sanitize ReferenceParser (VString attribute_markup)
              = Return (js "<div>link</div><p><div>Hello</div></p>"))
    by (vm_compute; reflexivity).
  split; [exact H|].
  apply (@sanitize_output_vocabulary ReferenceParser (VString attribute_markup) _ H).
Defined.

Lemma sanitize_output_has_no_script_tag_witness :
  @sanitize ReferenceParser (VString script_markup) = Return (js "<div>alert(1)</div>")
  /\ occurs_ci script_open (js "<div>alert(1)</div>") = false.
Proof.
  assert (H : @sanitize ReferenceParser (VString script_markup)
              = Return (js "<div>alert(1)</div>")) by (vm_compute; reflexivity).
  split; [exact H|].
  apply (@sanitize_output_has_no_script_tag ReferenceParser (VString script_markup) _ H).
Defined.



(** C6 as stated fails, in two ways.  The pre-filter makes one pass per
    pattern, and deleting ["data:"] can leave ["javascript:"] behind, which
    a second [sanitize] deletes.  And with the wrappers of C7 an output with
    an element other than [br] grows with every pass. *)
Lemma sanitize_not_idempotent :
  (@sanitize ReferenceParser (VString (js "javadata:script:")) = Return (js "javascript:")
   /\ @sanitize ReferenceParser (VString (js "javascript:")) = Return (js "")
   /\ @sanitize ReferenceParser (VString (js "javascript:"))
      <> @sanitize ReferenceParser (VString (js "javadata:script:")))
  /\ (@sanitize ReferenceParser (VString (js "<p>Hello</p>"))
      = Return (js "<p><div>Hello</div></p>")
      /\ @sanitize ReferenceParser (VString (js "<p><div>Hello</div></p>"))
         = Return (js "<p><div></div></p><div><div>Hello</div></div><p><div></div></p>")).
Proof.
  assert (E1 : @sanitize ReferenceParser (VString (js "javadata:script:"))
               = Return (js "javascript:")) by (vm_compute; reflexivity).
  assert (E2 : @sanitize ReferenceParser (VString (js "javascript:")) = Return (js ""))
    by (vm_compute; reflexivity).
  split.
  - rewrite E1, E2. repeat split. discriminate.
  - split; vm_compute; reflexivity.
Qed.

Lemma sanitize_idempotent_on_lines_witness :
  @reads_lines_back ReferenceParser
  /\ @sanitize ReferenceParser (VString lines_markup) = Return (js "ab<br>c &amp; d")
  /\ only_br_tags 0 (js "ab<br>c &amp; d") = true
  /\ unmatched (js "ab<br>c &amp; d") = true
  /\ read_verbatim (js "ab<br>c &amp; d") = true
  /\ @sanitize ReferenceParser (VString (js "ab<br>c &amp; d"))
     = Return (js "ab<br>c &amp; d").
Proof.
  assert (H : @sanitize ReferenceParser (VString lines_markup)
              = Return (js "ab<br>c &amp; d")) by (vm_compute; reflexivity).
  split; [exact reference_reads_lines_back|]. split; [exact H|].
  split; [reflexivity|]. split; [vm_compute; reflexivity|]. split; [reflexivity|].
  apply (@sanitize_idempotent_on_lines ReferenceParser lines_markup
           (js "ab<br>c &amp; d") reference_reads_lines_back H);
    [reflexivity | vm_compute; reflexivity | reflexivity].
Defined.

(** C8 as stated fails: in a form with a control named [tagName] the read
    of [tagName] gives the control, which has no [toLowerCase], and
    [sanitize] throws. *)
Lemma sanitize_throws_on_shadowed_tagName :
  @sanitize ReferenceParser (VString shadowing_markup) = Throw (js "TypeError")
  /\ forall out, @sanitize ReferenceParser (VString shadowing_markup) <> Return out.
Proof.
  assert (H : @sanitize ReferenceParser (VString shadowing_markup)
              = Throw (js "TypeError")) by (vm_compute; reflexivity).
  split; [exact H|]. intros out. rewrite H. discriminate.
Qed.

End SanitizerScenarios.

(* ================================================================== *)
(** * Further properties of the content codec *)

Section CodecProperties.
Import RegExp Compression Encoding.
Context {streams : CompressionStreams}.

Lemma body_length_formula (bs : list N) :
  N.of_nat (List.length (body bs)) = (4 * N.of_nat (List.length bs) + 2) / 3.
Proof.
  induction bs as [| a | a b | a b c l IH] using list_ind3; try reflexivity.
  cbn [body List.length]. lia.
Qed.

(** Every string of 16-bit code units has scalar values only. *)
Lemma scalar_values_all_scalars (s : jsstring) :
  forallb is_code_unit s = true -> forallb is_scalar (scalar_values s) = true.
Proof.
  assert (FFFD : is_scalar replacement = true) by reflexivity.
  assert (H : forall n s, (List.length s <= n)%nat ->
                          forallb is_code_unit s = true ->
                          forallb is_scalar (scalar_values s) = true).
  { induction n as [|n IH]; intros [|c t] Hlen Hu; try reflexivity;
      cbn [List.length] in Hlen; [lia|].
    cbn [forallb] in Hu. apply andb_true_iff in Hu as [Hc Ht].
    cbn [scalar_values]. destruct (is_lead_surrogate c) eqn:L.
    - destruct t as [|d t']; [reflexivity|].
      cbn [forallb] in Ht. apply andb_true_iff in Ht as [Hd Ht'].
      destruct (is_trail_surrogate d) eqn:T.
      + cbn [forallb]. rewrite IH by (cbn [List.length] in Hlen; auto; lia).
        rewrite andb_true_r, surrogate_pair_value by assumption.
        apply is_scalar_spec. apply in_range_spec in L, T. lia.
      + cbn [forallb]. rewrite FFFD. apply IH; [lia|].
        cbn [forallb]. now rewrite Hd, Ht'.
    - destruct (is_trail_surrogate c) eqn:T.
      + cbn [forallb]. rewrite FFFD. apply IH; [lia | exact Ht].
      + cbn [forallb]. rewrite IH by (auto; lia). rewrite andb_true_r.
        apply is_scalar_spec. apply in_range_false in L, T.
        unfold is_code_unit in Hc. apply N.ltb_lt in Hc. lia. }
  intros Hs. apply (H (List.length s)); auto.
Qed.

Lemma code_units_head_not_BOM (cp : N) (rest : jsstring) :
  is_scalar cp = true -> cp <> 0xFEFF ->
  starts_with_BOM (code_units cp ++ rest) = false.
Proof.
  intros H Hne. apply is_scalar_spec in H as [Hmax _]. unfold code_units.
  destruct (N.ltb_spec cp 0x10000); cbn [app starts_with_BOM]; apply N.eqb_neq;
    [exact Hne|].
  bits_to_arith. lia.
Qed.

(** What [Response.text] reads from the bytes [TextEncoder] wrote: the
    well-formed version of the string, without a leading U+FEFF. *)
Lemma utf8_decode_encode_any (text : jsstring) :
  forallb is_code_unit text = true ->
  utf8_decode (TextEncoder_encode text) = drop_leading_BOM (toWellFormed text).
Proof.
  intros U. unfold utf8_decode, TextEncoder_encode, toWellFormed, drop_leading_BOM.
  assert (S := scalar_values_all_scalars text U).
  rewrite map_to_of_N by (now apply encode_bytes).
  destruct (scalar_values text) as [|cp l]; [reflexivity|].
  cbn [forallb] in S. apply andb_true_iff in S as [Sc Sl].
  cbn [flat_map]. destruct (N.eq_dec cp 0xFEFF) as [->|Hne].
  - change (utf8_encode_scalar 0xFEFF) with [0xEF; 0xBB; 0xBF].
    cbn [app peek_bom N.eqb Pos.eqb andb skipn code_units starts_with_BOM tl].
    change (0xFEFF <? 0x10000) with true. cbn [app starts_with_BOM N.eqb Pos.eqb tl].
    now rewrite decoder_encode.
  - rewrite code_units_head_not_BOM by assumption.
    destruct (peek_bom (utf8_encode_scalar cp ++ flat_map utf8_encode_scalar l)) eqn:E.
    + apply bom_is_feff in E; [contradiction | exact Sc].
    + change (utf8_encode_scalar cp ++ flat_map utf8_encode_scalar l)
        with (flat_map utf8_encode_scalar (cp :: l)).
      rewrite decoder_encode; [reflexivity|].
      cbn [forallb]. now rewrite Sc, Sl.
Qed.

(** What [decompress] reads back from the token of compressed bytes: the
    text in its well-formed version, without a leading U+FEFF. *)
Lemma decompress_token_of (text : jsstring) (z : list byte) :
  forallb is_code_unit text = true -> z <> [] ->
  gunzip z = Some (TextEncoder_encode text) ->
  decompress (token_of z) = Return (drop_leading_BOM (toWellFormed text)).
Proof.
  intros U Hne Hg. unfold decompress.
  destruct (token_of z) as [|a t] eqn:E; [now apply token_of_nonempty in E|].
  cbn [falsy]. rewrite <- E, token_bytes_token_of, Hg.
  cbn [JS.try_catch]. now rewrite utf8_decode_encode_any.
Qed.

(** X1.  For every string of code units, also an ill-formed one,
    [decompress(compress(text))] returns the well-formed version of the text
    (each unpaired surrogate replaced by U+FFFD) without a leading U+FEFF,
    provided the gzip stream compresses the encoded text to a non-empty byte
    sequence that the gunzip stream expands to the same bytes. *)
Theorem round_trip_normalizes (text : jsstring) (z : list byte) :
  forallb is_code_unit text = true ->
  gzip (TextEncoder_encode text) = Some z ->
  z <> [] ->
  gunzip z = Some (TextEncoder_encode text) ->
  exists token,
    compress text = Return token
    /\ decompress token = Return (drop_leading_BOM (toWellFormed text)).
Proof.
  intros U Hz Hne Hg. destruct text as [|c text].
  - exists []. split; reflexivity.
  - exists (token_of z). rewrite compress_nonempty, Hz. split; [reflexivity|].
    now apply decompress_token_of.
Qed.

(** X2.  The token [compress] returns for a non-empty text is read back by
    the Base64 leg of [decompress] as exactly the bytes of the gzip stream,
    whatever the text and the stream. *)
Theorem token_decodes_to_compressed_bytes (text token : jsstring) :
  text <> [] ->
  compress text = Return token ->
  exists z, gzip (TextEncoder_encode text) = Some z /\ token_bytes token = Some z.
Proof.
  intros Hne H. destruct text as [|c text]; [congruence|].
  rewrite compress_nonempty in H.
  destruct (gzip (TextEncoder_encode (c :: text))) as [z|]; [|discriminate].
  injection H as <-. exists z. split; [reflexivity | apply token_bytes_token_of].
Qed.

(** X3.  A token for [n] compressed bytes has [ceil(4n/3)] characters, the
    length of unpadded Base64; in particular its length never leaves the
    remainder 1 modulo 4. *)
Theorem token_length (text token : jsstring) :
  text <> [] ->
  compress text = Return token ->
  exists z,
    gzip (TextEncoder_encode text) = Some z
    /\ N.of_nat (List.length token) = (4 * N.of_nat (List.length z) + 2) / 3
    /\ N.of_nat (List.length token) mod 4 <> 1.
Proof.
  intros Hne H. destruct text as [|c text]; [congruence|].
  rewrite compress_nonempty in H.
  destruct (gzip (TextEncoder_encode (c :: text))) as [z|]; [|discriminate].
  injection H as <-. exists z. split; [reflexivity|].
  unfold token_of. rewrite length_map, body_length_formula, length_map.
  split; [reflexivity | lia].
Qed.

(** X4.  [compress] throws only when the gzip stream does: it returns a
    token, or the text is not empty, the stream has failed on its bytes and
    the error is "Failed to compress content". *)
Theorem compress_throws_only_with_stream (text : jsstring) :
  (exists token, compress text = Return token)
  \/ (text <> []
      /\ gzip (TextEncoder_encode text) = None
      /\ compress text = Throw (js "Failed to compress content")).
Proof.
  destruct text as [|c text]; [left; now exists []|].
  rewrite compress_nonempty.
  destruct (gzip (TextEncoder_encode (c :: text))) as [z|].
  - left. now exists (token_of z).
  - right. repeat split. discriminate.
Qed.

Lemma strip_padding_three (s : jsstring) :
  Base64.strip_padding (s ++ repeat Base64.pad 3) = s ++ [Base64.pad].
Proof.
  unfold Base64.strip_padding. rewrite rev_app_distr. cbn [repeat rev app].
  rewrite !N.eqb_refl. cbn [rev]. now rewrite rev_involutive.
Qed.

(** A token of length 1 modulo 4 is padded with three [=], which [atob]
    rejects. *)
Lemma token_bytes_length_1 (t : jsstring) :
  forallb is_token_char t = true ->
  N.of_nat (List.length t) mod 4 = 1 ->
  token_bytes t = None.
Proof.
  intros Ht Hlen. unfold token_bytes. rewrite restore_standard.
  set (s := map from_url t).
  assert (Hs : forallb Base64.in_alphabet s = true).
  { unfold s. rewrite forallb_map_pre.
    apply (forallb_impl is_token_char); [apply from_url_alphabet | exact Ht]. }
  assert (Ls : List.length s = List.length t) by apply length_map.
  rewrite (add_padding_least 3 s 3) by lia.
  unfold base64ToArrayBuffer, Base64.atob.
  assert (Hws : forallb (fun c => negb (Base64.ascii_whitespace c))
                        (s ++ repeat Base64.pad 3) = true).
  { rewrite forallb_app. apply andb_true_iff. split; [|reflexivity].
    apply (forallb_impl Base64.in_alphabet); [|exact Hs].
    intros c Hc. now rewrite alphabet_not_whitespace. }
  rewrite (filter_all _ _ Hws), length_app, repeat_length.
  assert (E0 : N.of_nat (List.length s + 3) mod 4 = 0) by lia.
  rewrite E0. cbn [N.eqb]. rewrite strip_padding_three, length_app.
  cbn [List.length].
  assert (E1 : (N.of_nat (List.length s + 1) mod 4 =? 1) = false)
    by (apply N.eqb_neq; lia).
  rewrite E1, forallb_app, Hs. reflexivity.
Qed.

(** X5.  For every token over the safe alphabet whose length leaves the
    remainder 1 modulo 4, [decompress] throws "Failed to decompress
    content", whatever the gunzip stream would do. *)
Theorem decompress_throws_on_length_1 (t : jsstring) :
  forallb is_token_char t = true ->
  N.of_nat (List.length t) mod 4 = 1 ->
  decompress t = Throw (js "Failed to decompress content").
Proof.
  intros Ht Hlen. unfold decompress.
  destruct t as [|a t]; [cbn in Hlen; lia|].
  cbn [falsy]. now rewrite token_bytes_length_1.
Qed.

End CodecProperties.

Lemma round_trip_normalizes_witness :
  exists z,
    forallb is_code_unit ill_formed_text = true
    /\ @gzip ReferenceStreams (Encoding.TextEncoder_encode ill_formed_text) = Some z
    /\ z <> []
    /\ @gunzip ReferenceStreams z = Some (Encoding.TextEncoder_encode ill_formed_text)
    /\ exists token,
         @Compression.compress ReferenceStreams ill_formed_text = Return token
         /\ @Compression.decompress ReferenceStreams token = Return [0xFFFD; 0x61].
Proof.
  exists (Gzip.deflate (Encoding.TextEncoder_encode ill_formed_text)).
  assert (Hne : Gzip.deflate (Encoding.TextEncoder_encode ill_formed_text) <> [])
    by (vm_compute; discriminate).
  repeat split; try reflexivity; try exact Hne.
  apply (@round_trip_normalizes ReferenceStreams ill_formed_text
           (Gzip.deflate (Encoding.TextEncoder_encode ill_formed_text)));
    try reflexivity; exact Hne.
Defined.

Lemma hello_compressed :
  @Compression.compress ReferenceStreams (js "hello") = Return hello_token.
Proof. vm_compute. reflexivity. Qed.

Lemma token_decodes_to_compressed_bytes_witness :
  js "hello" <> []
  /\ @Compression.compress ReferenceStreams (js "hello") = Return hello_token
  /\ exists z, @gzip ReferenceStreams (Encoding.TextEncoder_encode (js "hello")) = Some z
               /\ Compression.token_bytes hello_token = Some z.
Proof.
  split; [discriminate|]. split; [exact hello_compressed|].
  apply (@token_decodes_to_compressed_bytes ReferenceStreams (js "hello") hello_token);
    [discriminate | exact hello_compressed].
Defined.

Lemma token_length_witness :
  js "hello" <> []
  /\ @Compression.compress ReferenceStreams (js "hello") = Return hello_token
  /\ exists z,
       @gzip ReferenceStreams (Encoding.TextEncoder_encode (js "hello")) = Some z
       /\ N.of_nat (List.length hello_token) = (4 * N.of_nat (List.length z) + 2) / 3
       /\ N.of_nat (List.length hello_token) mod 4 <> 1.
Proof.
  split; [discriminate|]. split; [exact hello_compressed|].
  apply (@token_length ReferenceStreams (js "hello") hello_token);
    [discriminate | exact hello_compressed].
Defined.

Lemma decompress_throws_on_length_1_witness :
  forallb is_token_char (js "H4sIA") = true
  /\ N.of_nat (List.length (js "H4sIA")) mod 4 = 1
  /\ @Compression.decompress ReferenceStreams (js "H4sIA")
     = Throw (js "Failed to decompress content").
Proof.
  split; [reflexivity|]. split; [reflexivity|].
  apply (@decompress_throws_on_length_1 ReferenceStreams (js "H4sIA")); reflexivity.
Defined.

(* ================================================================== *)
(** * Further properties of the sanitizer *)

Section DeletionFacts.
Import RegExp.

Lemma deleted_refl (s : jsstring) : deleted_from s s.
Proof. induction s; constructor; assumption. Qed.

Lemma deleted_trans (a b c : jsstring) :
  deleted_from a b -> deleted_from b c -> deleted_from a c.
Proof.
  intros Hab Hbc. revert a Hab.
  induction Hbc as [| x b c Hbc IH | x b c Hbc IH]; intros a Hab.
  - exact Hab.
  - inversion Hab; subst; [apply deleted_keep | apply deleted_drop]; now apply IH.
  - apply deleted_drop. now apply IH.
Qed.

Lemma deleted_skipn (n : nat) (s : jsstring) : deleted_from (skipn n s) s.
Proof.
  revert n. induction s as [|a s IH]; intros [|n]; cbn [skipn];
    try apply deleted_refl.
  apply deleted_drop, IH.
Qed.

Lemma deleted_length (t s : jsstring) :
  deleted_from t s -> (List.length t <= List.length s)%nat.
Proof. induction 1; cbn [List.length]; lia. Qed.

Lemma replaceGlobal_deleted (ic : bool) (r : pattern) (s : jsstring) :
  forall skip seen, deleted_from (replaceGlobal ic r [] skip seen s) s.
Proof.
  induction s as [|a s IH]; intros skip seen.
  - destruct skip; cbn [replaceGlobal]; [|constructor].
    destruct (matchAt ic r seen []) as [[|k]|]; constructor.
  - destruct skip as [|k]; cbn [replaceGlobal]; [|apply deleted_drop, IH].
    destruct (matchAt ic r seen (a :: s)) as [[|k]|]; cbn [app].
    + apply deleted_keep, IH.
    + apply deleted_drop, IH.
    + apply deleted_keep, IH.
Qed.

Lemma replaceFirst_deleted (ic : bool) (r : pattern) (s : jsstring) :
  forall seen, deleted_from (replaceFirst ic r [] seen s) s.
Proof.
  induction s as [|a s IH]; intros seen; rewrite replaceFirst_scan.
  - destruct (matchAt ic r seen []) as [n|]; [apply deleted_skipn | constructor].
  - destruct (matchAt ic r seen (a :: s)) as [n|]; [apply deleted_skipn|].
    apply deleted_keep, IH.
Qed.

(** Replacing by the empty string only deletes. *)
Lemma replace_deleted (s : jsstring) (re : regexp) : deleted_from (replace s re []) s.
Proof.
  unfold replace. destruct (global re);
    [apply replaceGlobal_deleted | apply replaceFirst_deleted].
Qed.

(** A matcher fails when its continuation fails on every state whose
    remaining input has a property that all the tails of the input share. *)
Lemma matcher_fails_on (Q : list N -> Prop) (ic : bool) (r : pattern) :
  (forall a s, Q (a :: s) -> Q s) ->
  forall x k, Q (snd x) -> (forall y, Q (snd y) -> k y = None) ->
              matcher ic r x k = None.
Proof.
  intros Qtl. induction r as [| p | p | r1 IH1 r2 IH2 | r IH | r IH | |];
    intros x k Hx Hk; cbn [matcher].
  - now apply Hk.
  - destruct x as [seen [|a rest]]; cbn [snd fst] in *; [reflexivity|].
    destruct (_ =? _); [|reflexivity]. apply Hk. cbn [snd]. now apply Qtl in Hx.
  - destruct x as [seen [|a rest]]; cbn [snd fst] in *; [reflexivity|].
    destruct (p a); [|reflexivity]. apply Hk. cbn [snd]. now apply Qtl in Hx.
  - apply IH1; [exact Hx|]. intros y Hy. now apply IH2.
  - generalize (List.length (snd x)). intros fuel. revert x Hx.
    induction fuel as [|fuel IHf]; intros x Hx; cbn [repeatMatcher]; [now apply Hk|].
    rewrite IH; [now apply Hk | exact Hx |].
    intros y Hy. destruct (consumed x y); [now apply IHf | reflexivity].
  - destruct (matcher ic r x (fun y => Some y)); [reflexivity | now apply Hk].
  - destruct (xorb _ _); [now apply Hk | reflexivity].
  - assert (K := Hk x Hx). now destruct (snd x).
Qed.

Lemma canonicalize_caseless (ic : bool) (a c : N) :
  caseless c = true -> canonicalize ic a = canonicalize ic c -> a = c.
Proof.
  unfold caseless, canonicalize, ascii_upper_unit. intros H.
  apply andb_true_iff in H as [U L]. apply negb_true_iff in U, L. rewrite L.
  destruct ic; [|auto]. destruct (is_lower a) eqn:La; [|auto].
  apply in_range_spec in La. apply in_range_false in U. lia.
Qed.

Lemma absent_tail (c a : N) (s : jsstring) : absent c (a :: s) = true -> absent c s = true.
Proof. unfold absent. cbn [forallb]. intros H. now apply andb_true_iff in H. Qed.

(** A pattern that requires a character does not match where the
    character does not occur. *)
Lemma requires_fails (ic : bool) (c : N) (r : pattern) :
  caseless c = true -> requires c r = true ->
  forall x k, absent c (snd x) = true -> matcher ic r x k = None.
Proof.
  intros Hc. induction r as [| p | p | r1 IH1 r2 IH2 | r IH | r IH | |];
    intros Hr x k Hx; cbn [requires] in Hr; try discriminate; cbn [matcher].
  - apply N.eqb_eq in Hr. subst p.
    destruct x as [seen [|a rest]]; cbn [snd fst] in *; [reflexivity|].
    destruct (N.eqb_spec (canonicalize ic a) (canonicalize ic c)) as [E|]; [|reflexivity].
    apply canonicalize_caseless in E; [|exact Hc]. subst a.
    unfold absent, other_than in Hx. cbn [forallb] in Hx.
    now rewrite N.eqb_refl in Hx.
  - destruct (requires c r1) eqn:R1; [now apply IH1|].
    cbn [orb] in Hr.
    apply (matcher_fails_on (fun s => absent c s = true));
      [apply absent_tail | exact Hx |].
    intros y Hy. now apply IH2.
Qed.

Lemma requires_no_match (ic : bool) (c : N) (r : pattern) (seen s : list N) :
  caseless c = true -> requires c r = true -> absent c s = true ->
  matchAt ic r seen s = None.
Proof.
  intros Hc Hr Hs. unfold matchAt. now rewrite (requires_fails ic c r Hc Hr).
Qed.

Lemma replace_requires (c : N) (re : regexp) (by_ s : jsstring) :
  caseless c = true -> requires c (source re) = true -> absent c s = true ->
  replace s re by_ = s.
Proof.
  intros Hc Hr Hs. unfold replace. destruct (global re).
  - generalize (@nil N). induction s as [|a s IH]; intros seen;
      rewrite replaceGlobal_scan, (requires_no_match _ c) by assumption;
      [reflexivity|].
    f_equal. apply IH. now apply absent_tail in Hs.
  - generalize (@nil N). induction s as [|a s IH]; intros seen;
      rewrite replaceFirst_scan, (requires_no_match _ c) by assumption;
      [reflexivity|].
    f_equal. apply IH. now apply absent_tail in Hs.
Qed.

(** X6.  The textual first pass of [sanitize] only deletes: what it returns
    is the markup with some characters taken out, the others in their
    order, and so is never longer. *)
Theorem prefilter_only_deletes (html : jsstring) :
  deleted_from (prefilter html) html
  /\ (List.length (prefilter html) <= List.length html)%nat.
Proof.
  assert (H : deleted_from (prefilter html) html).
  { unfold prefilter, Sanitizer.DANGEROUS_PATTERNS. cbn [fold_left].
    repeat (eapply deleted_trans; [apply replace_deleted|]). apply deleted_refl. }
  split; [exact H | now apply deleted_length].
Qed.

(** X7.  Markup without a colon, a [<] and a [=] passes the textual first
    pass of [sanitize] unchanged: each of the five patterns needs one of
    the three characters. *)
Theorem prefilter_keeps_markup_without_triggers (html : jsstring) :
  forallb no_trigger html = true -> prefilter html = html.
Proof.
  intros H.
  assert (A : forall c, (c =? 58) || (c =? 60) || (c =? 61) = true ->
                        absent c html = true).
  { intros c Hc. unfold absent. apply (forallb_impl no_trigger); [|exact H].
    intros a Ha. unfold no_trigger in Ha. apply negb_true_iff in Ha.
    unfold other_than. apply negb_true_iff, N.eqb_neq. intros ->.
    rewrite Ha in Hc. discriminate. }
  unfold prefilter, Sanitizer.DANGEROUS_PATTERNS. cbn [fold_left].
  rewrite (replace_requires 60 _ _ html) by (try reflexivity; now apply A).
  rewrite (replace_requires 58 _ _ html) by (try reflexivity; now apply A).
  rewrite (replace_requires 61 _ _ html) by (try reflexivity; now apply A).
  rewrite (replace_requires 58 _ _ html) by (try reflexivity; now apply A).
  rewrite (replace_requires 58 _ _ html) by (try reflexivity; now apply A).
  reflexivity.
Qed.

End DeletionFacts.

Lemma prefilter_keeps_markup_without_triggers_witness :
  forallb no_trigger (js "Hello, on world") = true
  /\ prefilter (js "Hello, on world") = js "Hello, on world".
Proof.
  split; [reflexivity|].
  apply (prefilter_keeps_markup_without_triggers (js "Hello, on world")). reflexivity.
Defined.

Section CleaningFacts.
Import RegExp DOM Sanitizer Element Escaping.

Lemma cleaned_without_attributes (n : node) :
  cleaned (without_attributes n) = cleaned n.
Proof.
  induction n as [data | data | ns name attrs children IH] using node_induction;
    try reflexivity.
  cbn [without_attributes]. rewrite !cleaned_element. f_equal.
  induction IH as [|child rest Hc Hrest IHrest]; [reflexivity|].
  cbn [map flat_map]. rewrite IHrest. f_equal.
  destruct child as [data | cns cname cattrs cchildren | data]; try reflexivity.
  change (clean_child (without_attributes (Element cns cname cattrs cchildren)))
    with [if ALLOWED_TAGS_has (lookup_name cns cname)
          then Element HTML (lookup_name cns cname) []
                 [cleaned (without_attributes (Element cns cname cattrs cchildren))]
          else cleaned (without_attributes (Element cns cname cattrs cchildren))].
  now rewrite Hc.
Qed.

Lemma cleaned_without_comments (n : node) :
  cleaned (without_comments n) = cleaned n.
Proof.
  induction n as [data | data | ns name attrs children IH] using node_induction;
    try reflexivity.
  cbn [without_comments]. rewrite !cleaned_element. f_equal.
  induction IH as [|child rest Hc Hrest IHrest]; [reflexivity|].
  cbn [flat_map]. rewrite flat_map_app, IHrest. f_equal.
  destruct child as [data | cns cname cattrs cchildren | data]; try reflexivity.
  cbn [flat_map]. rewrite app_nil_r.
  change (clean_child (without_comments (Element cns cname cattrs cchildren)))
    with [if ALLOWED_TAGS_has (lookup_name cns cname)
          then Element HTML (lookup_name cns cname) []
                 [cleaned (without_comments (Element cns cname cattrs cchildren))]
          else cleaned (without_comments (Element cns cname cattrs cchildren))].
  now rewrite Hc.
Qed.

(** X8.  Where the children read are the trees of the document,
    [cleanNode] looks at element names and text only: two documents whose
    trees differ in attributes and comments alone are cleaned alike.  (The
    [name] or [id] of a form control can change what a read gives; the
    children of such a form do not read as its trees.) *)
Theorem cleanNode_ignores_attributes_and_comments `{DOMParser}
    (depth depth' : nat) (o o' : object) (children children' : list node) :
  children_read_as children o = true ->
  children_read_as children' o' = true ->
  without_attributes (without_comments (container children))
  = without_attributes (without_comments (container children')) ->
  (depth_of children <= depth)%nat ->
  (depth_of children' <= depth')%nat ->
  cleanNode depth o = cleanNode depth' o'.
Proof.
  intros R R' E D D'.
  rewrite (cleanNode_children depth children o R D).
  rewrite (cleanNode_children depth' children' o' R' D').
  f_equal.
  assert (K : forall nodes,
             container (flat_map clean_child nodes) = cleaned (container nodes))
    by (intros nodes; unfold container at 2; now rewrite cleaned_element).
  rewrite !K.
  rewrite <- (cleaned_without_comments (container children)).
  rewrite <- (cleaned_without_attributes (without_comments (container children))).
  rewrite E, cleaned_without_attributes. apply cleaned_without_comments.
Qed.

Lemma escapeHtml_escape (text : jsstring) : escapeHtml text = Some (escape false text).
Proof.
  unfold escapeHtml. change (createElement (js "div")) with (Some (container [])).
  destruct text as [|c text]; [reflexivity|].
  unfold container, set_textContent, innerHTML. cbn [andb flat_map serialize].
  change (member (js "div") raw_text_parents) with false.
  now rewrite app_nil_r.
Qed.

Lemma escape_unit_cases (c : N) :
  (plain_unit c = true /\ escape_unit false c = [c])
  \/ (plain_unit c = false
      /\ exists e, In e (map js ["amp;"; "nbsp;"; "lt;"; "gt;"]%string)
                   /\ escape_unit false c = 38 :: e).
Proof.
  unfold plain_unit, escape_unit. cbn [andb].
  destruct (c =? 38) eqn:E1; [right; split; [reflexivity|]; eexists; split;
                               [|reflexivity]; cbn; auto|].
  destruct (c =? 160) eqn:E2; [right; split; [reflexivity|]; eexists; split;
                               [|reflexivity]; cbn; auto|].
  destruct (c =? 60) eqn:E3; [right; split; [reflexivity|]; eexists; split;
                               [|reflexivity]; cbn; auto|].
  destruct (c =? 62) eqn:E4; [right; split; [reflexivity|]; eexists; split;
                               [|reflexivity]; cbn; auto 6|].
  left. split; reflexivity.
Qed.

Lemma escape_length (s : jsstring) :
  (List.length s <= List.length (escape false s))%nat.
Proof.
  induction s as [|c s IH]; [reflexivity|].
  unfold escape in *. cbn [flat_map]. rewrite length_app. cbn [List.length].
  destruct (escape_unit_cases c) as [[_ ->] | [_ [e [_ ->]]]]; cbn [List.length]; lia.
Qed.

Lemma escape_plain (s : jsstring) :
  escape false s = s <-> forallb plain_unit s = true.
Proof.
  induction s as [|c s IH]; [easy|].
  unfold escape in *. cbn [flat_map forallb].
  destruct (escape_unit_cases c) as [[P ->] | [P [e [He ->]]]]; rewrite P.
  - cbn [app andb]. rewrite <- IH. split; [now intros [= ->] | now intros ->].
  - cbn [andb]. split; [|discriminate]. intros E. exfalso.
    cbn [app] in E. injection E as _ E. apply (f_equal (@List.length N)) in E.
    rewrite length_app in E. assert (L := escape_length s). unfold escape in L.
    cbn [map In] in He.
    repeat (destruct He as [<- | He]; [cbn [js List.length] in E; cbn in E; lia|]).
    contradiction.
Qed.

Lemma plain_unit_not_amp (c : N) : plain_unit c = true -> c <> 38.
Proof. unfold plain_unit. intros H ->. discriminate. Qed.

Lemma escape_injective (a : jsstring) :
  forall b, escape false a = escape false b -> a = b.
Proof.
  unfold escape. induction a as [|c a IH]; intros [|d b] E; cbn [flat_map] in E.
  - reflexivity.
  - destruct (escape_unit_cases d) as [[_ Hd] | [_ [e [_ Hd]]]]; rewrite Hd in E;
      discriminate.
  - destruct (escape_unit_cases c) as [[_ Hc] | [_ [e [_ Hc]]]]; rewrite Hc in E;
      discriminate.
  - assert (K : c = d /\ flat_map (escape_unit false) a = flat_map (escape_unit false) b).
    { unfold escape_unit in E. cbn [andb] in E.
      destruct (N.eqb_spec c 38) as [->|C1]; destruct (N.eqb_spec d 38) as [->|D1];
        [injection E; auto | | |].
      - destruct (N.eqb_spec d 160) as [->|D2]; [discriminate|].
        destruct (N.eqb_spec d 60) as [->|D3]; [discriminate|].
        destruct (N.eqb_spec d 62) as [->|D4]; [discriminate|].
        injection E as E _. congruence.
      - destruct (N.eqb_spec c 160) as [->|C2]; [discriminate|].
        destruct (N.eqb_spec c 60) as [->|C3]; [discriminate|].
        destruct (N.eqb_spec c 62) as [->|C4]; [discriminate|].
        injection E as E _. congruence.
      - destruct (N.eqb_spec c 160) as [->|C2]; destruct (N.eqb_spec d 160) as [->|D2];
          [injection E; auto | | |].
        + destruct (N.eqb_spec d 60) as [->|D3]; [discriminate|].
          destruct (N.eqb_spec d 62) as [->|D4]; [discriminate|].
          injection E as E _. congruence.
        + destruct (N.eqb_spec c 60) as [->|C3]; [discriminate|].
          destruct (N.eqb_spec c 62) as [->|C4]; [discriminate|].
          injection E as E _. congruence.
        + destruct (N.eqb_spec c 60) as [->|C3]; destruct (N.eqb_spec d 60) as [->|D3];
            [injection E; auto | | |].
          * destruct (N.eqb_spec d 62) as [->|D4]; [discriminate|].
            injection E as E _. congruence.
          * destruct (N.eqb_spec c 62) as [->|C4]; [discriminate|].
            injection E as E _. congruence.
          * destruct (N.eqb_spec c 62) as [->|C4];
              destruct (N.eqb_spec d 62) as [->|D4];
              [injection E; auto | | |]; injection E; try congruence; auto. }
    destruct K as [-> K]. f_equal. now apply IH.
Qed.

(** X9.  [escapeHtml] never throws; what it returns has no [<] and no [>]
    and is not shorter than the text, and it is the text itself exactly
    when the text has none of [&], [<], [>] and U+00A0.  Quotes are written
    as they are. *)
Theorem escapeHtml_output (text : jsstring) :
  exists out,
    escapeHtml text = Some out
    /\ forallb not_angle out = true
    /\ (List.length text <= List.length out)%nat
    /\ (out = text <-> forallb plain_unit text = true).
Proof.
  exists (escape false text). rewrite escapeHtml_escape.
  repeat split; try apply escape_not_angle; try apply escape_length;
    apply escape_plain.
Qed.

(** X10.  [escapeHtml] loses nothing: two texts with the same escaped form
    are the same text. *)
Theorem escapeHtml_injective (a b : jsstring) :
  escapeHtml a = escapeHtml b -> a = b.
Proof.
  rewrite !escapeHtml_escape. intros [= E]. now apply escape_injective.
Qed.

Lemma trim_start_spaces (w s : jsstring) :
  forallb white_space w = true -> trim_start (w ++ s) = trim_start s.
Proof.
  induction w as [|c w IH]; intros H; [reflexivity|].
  cbn [forallb] in H. apply andb_true_iff in H as [Hc Hw].
  cbn [app trim_start]. rewrite Hc. now apply IH.
Qed.

(** [trim_start] leaves a tail that starts with a character that is not
    white space. *)
Lemma trim_start_before (a b : jsstring) (c : N) :
  white_space c = false ->
  exists a', trim_start (a ++ c :: b) = a' ++ c :: b.
Proof.
  intros Hc. induction a as [|d a IH].
  - exists []. cbn [app trim_start]. now rewrite Hc.
  - cbn [app trim_start]. destruct (white_space d); [exact IH|].
    now exists (d :: a).
Qed.

Lemma trim_start_suffix (s : jsstring) : exists w, s = w ++ trim_start s.
Proof.
  induction s as [|c s [w IH]]; [now exists []|].
  cbn [trim_start]. destruct (white_space c); [|now exists []].
  exists (c :: w). cbn [app]. now f_equal.
Qed.

Lemma trim_start_head (s t : jsstring) (c : N) :
  trim_start s = c :: t -> white_space c = false.
Proof.
  induction s as [|d s IH]; [discriminate|].
  cbn [trim_start]. destruct (white_space d) eqn:D; [exact IH|].
  intros [= <- _]. exact D.
Qed.

Lemma trim_start_length (s : jsstring) :
  (List.length (trim_start s) <= List.length s)%nat.
Proof.
  destruct (trim_start_suffix s) as [w E]. rewrite E at 2. rewrite length_app. lia.
Qed.

Lemma trim_length (s : jsstring) : (List.length (trim s) <= List.length s)%nat.
Proof.
  unfold trim. rewrite length_rev.
  etransitivity; [apply trim_start_length|]. rewrite length_rev.
  apply trim_start_length.
Qed.

(** What [trim] returns starts with a character that is not white space. *)
Lemma trim_head (s t : jsstring) (c : N) : trim s = c :: t -> white_space c = false.
Proof.
  unfold trim. intros E.
  destruct (trim_start_suffix (rev (trim_start s))) as [w Hw].
  apply (f_equal (@rev N)) in Hw. rewrite rev_involutive, rev_app_distr, E in Hw.
  cbn [app] in Hw. now apply trim_start_head in Hw.
Qed.

Lemma startsWith_app (p s : jsstring) : startsWith (p ++ s) p = true.
Proof. induction p as [|c p IH]; [reflexivity|]. cbn. now rewrite N.eqb_refl. Qed.

Lemma white_space_lower (c : N) : white_space c = true -> lower_unit c = c.
Proof.
  intros H. unfold lower_unit. destruct (is_upper c) eqn:U.
  - apply in_range_spec in U. exfalso.
    unfold white_space, in_range in H.
    rewrite !orb_true_iff, !andb_true_iff, !N.eqb_eq, !N.leb_le in H. lia.
  - destruct (N.eqb_spec c 8490) as [->|]; [discriminate | reflexivity].
Qed.

(** X11.  [isAttributeValueSafe] rejects every value that is white space
    followed by [javascript:], [data:] or [vbscript:] in any letter case,
    whatever comes after and whatever the attribute. *)
Theorem isAttributeValueSafe_rejects_schemes (attr w v rest : jsstring) :
  forallb white_space w = true ->
  In (toLowerCase v) dangerous_schemes ->
  isAttributeValueSafe attr (w ++ v ++ rest) = false.
Proof.
  intros Hw Hv. unfold isAttributeValueSafe.
  assert (Hne : v <> []) by (intros ->; cbn in Hv; intuition discriminate).
  destruct (w ++ v ++ rest) as [|c0 t0] eqn:E0.
  { apply app_eq_nil in E0 as [_ E0]. apply app_eq_nil in E0 as [E0 _]. contradiction. }
  cbn [falsy]. rewrite <- E0. clear E0 c0 t0.
  unfold toLowerCase in *. rewrite !map_app.
  assert (W : forallb white_space (map lower_unit w) = true).
  { rewrite forallb_map_pre. apply (forallb_impl white_space); [|exact Hw].
    intros a Ha. now rewrite white_space_lower. }
  set (R := map lower_unit rest).
  assert (K : forall scheme last,
             white_space (hd 0 (scheme ++ [last])) = false -> white_space last = false ->
             exists R', trim (map lower_unit w ++ (scheme ++ [last]) ++ R)
                        = (scheme ++ [last]) ++ R').
  { intros scheme last Hhd Hlast. unfold trim.
    rewrite trim_start_spaces by exact W.
    assert (T : trim_start ((scheme ++ [last]) ++ R) = (scheme ++ [last]) ++ R).
    { destruct scheme; cbn [app hd trim_start] in *; now rewrite Hhd. }
    rewrite T, !rev_app_distr. cbn [rev app].
    destruct (trim_start_before (rev R) (rev scheme) last Hlast) as [a' ->].
    exists (rev a'). rewrite rev_app_distr. cbn [rev].
    now rewrite rev_involutive. }
  unfold dangerous_schemes in Hv. cbn [map In] in Hv.
  destruct Hv as [<- | [<- | [<- | []]]].
  - destruct (K (js "javascript") 58) as [R' HR]; try reflexivity.
    change (js "javascript" ++ [58]) with (js "javascript:") in HR. rewrite HR.
    cbn [map existsb]. now rewrite (startsWith_app (js "javascript:") R').
  - destruct (K (js "data") 58) as [R' HR]; try reflexivity.
    change (js "data" ++ [58]) with (js "data:") in HR. rewrite HR.
    cbn [map existsb]. rewrite (startsWith_app (js "data:") R').
    now rewrite orb_true_r.
  - destruct (K (js "vbscript") 58) as [R' HR]; try reflexivity.
    change (js "vbscript" ++ [58]) with (js "vbscript:") in HR. rewrite HR.
    cbn [map existsb]. rewrite (startsWith_app (js "vbscript:") R').
    now rewrite !orb_true_r.
Qed.

End CleaningFacts.

Lemma escapeHtml_injective_witness :
  Escaping.escapeHtml (js "a<b") = Escaping.escapeHtml (js "a<b") /\ js "a<b" = js "a<b".
Proof.
  split; [reflexivity|].
  apply (escapeHtml_injective (js "a<b") (js "a<b")). reflexivity.
Defined.

Lemma isAttributeValueSafe_rejects_schemes_witness :
  forallb RegExp.white_space [32; 9] = true
  /\ In (toLowerCase (js "JavaScript:")) dangerous_schemes
  /\ Sanitizer.isAttributeValueSafe (js "href") ([32; 9] ++ js "JavaScript:" ++ js "alert(1)")
     = false.
Proof.
  split; [reflexivity|]. split; [left; reflexivity|].
  apply (isAttributeValueSafe_rejects_schemes (js "href") [32; 9] (js "JavaScript:")
           (js "alert(1)")); [reflexivity | left; reflexivity].
Defined.

(* ================================================================== *)
(** * Properties of the counts of [src/js/utils/dom.js] *)

Section CountFacts.
Import RegExp DOM Sanitizer Element StringSplit DomUtils.
Context {fragments : FragmentParser}.

Lemma or_empty_id (a : jsstring) : or_empty a = a.
Proof. now destruct a. Qed.

Lemma word_count_le (l : list jsstring) :
  (List.length (filter is_word l) <= List.length (List.concat l))%nat.
Proof.
  induction l as [|w l IH]; [reflexivity|].
  cbn [filter List.concat]. rewrite length_app.
  destruct w as [|c w]; cbn [is_word List.length]; [exact IH|].
  change (is_word (c :: w)) with true. cbn [List.length]. lia.
Qed.

(** The pieces of a split are together not longer than the string. *)
Lemma split_from_length (ic : bool) (r : pattern) (s : jsstring) :
  forall skip seen piece,
    (List.length (List.concat (split_from ic r skip seen piece s))
     <= List.length piece + List.length s)%nat.
Proof.
  induction s as [|a s IH]; intros skip seen piece.
  - cbn [split_from List.concat]. rewrite app_nil_r, length_rev. lia.
  - cbn [split_from List.length]. destruct skip as [|k].
    + destruct (matchAt ic r seen (a :: s)) as [[|k]|].
      * destruct piece as [|p piece].
        -- etransitivity; [apply IH|]. cbn [List.length]. lia.
        -- cbn [List.concat]. rewrite length_app, length_rev.
           specialize (IH O (a :: seen) [a]). cbn [List.length] in *. lia.
      * cbn [List.concat]. rewrite length_app, length_rev.
        specialize (IH k (a :: seen) []). cbn [List.length] in *. lia.
      * etransitivity; [apply IH|]. cbn [List.length]. lia.
    + etransitivity; [apply IH|]. lia.
Qed.

Lemma split_length (s : jsstring) (re : regexp) :
  (List.length (List.concat (split s re)) <= List.length s)%nat.
Proof.
  unfold split. destruct s as [|a s].
  - now destruct (matchAt _ _ [] []).
  - etransitivity; [apply split_from_length|]. reflexivity.
Qed.

(** A piece that has begun ends up among the pieces, or another word
    does. *)
Lemma split_from_word (ic : bool) (r : pattern) (s : jsstring) :
  forall seen piece,
    piece <> [] ->
    (0 < List.length (filter is_word (split_from ic r O seen piece s)))%nat.
Proof.
  assert (W : forall piece, piece <> [] -> is_word (rev piece) = true).
  { intros [|p piece] H; [contradiction|]. unfold is_word.
    rewrite length_rev. reflexivity. }
  induction s as [|a s IH]; intros seen piece Hp; cbn [split_from].
  - cbn [filter]. rewrite W by exact Hp. cbn [List.length]. lia.
  - destruct (matchAt ic r seen (a :: s)) as [[|k]|].
    + destruct piece as [|p piece]; [contradiction|].
      cbn [filter]. rewrite W by exact Hp. cbn [List.length]. lia.
    + cbn [filter]. rewrite W by exact Hp. cbn [List.length]. lia.
    + apply IH. discriminate.
Qed.

Lemma words_of_trimmed (t : jsstring) :
  List.length (filter is_word (split (trim t) re_spaces)) = O <-> trim t = [].
Proof.
  destruct (trim t) as [|a t'] eqn:E.
  - split; reflexivity.
  - apply trim_head in E. split; [|discriminate]. intros H. exfalso.
    unfold split, re_spaces in H. cbn [source ignoreCase split_from] in H.
    assert (M : matchAt false (Plus (Class white_space)) [] (a :: t') = None).
    { unfold matchAt, Plus. cbn [matcher snd]. now rewrite E. }
    rewrite M in H.
    assert (K := split_from_word false (Plus (Class white_space)) t' [a] [a]
                   ltac:(discriminate)).
    lia.
Qed.

Lemma createElement_div : createElement (js "div") = Some (container []).
Proof. reflexivity. Qed.

(** X12.  [getWordCount] and [getCharCount] never throw, and there are
    never more words than characters, whatever the markup and whatever the
    parser makes of it. *)
Theorem word_count_le_char_count (html : jsstring) :
  exists words chars,
    getWordCount html = Some words
    /\ getCharCount html = Some chars
    /\ words <= chars.
Proof.
  unfold getWordCount, getCharCount. rewrite createElement_div.
  eexists. eexists. split; [reflexivity|]. split; [reflexivity|].
  rewrite !or_empty_id.
  set (text := textContent (set_innerHTML (container []) html)).
  assert (H := word_count_le (split (trim text) re_spaces)).
  assert (H1 := split_length (trim text) re_spaces).
  assert (H2 := trim_length text).
  change (fun w : list N => 0 <? N.of_nat (List.length w)) with is_word.
  clearbody text. unfold jsstring in *. lia.
Qed.

(** X13.  [isEmpty] and [getWordCount] agree: the markup is empty exactly
    when it has no word. *)
Theorem isEmpty_iff_no_words (html : jsstring) :
  exists empty words,
    isEmpty html = Some empty
    /\ getWordCount html = Some words
    /\ (empty = true <-> words = 0).
Proof.
  unfold isEmpty, getWordCount. rewrite createElement_div.
  destruct html as [|c html]; cbn [falsy].
  - exists true, 0. repeat split.
  - eexists. eexists. split; [reflexivity|]. split; [reflexivity|].
    rewrite !or_empty_id.
    set (text := textContent (set_innerHTML (container []) (c :: html))).
    change (fun w : list N => 0 <? N.of_nat (List.length w)) with is_word.
    assert (K := words_of_trimmed text).
    clearbody text. rewrite N.eqb_eq. unfold jsstring in *. split; intros H.
    + assert (E : trim text = []) by (destruct (trim text); [reflexivity | discriminate]).
      apply K in E. lia.
    + rewrite (proj1 K); [reflexivity | lia].
Qed.

End CountFacts.

(* ================================================================== *)
(** * The decoder emits well-formed text *)

Section DecoderFacts.
Import Encoding Compression.
Context {streams : CompressionStreams}.

Lemma land_low_bits (b : N) :
  N.land b 0x1F = b mod 32 /\ N.land b 0xF = b mod 16 /\ N.land b 0x7 = b mod 8.
Proof.
  change 0x1F with (N.ones 5). change 0xF with (N.ones 4). change 0x7 with (N.ones 3).
  now rewrite !N.land_ones.
Qed.

Lemma lead_byte_ok (b : N) :
  match lead_byte b with
  | Emit cp => is_scalar cp = true
  | Continue d => decoder_ok d
  | Error => True
  end.
Proof.
  unfold lead_byte. destruct (land_low_bits b) as [M5 [M4 M3]].
  destruct (in_range 0 0x7F b) eqn:R1.
  { apply in_range_spec in R1. apply is_scalar_spec. lia. }
  destruct (in_range 0xC2 0xDF b) eqn:R2.
  { unfold decoder_ok.
    cbn [bytes_needed bytes_seen code_point lower_boundary upper_boundary].
    rewrite M5. lia. }
  destruct (in_range 0xE0 0xEF b) eqn:R3.
  { apply in_range_spec in R3. unfold decoder_ok.
    cbn [bytes_needed bytes_seen code_point lower_boundary upper_boundary].
    rewrite M4. destruct (N.eqb_spec b 0xE0), (N.eqb_spec b 0xED); lia. }
  destruct (in_range 0xF0 0xF4 b) eqn:R4; [|exact I].
  apply in_range_spec in R4. unfold decoder_ok.
  cbn [bytes_needed bytes_seen code_point lower_boundary upper_boundary].
  rewrite M3. destruct (N.eqb_spec b 0xF0), (N.eqb_spec b 0xF4); lia.
Qed.

Lemma decoder_unfold (d : decoder) (b : N) (rest : list N) :
  utf8_decoder d (b :: rest)
  = match bytes_needed d with
    | O => utf8_decoder initial (b :: rest)
    | S _ =>
        if in_range (lower_boundary d) (upper_boundary d) b then
          let cp := N.lor (N.shiftl (code_point d) 6) (N.land b 0x3F) in
          if Nat.eqb (S (bytes_seen d)) (bytes_needed d)
          then cp :: utf8_decoder initial rest
          else utf8_decoder {| code_point := cp; bytes_seen := S (bytes_seen d);
                               bytes_needed := bytes_needed d;
                               lower_boundary := 0x80; upper_boundary := 0xBF |} rest
        else replacement :: utf8_decoder initial (b :: rest)
    end.
Proof. destruct d as [cp seen [|needed] lo hi]; reflexivity. Qed.

(** The decoder emits scalar values only, whatever the bytes. *)
Lemma decoder_scalars (bytes : list N) :
  forall d, decoder_ok d -> forallb is_scalar (utf8_decoder d bytes) = true.
Proof.
  assert (I0 : decoder_ok initial) by (unfold decoder_ok; cbn; lia).
  induction bytes as [|b rest IH]; intros d Hd.
  - cbn [utf8_decoder]. now destruct (bytes_needed d).
  - assert (F : forallb is_scalar (utf8_decoder initial (b :: rest)) = true).
    { rewrite decoder_fresh. assert (L := lead_byte_ok b).
      destruct (lead_byte b) as [cp | d' |]; cbn [forallb].
      - now rewrite L, IH.
      - now apply IH.
      - now rewrite IH. }
    rewrite decoder_unfold.
    destruct d as [cp seen needed lo hi].
    cbn [bytes_needed bytes_seen code_point lower_boundary upper_boundary].
    destruct needed as [|needed]; [exact F|].
    destruct (in_range lo hi b) eqn:R; [|cbn [forallb]; now rewrite F].
    apply in_range_spec in R. unfold decoder_ok in Hd.
    cbn [bytes_needed bytes_seen code_point lower_boundary upper_boundary] in Hd.
    destruct Hd as [Hlo [Hhi Hd]].
    assert (E : N.lor (N.shiftl cp 6) (N.land b 0x3F) = cp * 64 + (b - 128)).
    { rewrite lor_shiftl_add; bits_to_arith; lia. }
    cbv zeta. rewrite E.
    destruct needed as [|[|[|needed]]], seen as [|[|[|seen]]]; try contradiction;
      cbn [Nat.eqb forallb]; try lia;
      try (rewrite IH by exact I0; rewrite andb_true_r; apply is_scalar_spec; lia);
      apply IH; unfold decoder_ok;
      cbn [bytes_needed bytes_seen code_point lower_boundary upper_boundary]; lia.
Qed.

Lemma code_units_well_formed (l : list N) :
  forallb is_scalar l = true -> isWellFormed (flat_map code_units l) = true.
Proof.
  induction l as [|cp l IH]; [reflexivity|]. cbn [forallb flat_map]. intros H.
  apply andb_true_iff in H as [Hc Hl]. apply is_scalar_spec in Hc.
  specialize (IH Hl). set (tail := flat_map code_units l) in *. unfold code_units.
  destruct (N.ltb_spec cp 0x10000) as [Lt|Ge]; cbn [app isWellFormed].
  - assert (L : is_lead_surrogate cp = false) by (apply in_range_false; lia).
    assert (T : is_trail_surrogate cp = false) by (apply in_range_false; lia).
    rewrite L, T, IH. unfold is_code_unit.
    now rewrite (proj2 (N.ltb_lt _ _)) by lia.
  - assert (L : is_lead_surrogate (0xD800 + N.shiftr (cp - 0x10000) 10) = true).
    { apply in_range_spec. bits_to_arith. lia. }
    assert (T : is_trail_surrogate (0xDC00 + N.land (cp - 0x10000) 0x3FF) = true).
    { apply in_range_spec. bits_to_arith. lia. }
    now rewrite L, T, IH.
Qed.

Lemma utf8_decode_well_formed (bytes : list byte) :
  isWellFormed (utf8_decode bytes) = true.
Proof.
  unfold utf8_decode. apply code_units_well_formed, decoder_scalars.
  unfold decoder_ok. cbn. lia.
Qed.

(** X22.  [decompress] returns well-formed strings only: whatever the
    token and whatever bytes the gunzip stream yields, the text returned has
    no unpaired surrogate. *)
Theorem decompress_returns_well_formed (token text : jsstring) :
  decompress token = Return text -> isWellFormed text = true.
Proof.
  unfold decompress. destruct (falsy (VString token)); [now intros [= <-]|].
  destruct (token_bytes token) as [compressedBytes|]; [|discriminate].
  destruct (gunzip compressedBytes) as [decompressed|]; [|discriminate].
  intros [= <-]. apply utf8_decode_well_formed.
Qed.

End DecoderFacts.

Lemma decompress_returns_well_formed_witness :
  @Compression.decompress ReferenceStreams hello_token = Return (js "hello")
  /\ Encoding.isWellFormed (js "hello") = true.
Proof.
  assert (H : @Compression.decompress ReferenceStreams hello_token = Return (js "hello"))
    by (vm_compute; reflexivity).
  split; [exact H|].
  apply (@decompress_returns_well_formed ReferenceStreams hello_token (js "hello") H).
Defined.

(* ================================================================== *)
(** * Properties of saving to and loading from the address *)

Section EditorFacts.
Import DOM Element Editor.
Context {fragments : FragmentParser} {streams : CompressionStreams}
        {parser : DOMParser}.

Lemma getWordCount_returns (html : jsstring) :
  exists n, DomUtils.getWordCount html = Some n.
Proof. unfold DomUtils.getWordCount. rewrite createElement_div. eauto. Qed.

Lemma getCharCount_returns (html : jsstring) :
  exists n, DomUtils.getCharCount html = Some n.
Proof. unfold DomUtils.getCharCount. rewrite createElement_div. eauto. Qed.

Lemma isEmpty_returns (html : jsstring) : exists b, DomUtils.isEmpty html = Some b.
Proof.
  unfold DomUtils.isEmpty. destruct (falsy (VString html)); [eauto|].
  rewrite createElement_div. eauto.
Qed.

(** [updateStats] never throws and changes the two counts only. *)
Lemma updateStats_shown (w : world) : updateStats w = (Normal tt, shown_counts w).
Proof.
  unfold updateStats, shown_counts, bind, read, call, modify, ret.
  destruct (getWordCount_returns (innerHTML (editor w))) as [n Hn].
  destruct (getCharCount_returns (innerHTML (editor w))) as [m Hm].
  destruct w as [st ed fr si stx [wc|] [cc|] t ck]; cbn; rewrite ?Hn, ?Hm; reflexivity.
Qed.

Lemma drop_while_head (p : N -> bool) (c : N) (s : jsstring) :
  p c = false -> drop_while p (c :: s) = c :: s.
Proof. intros H. cbn [drop_while]. now rewrite H. Qed.

Lemma token_scalar_values (t : jsstring) :
  forallb is_token_char t = true -> Encoding.scalar_values t = t.
Proof.
  induction t as [|c t IH]; [reflexivity|]. cbn [forallb]. intros H.
  apply andb_true_iff in H as [Hc Ht]. apply is_token_char_cases in Hc.
  cbn [Encoding.scalar_values].
  assert (L : Encoding.is_lead_surrogate c = false) by (apply in_range_false; lia).
  assert (T : Encoding.is_trail_surrogate c = false) by (apply in_range_false; lia).
  now rewrite L, T, IH.
Qed.

(** The URL parser leaves a token as it is. *)
Lemma url_fragment_token (t : jsstring) :
  forallb is_token_char t = true -> url_fragment t = t.
Proof.
  intros H. unfold url_fragment.
  assert (E1 : drop_while is_c0_control_or_space (rev t) = rev t).
  { destruct (rev t) as [|c r] eqn:E; [reflexivity|]. apply drop_while_head.
    assert (Hc : is_token_char c = true).
    { rewrite forallb_forall in H. apply H, in_rev. rewrite E. now left. }
    apply is_token_char_cases in Hc. unfold is_c0_control_or_space.
    apply N.leb_gt. lia. }
  rewrite E1, rev_involutive, filter_all.
  2:{ apply (forallb_impl is_token_char); [|exact H]. intros c Hc.
      apply is_token_char_cases in Hc.
      destruct (N.eqb_spec c 9), (N.eqb_spec c 10), (N.eqb_spec c 13);
        try lia; reflexivity. }
  rewrite token_scalar_values by exact H.
  induction t as [|c t IH]; [reflexivity|]. cbn [forallb] in H.
  apply andb_true_iff in H as [Hc Ht]. cbn [flat_map].
  rewrite IH.
  - apply is_token_char_cases in Hc.
    assert (P : in_fragment_percent_encode_set c = false).
    { unfold in_fragment_percent_encode_set.
      destruct (N.leb_spec c 0x1F), (N.ltb_spec 0x7E c), (N.eqb_spec c 0x20),
        (N.eqb_spec c 0x22), (N.eqb_spec c 0x3C), (N.eqb_spec c 0x3E),
        (N.eqb_spec c 0x60); try lia; reflexivity. }
    now rewrite P.
  - exact Ht.
  - destruct (rev t) as [|d r] eqn:E; [reflexivity|]. apply drop_while_head.
    assert (Hd : is_token_char d = true).
    { rewrite forallb_forall in Ht. apply Ht, in_rev. rewrite E. now left. }
    apply is_token_char_cases in Hd. unfold is_c0_control_or_space.
    apply N.leb_gt. lia.
Qed.

Lemma isEmpty_false_nonempty (html : jsstring) :
  DomUtils.isEmpty html = Some false -> html <> [].
Proof. intros H ->. discriminate. Qed.

(** X14.  [saveToHash] never throws, leaves the content of the editor as
    it is, and leaves the [isSaving] flag as it found it: a call during a
    save does nothing, and any other call ends with the flag cleared, also
    when saving has failed. *)
Theorem saveToHash_completes (w : world) :
  exists w',
    saveToHash w = (Normal tt, w')
    /\ isSaving (state w') = isSaving (state w)
    /\ editor w' = editor w
    /\ (isSaving (state w) = true -> w' = w).
Proof.
  unfold saveToHash, bind, read, ret.
  destruct (isSaving (state w)) eqn:B; [exists w; auto|].
  unfold try_catch, bind, read, call, await, modify, ret, updateStatus,
    replaceState_pathname, replaceState_hash, showToast.
  destruct (isEmpty_returns (innerHTML (editor w))) as [b Hb].
  destruct w as [st ed fr [si|] [stx|] wc cc t ck]; cbn in *; rewrite Hb;
    (destruct b; [eexists; repeat split; intros; discriminate|]);
    (destruct (Compression.compress (innerHTML ed));
     eexists; repeat split; intros; discriminate).
Qed.


Lemma hash_of_fragment (w : world) (f : jsstring) :
  fragment w = Some f -> f <> [] -> slice_1 (location_hash w) = f.
Proof.
  intros Hf Hne. unfold location_hash. rewrite Hf.
  destruct f; [contradiction | reflexivity].
Qed.

(** [loadFromHash] on an address with a fragment. *)
Lemma loadFromHash_fragment (w : world) (f : jsstring) :
  fragment w = Some f -> f <> [] ->
  loadFromHash w
  = match Compression.decompress f with
    | Return content =>
        match Sanitizer.sanitize (VString content) with
        | Return shown =>
            updateStatus saved
              (shown_counts (with_editor (set_innerHTML (editor w) shown) w))
        | Throw _ =>
            (Normal tt,
             with_editor (set_innerHTML (editor w) []) (with_toast (Some load_failed) w))
        end
    | Throw _ =>
        (Normal tt,
         with_editor (set_innerHTML (editor w) []) (with_toast (Some load_failed) w))
    end.
Proof.
  intros Hf Hne. unfold loadFromHash, bind at 1, read at 1.
  rewrite (hash_of_fragment w f Hf Hne).
  destruct f as [|c f]; [contradiction|]. cbn [falsy].
  unfold try_catch, bind, await.
  destruct (Compression.decompress (c :: f)) as [content|m].
  - destruct (Sanitizer.sanitize (VString content)) as [shown|m'].
    + unfold set_editor, modify. rewrite updateStats_shown.
      destruct w as [st ed fr [si|] [stx|] wc cc t ck]; reflexivity.
    + reflexivity.
  - reflexivity.
Qed.

(** [loadFromHash] on an address without a fragment. *)
Lemma loadFromHash_no_fragment (w : world) :
  fragment w = None \/ fragment w = Some [] ->
  loadFromHash w
  = (Normal tt, shown_counts (with_editor (set_innerHTML (editor w) getDemoContent) w)).
Proof.
  intros Hf. unfold loadFromHash, bind at 1, read at 1.
  assert (E : slice_1 (location_hash w) = []).
  { unfold location_hash. now destruct Hf as [-> | ->]. }
  rewrite E. cbn [falsy]. unfold bind, set_editor, modify.
  now rewrite updateStats_shown.
Qed.

(** X15.  [loadFromHash] never throws and changes neither the [state]
    object nor the address. *)
Theorem loadFromHash_completes (w : world) :
  exists w',
    loadFromHash w = (Normal tt, w')
    /\ state w' = state w
    /\ fragment w' = fragment w.
Proof.
  destruct (fragment w) as [[|c f]|] eqn:Hf.
  - rewrite loadFromHash_no_fragment by auto. eexists. split; [reflexivity|].
    split; [reflexivity | exact Hf].
  - rewrite (loadFromHash_fragment w (c :: f)) by (auto; discriminate).
    destruct (Compression.decompress (c :: f)) as [content|m].
    + destruct (Sanitizer.sanitize (VString content)) as [shown|error].
      * unfold updateStatus, modify. eexists. split; [reflexivity|].
        destruct w as [st ed fr [si|] [stx|] wc cc t ck]; cbn in *; auto.
      * eexists. split; [reflexivity|]. split; [reflexivity | exact Hf].
    + eexists. split; [reflexivity|]. split; [reflexivity | exact Hf].
  - rewrite loadFromHash_no_fragment by auto. eexists. split; [reflexivity|].
    split; [reflexivity | exact Hf].
Qed.

(** X16.  Whatever the fragment of the address holds, what [loadFromHash]
    assigns to the editor for it is markup in which every [<] starts a tag
    of the allow-list written without attributes, and which has no
    [<script]: the output of [sanitize], or nothing after a failure. *)
Theorem loadFromHash_assigns_plain_markup (w : world) (f : jsstring) :
  fragment w = Some f -> f <> [] ->
  exists w' markup,
    loadFromHash w = (Normal tt, w')
    /\ editor w' = set_innerHTML (editor w) markup
    /\ only_plain_tags 0 markup = true
    /\ occurs_ci script_open markup = false.
Proof.
  intros Hf Hne. rewrite (loadFromHash_fragment w f Hf Hne).
  destruct (Compression.decompress f) as [content|m].
  - destruct (Sanitizer.sanitize (VString content)) as [shown|error] eqn:E.
    + destruct (sanitize_output_plain _ _ E) as [P S].
      unfold updateStatus, modify. eexists. exists shown.
      split; [reflexivity|]. split; [|split; assumption].
      destruct w as [st ed fr [si|] [stx|] wc cc t ck]; reflexivity.
    + eexists. exists []. repeat split.
  - eexists. exists []. repeat split.
Qed.

(** X17.  When [decompress] throws for the fragment of the address,
    [loadFromHash] empties the editor and shows the error toast for five
    seconds, and changes nothing else: the status and the counts keep what
    they showed before. *)
Theorem loadFromHash_failure (w : world) (f m : jsstring) :
  fragment w = Some f -> f <> [] ->
  Compression.decompress f = Throw m ->
  loadFromHash w
  = (Normal tt,
     with_editor (set_innerHTML (editor w) []) (with_toast (Some load_failed) w)).
Proof.
  intros Hf Hne Hd. now rewrite (loadFromHash_fragment w f Hf Hne), Hd.
Qed.

(** [saveToHash] when no save is under way. *)
Lemma saveToHash_idle (w : world) :
  isSaving (state w) = false ->
  saveToHash w
  = let w0 := snd (updateStatus saving (with_state (set_isSaving true) w)) in
    match DomUtils.isEmpty (content_of w) with
    | Some true =>
        (Normal tt,
         with_state (set_isSaving false)
           (snd (updateStatus saved
                   (with_state (set_hasUnsavedChanges false) (with_fragment None w0)))))
    | Some false =>
        match Compression.compress (content_of w) with
        | Return token =>
            (Normal tt,
             with_state (set_isSaving false)
               (snd (updateStatus saved
                       (with_state (set_lastSaved (Some (clock w)))
                          (with_state (set_hasUnsavedChanges false)
                             (with_fragment (Some (url_fragment token)) w0))))))
        | Throw _ =>
            (Normal tt,
             with_state (set_isSaving false)
               (with_toast (Some save_failed) (snd (updateStatus error w0))))
        end
    | None =>
        (Normal tt,
         with_state (set_isSaving false)
           (with_toast (Some save_failed) (snd (updateStatus error w0))))
    end.
Proof.
  intros B. unfold saveToHash, bind at 1, read at 1. rewrite B.
  unfold content_of, try_catch, bind, read, call, await, modify, ret, updateStatus,
    replaceState_pathname, replaceState_hash, showToast.
  destruct w as [st ed fr [si|] [stx|] wc cc t ck]; cbn in *;
    (destruct (DomUtils.isEmpty (innerHTML ed)) as [[|]|]; [reflexivity | | reflexivity]);
    (destruct (Compression.compress (innerHTML ed)); reflexivity).
Qed.

(** X18.  When the gzip stream fails, [saveToHash] leaves the address, the
    unsaved-changes flag and the time of the last save as they were, shows
    the error toast and the status "Error", and clears [isSaving]. *)
Theorem saveToHash_failure (w : world) :
  isSaving (state w) = false ->
  DomUtils.isEmpty (content_of w) = Some false ->
  gzip (Encoding.TextEncoder_encode (content_of w)) = None ->
  exists w',
    saveToHash w = (Normal tt, w')
    /\ fragment w' = fragment w
    /\ hasUnsavedChanges (state w') = hasUnsavedChanges (state w)
    /\ lastSaved (state w') = lastSaved (state w)
    /\ isSaving (state w') = false
    /\ copy_toast w' = Some save_failed
    /\ statusText w' = match statusIndicator w, statusText w with
                       | Some _, Some _ => Some (js "Error")
                       | _, t => t
                       end.
Proof.
  intros B He Hz. rewrite (saveToHash_idle w B). cbv zeta. rewrite He.
  destruct (content_of w) as [|c s] eqn:Ec; [discriminate|].
  rewrite compress_nonempty, Hz. eexists. split; [reflexivity|].
  destruct w as [st ed fr [si|] [stx|] wc cc t ck]; cbn; repeat split.
Qed.

(** X19.  A saved note comes back sanitized.  When the content of the
    editor is not empty and the streams work on it, [saveToHash] stores the
    token in the address as it is, clears the unsaved-changes flag and notes
    the time; [loadFromHash] on that address then completes normally and
    hands the content, in its well-formed version without a leading U+FEFF,
    to [sanitize]: when [sanitize] returns, the editor gets what it
    returned, and when [sanitize] throws, the editor is emptied and the
    load-failed toast is shown. *)
Theorem save_then_load (w : world) (z : list byte) :
  isSaving (state w) = false ->
  DomUtils.isEmpty (content_of w) = Some false ->
  forallb is_code_unit (content_of w) = true ->
  gzip (Encoding.TextEncoder_encode (content_of w)) = Some z ->
  z <> [] ->
  gunzip z = Some (Encoding.TextEncoder_encode (content_of w)) ->
  exists w1 w2,
    saveToHash w = (Normal tt, w1)
    /\ fragment w1 = Some (token_of z)
    /\ hasUnsavedChanges (state w1) = false
    /\ lastSaved (state w1) = Some (clock w)
    /\ loadFromHash w1 = (Normal tt, w2)
    /\ match Sanitizer.sanitize
               (VString (drop_leading_BOM (toWellFormed (content_of w)))) with
       | Return shown => editor w2 = set_innerHTML (editor w) shown
       | Throw _ =>
           editor w2 = set_innerHTML (editor w) []
           /\ copy_toast w2 = Some load_failed
       end.
Proof.
  intros B He U Hz Hne Hg. rewrite (saveToHash_idle w B). cbv zeta. rewrite He.
  destruct (content_of w) as [|c s] eqn:Ec; [discriminate|].
  rewrite compress_nonempty, Hz, url_fragment_token by apply token_of_chars.
  pose (w1 := with_state (set_isSaving false)
                (snd (updateStatus saved
                        (with_state (set_lastSaved (Some (clock w)))
                           (with_state (set_hasUnsavedChanges false)
                              (with_fragment (Some (token_of z))
                                 (snd (updateStatus saving
                                         (with_state (set_isSaving true) w))))))))).
  assert (W : fragment w1 = Some (token_of z) /\ editor w1 = editor w
              /\ hasUnsavedChanges (state w1) = false
              /\ lastSaved (state w1) = Some (clock w)).
  { clear. destruct w as [st ed fr [si|] [stx|] wc cc t ck]; repeat split. }
  destruct W as [Hf [Hed [Hu Hl]]].
  assert (L := loadFromHash_fragment w1 (token_of z) Hf (token_of_nonempty z Hne)).
  rewrite (decompress_token_of (c :: s) z U Hne Hg) in L.
  destruct (Sanitizer.sanitize (VString (drop_leading_BOM (toWellFormed (c :: s)))))
    as [shown|error].
  - exists w1. eexists. split; [reflexivity|].
    split; [exact Hf|]. split; [exact Hu|]. split; [exact Hl|].
    split; [rewrite L; unfold updateStatus, modify; reflexivity|].
    rewrite <- Hed. clear.
    destruct w1 as [st ed fr [si|] [stx|] wc cc t ck]; reflexivity.
  - exists w1. eexists. split; [reflexivity|].
    split; [exact Hf|]. split; [exact Hu|]. split; [exact Hl|].
    split; [rewrite L; reflexivity|].
    rewrite <- Hed. clear.
    destruct w1 as [st ed fr [si|] [stx|] wc cc t ck]; split; reflexivity.
Qed.

(** X20.  A blank note is not kept.  When the content of the editor is
    empty or white space only, [saveToHash] takes the fragment off the
    address and clears the unsaved-changes flag without noting a time;
    [loadFromHash] on that address then shows the demo content. *)
Theorem save_blank_then_load (w : world) :
  isSaving (state w) = false ->
  DomUtils.isEmpty (content_of w) = Some true ->
  exists w1 w2,
    saveToHash w = (Normal tt, w1)
    /\ fragment w1 = None
    /\ hasUnsavedChanges (state w1) = false
    /\ lastSaved (state w1) = lastSaved (state w)
    /\ loadFromHash w1 = (Normal tt, w2)
    /\ editor w2 = set_innerHTML (editor w) getDemoContent.
Proof.
  intros B He. rewrite (saveToHash_idle w B). cbv zeta. rewrite He.
  pose (w1 := with_state (set_isSaving false)
                (snd (updateStatus saved
                        (with_state (set_hasUnsavedChanges false)
                           (with_fragment None
                              (snd (updateStatus saving
                                      (with_state (set_isSaving true) w)))))))).
  assert (W : fragment w1 = None /\ editor w1 = editor w
              /\ hasUnsavedChanges (state w1) = false
              /\ lastSaved (state w1) = lastSaved (state w)).
  { clear. destruct w as [st ed fr [si|] [stx|] wc cc t ck]; repeat split. }
  destruct W as [Hf [Hed [Hu Hl]]].
  exists w1. eexists. split; [reflexivity|].
  split; [exact Hf|]. split; [exact Hu|]. split; [exact Hl|].
  split; [apply loadFromHash_no_fragment; now left|].
  rewrite <- Hed. reflexivity.
Qed.

(** X21.  [newNote] never throws.  With unsaved changes and the question
    declined it changes nothing; otherwise it empties the editor, takes the
    fragment off the address, clears the unsaved-changes flag and shows zero
    words and zero characters. *)
Theorem newNote_outcome (confirmed : bool) (w : world) :
  exists w',
    newNote confirmed w = (Normal tt, w')
    /\ if hasUnsavedChanges (state w) && negb confirmed then w' = w
       else editor w' = set_innerHTML (editor w) []
            /\ fragment w' = None
            /\ hasUnsavedChanges (state w') = false
            /\ wordCountEl w' = option_map (fun _ => 0) (wordCountEl w)
            /\ charCountEl w' = option_map (fun _ => 0) (charCountEl w).
Proof.
  unfold newNote, bind at 1, read at 1.
  destruct (hasUnsavedChanges (state w) && negb confirmed); [now exists w|].
  unfold bind, set_editor, replaceState_pathname, modify.
  rewrite updateStats_shown. unfold updateStatus, modify, shown_counts.
  eexists. split; [reflexivity|].
  assert (E : forall ed, innerHTML (set_innerHTML ed []) = []).
  { intros [data | ns name attrs children | data]; reflexivity. }
  destruct w as [st ed fr [si|] [stx|] [wc|] [cc|] t ck]; cbn -[set_innerHTML];
    rewrite ?E; repeat split.
Qed.

End EditorFacts.

Lemma loadFromHash_assigns_plain_markup_witness :
  Editor.fragment (page [] (Some hello_token)) = Some hello_token
  /\ hello_token <> []
  /\ exists w' markup,
       @Editor.loadFromHash ReferenceFragments ReferenceStreams ReferenceParser
         (page [] (Some hello_token)) = (Editor.Normal tt, w')
       /\ Editor.editor w'
          = @Element.set_innerHTML ReferenceFragments
              (Editor.editor (page [] (Some hello_token))) markup
       /\ only_plain_tags 0 markup = true
       /\ occurs_ci script_open markup = false.
Proof.
  split; [reflexivity|]. split; [discriminate|].
  apply (@loadFromHash_assigns_plain_markup ReferenceFragments ReferenceStreams
           ReferenceParser (page [] (Some hello_token)) hello_token);
    [reflexivity | discriminate].
Defined.

Lemma loadFromHash_failure_witness :
  Editor.fragment (page greeting (Some (js "A"))) = Some (js "A")
  /\ js "A" <> []
  /\ @Compression.decompress ReferenceStreams (js "A")
     = Throw (js "Failed to decompress content")
  /\ @Editor.loadFromHash ReferenceFragments ReferenceStreams ReferenceParser
       (page greeting (Some (js "A")))
     = (Editor.Normal tt,
        Editor.with_editor (DOM.Element DOM.HTML (js "div") [] [])
          (Editor.with_toast (Some load_failed) (page greeting (Some (js "A"))))).
Proof.
  split; [reflexivity|]. split; [discriminate|]. split; [reflexivity|].
  apply (@loadFromHash_failure ReferenceFragments ReferenceStreams ReferenceParser
           (page greeting (Some (js "A"))) (js "A")
           (js "Failed to decompress content"));
    [reflexivity | discriminate | reflexivity].
Defined.

Lemma saveToHash_failure_witness :
  Editor.isSaving (Editor.state (page greeting (Some (js "abc")))) = false
  /\ @DomUtils.isEmpty ReferenceFragments (content_of (page greeting (Some (js "abc"))))
     = Some false
  /\ @gzip FailingStreams
       (Encoding.TextEncoder_encode (content_of (page greeting (Some (js "abc"))))) = None
  /\ exists w',
       @Editor.saveToHash ReferenceFragments FailingStreams (page greeting (Some (js "abc")))
       = (Editor.Normal tt, w')
       /\ Editor.fragment w' = Some (js "abc")
       /\ Editor.hasUnsavedChanges (Editor.state w') = true
       /\ Editor.lastSaved (Editor.state w') = None
       /\ Editor.isSaving (Editor.state w') = false
       /\ Editor.copy_toast w' = Some save_failed
       /\ Editor.statusText w' = Some (js "Error").
Proof.
  split; [reflexivity|]. split; [vm_compute; reflexivity|]. split; [reflexivity|].
  apply (@saveToHash_failure ReferenceFragments FailingStreams
           (page greeting (Some (js "abc"))));
    [reflexivity | vm_compute; reflexivity | reflexivity].
Defined.

Lemma save_then_load_witness :
  exists z,
    @gzip ReferenceStreams (Encoding.TextEncoder_encode (content_of (page greeting None)))
    = Some z
    /\ z <> []
    /\ @gunzip ReferenceStreams z
       = Some (Encoding.TextEncoder_encode (content_of (page greeting None)))
    /\ exists w1 w2,
         @Editor.saveToHash ReferenceFragments ReferenceStreams (page greeting None)
         = (Editor.Normal tt, w1)
         /\ Editor.fragment w1 = Some (token_of z)
         /\ Editor.hasUnsavedChanges (Editor.state w1) = false
         /\ Editor.lastSaved (Editor.state w1) = Some 1234
         /\ @Editor.loadFromHash ReferenceFragments ReferenceStreams ReferenceParser w1
            = (Editor.Normal tt, w2)
         /\ match @Sanitizer.sanitize ReferenceParser
                    (VString (drop_leading_BOM
                                (toWellFormed (content_of (page greeting None))))) with
            | Return shown =>
                Editor.editor w2
                = @Element.set_innerHTML ReferenceFragments
                    (Editor.editor (page greeting None)) shown
            | Throw _ =>
                Editor.editor w2
                = @Element.set_innerHTML ReferenceFragments
                    (Editor.editor (page greeting None)) []
                /\ Editor.copy_toast w2 = Some load_failed
            end.
Proof.
  exists (Gzip.deflate (Encoding.TextEncoder_encode (content_of (page greeting None)))).
  assert (Hne : Gzip.deflate (Encoding.TextEncoder_encode (content_of (page greeting None)))
                <> []) by (vm_compute; discriminate).
  split; [reflexivity|]. split; [exact Hne|]. split; [vm_compute; reflexivity|].
  apply (@save_then_load ReferenceFragments ReferenceStreams ReferenceParser
           (page greeting None)
           (Gzip.deflate (Encoding.TextEncoder_encode (content_of (page greeting None)))));
    [reflexivity | vm_compute; reflexivity | reflexivity | reflexivity | exact Hne
    | vm_compute; reflexivity].
Defined.

Lemma save_blank_then_load_witness :
  Editor.isSaving (Editor.state (page blank (Some (js "abc")))) = false
  /\ @DomUtils.isEmpty ReferenceFragments (content_of (page blank (Some (js "abc"))))
     = Some true
  /\ exists w1 w2,
       @Editor.saveToHash ReferenceFragments ReferenceStreams (page blank (Some (js "abc")))
       = (Editor.Normal tt, w1)
       /\ Editor.fragment w1 = None
       /\ Editor.hasUnsavedChanges (Editor.state w1) = false
       /\ Editor.lastSaved (Editor.state w1) = None
       /\ @Editor.loadFromHash ReferenceFragments ReferenceStreams ReferenceParser w1
          = (Editor.Normal tt, w2)
       /\ Editor.editor w2
          = @Element.set_innerHTML ReferenceFragments
              (Editor.editor (page blank (Some (js "abc")))) Editor.getDemoContent.
Proof.
  split; [reflexivity|]. split; [vm_compute; reflexivity|].
  apply (@save_blank_then_load ReferenceFragments ReferenceStreams ReferenceParser
           (page blank (Some (js "abc"))));
    [reflexivity | vm_compute; reflexivity].
Defined.

Section UnescapeFacts.
Import DOM Sanitizer Element Escaping DomUtils.
Context {fragments : FragmentParser}.

(** X23.  [unescapeHtml] never throws, [getCharCount] is the length of the
    text it returns for the same markup, and [isEmpty] tells whether that
    text is white space only. *)
Theorem counts_of_unescaped_text (html : jsstring) :
  exists text,
    unescapeHtml html = Some text
    /\ getCharCount html = Some (N.of_nat (List.length text))
    /\ isEmpty html = Some match trim text with [] => true | _ => false end.
Proof.
  unfold unescapeHtml, getCharCount, isEmpty. rewrite createElement_div.
  eexists. split; [reflexivity|]. split; [reflexivity|].
  destruct html as [|c html]; cbn [falsy]; [reflexivity|].
  rewrite !or_empty_id.
  now destruct (trim (textContent (set_innerHTML (container []) (c :: html)))).
Qed.

End UnescapeFacts.

Section CopyLinkFacts.
Import DOM Element Editor.
Context {fragments : FragmentParser} {streams : CompressionStreams}.

Lemma saveToHash_returns (w : world) :
  exists w', saveToHash w = (Normal tt, w') /\ editor w' = editor w.
Proof.
  unfold saveToHash, bind, read, ret.
  destruct (isSaving (state w)) eqn:B; [exists w; auto|].
  unfold try_catch, bind, read, call, await, modify, ret, updateStatus,
    replaceState_pathname, replaceState_hash, showToast.
  destruct (isEmpty_returns (innerHTML (editor w))) as [b Hb].
  destruct w as [st ed fr [si|] [stx|] wc cc t ck]; cbn in *; rewrite Hb;
    (destruct b; [eexists; split; reflexivity|]);
    (destruct (Compression.compress (innerHTML ed)); eexists; split; reflexivity).
Qed.

(** X24.  [copyLink] never throws and leaves the content of the editor as
    it is; the toast it leaves tells how copying went for the address as it
    is at the end, whatever the save before it did. *)
Theorem copyLink_completes (copyToClipboard : option jsstring -> bool) (w : world) :
  exists w',
    copyLink copyToClipboard w = (Normal tt, w')
    /\ editor w' = editor w
    /\ copy_toast w'
       = Some (if copyToClipboard (fragment w') then link_copied else copy_failed).
Proof.
  unfold copyLink, bind at 1, read at 1.
  assert (K : forall w1, editor w1 = editor w ->
            exists w',
              (let success := copyToClipboard (fragment w1) in
               if success
               then showToast (js "Link copied to clipboard!") toast_success 3000
               else showToast (js "Failed to copy. Please copy the URL manually.")
                      toast_error 3000) w1 = (Normal tt, w')
              /\ editor w' = editor w
              /\ copy_toast w'
                 = Some (if copyToClipboard (fragment w') then link_copied
                         else copy_failed)).
  { intros w1 E. cbv zeta. unfold showToast, modify.
    destruct (copyToClipboard (fragment w1)) eqn:C; eexists;
      (split; [reflexivity|]); cbn [with_toast editor fragment copy_toast];
      rewrite C; auto. }
  destruct (hasUnsavedChanges (state w)).
  - destruct (saveToHash_returns w) as [w1 [S E]].
    unfold bind. rewrite S. unfold read. now apply K.
  - unfold bind, ret, read. now apply K.
Qed.

(** X25.  A failed save goes unnoticed in [copyLink]: with unsaved changes,
    when the gzip stream fails and the clipboard takes the address,
    [copyLink] copies the address as it was before, the toast says that
    the link was copied, and the changes stay unsaved. *)
Theorem copyLink_after_failed_save (copyToClipboard : option jsstring -> bool)
    (w : world) :
  hasUnsavedChanges (state w) = true ->
  isSaving (state w) = false ->
  DomUtils.isEmpty (content_of w) = Some false ->
  gzip (Encoding.TextEncoder_encode (content_of w)) = None ->
  copyToClipboard (fragment w) = true ->
  exists w',
    copyLink copyToClipboard w = (Normal tt, w')
    /\ fragment w' = fragment w
    /\ hasUnsavedChanges (state w') = true
    /\ copy_toast w' = Some link_copied.
Proof.
  intros Hu B He Hz Hc. unfold copyLink, bind at 1, read at 1. rewrite Hu.
  unfold bind at 1. rewrite (saveToHash_idle w B). cbv zeta. rewrite He.
  destruct (content_of w) as [|c s] eqn:Ec; [discriminate|].
  rewrite compress_nonempty, Hz. unfold bind, read.
  match goal with
  | |- context [copyToClipboard (fragment ?w1)] =>
      assert (F : fragment w1 = fragment w /\ hasUnsavedChanges (state w1) = true)
  end.
  { clear - Hu. destruct w as [st ed fr [si|] [stx|] wc cc t ck]; cbn in *; auto. }
  destruct F as [F1 F2]. rewrite F1, Hc. unfold showToast, modify.
  eexists. split; [reflexivity|].
  cbn [with_toast fragment state copy_toast]. auto.
Qed.

End CopyLinkFacts.

Lemma copyLink_after_failed_save_witness :
  Editor.hasUnsavedChanges (Editor.state (page greeting (Some (js "abc")))) = true
  /\ @DomUtils.isEmpty ReferenceFragments (content_of (page greeting (Some (js "abc"))))
     = Some false
  /\ exists w',
       @Editor.copyLink ReferenceFragments FailingStreams (fun _ => true)
         (page greeting (Some (js "abc"))) = (Editor.Normal tt, w')
       /\ Editor.fragment w' = Some (js "abc")
       /\ Editor.hasUnsavedChanges (Editor.state w') = true
       /\ Editor.copy_toast w' = Some link_copied.
Proof.
  split; [reflexivity|]. split; [vm_compute; reflexivity|].
  apply (@copyLink_after_failed_save ReferenceFragments FailingStreams (fun _ => true)
           (page greeting (Some (js "abc"))));
    [reflexivity | reflexivity | vm_compute; reflexivity | reflexivity | reflexivity].
Defined.

Lemma cleanNode_ignores_attributes_and_comments_witness :
  @children_read_as ReferenceParser
     (DOM.childNodes_of (HTMLParser.parse decorated_markup))
     (HTMLParser.parse decorated_markup) = true
  /\ @children_read_as ReferenceParser
       (DOM.childNodes_of (HTMLParser.parse bare_markup))
       (HTMLParser.parse bare_markup) = true
  /\ @Sanitizer.cleanNode ReferenceParser 3 (HTMLParser.parse decorated_markup)
     = @Sanitizer.cleanNode ReferenceParser 3 (HTMLParser.parse bare_markup).
Proof.
  split; [vm_compute; reflexivity|]. split; [vm_compute; reflexivity|].
  apply (@cleanNode_ignores_attributes_and_comments ReferenceParser 3 3
           (HTMLParser.parse decorated_markup) (HTMLParser.parse bare_markup)
           (DOM.childNodes_of (HTMLParser.parse decorated_markup))
           (DOM.childNodes_of (HTMLParser.parse bare_markup)));
    try (vm_compute; reflexivity); vm_compute; lia.
Defined.
